(** * generer_page: bilingual page generator

    A shallow embedding of [generer_page.py] (Markdown converter, YouTube
    identifier extraction, template engine, context builder, redirect page)
    together with the properties its specification states about it.

    Conventions of the embedding.
    - A Python [str] is a list of Unicode code points ([N]).
    - A value loaded from YAML is a [value]; floats, timestamps and mappings
      with keys that are not strings are outside the model.
    - A Python [dict] is an association list in insertion order; [dict_get]
      returns the first binding of a key.
    - Code that can raise runs in the error monad [res]; [str] of an
      integer raises [ValueError] above CPython's limit of 4300 digits. *)

From Stdlib Require Import Ascii String DecimalString.
From Stdlib Require Import Bool Arith NArith ZArith Lia List.
Import ListNotations.

Set Warnings "-register-all".

(* ================================================================== *)
(** * Strings *)
(* ================================================================== *)

Definition char := N.
Definition str := list char.

(** An ASCII literal as a Python string. *)
Definition py (s : String.string) : str :=
  map N_of_ascii (String.list_ascii_of_string s).
Arguments py s%_string.

Definition dq : str := [34%N].   (* the double quote *)
Definition nl : str := [10%N].   (* "\n" *)

Fixpoint str_eqb (a b : str) : bool :=
  match a, b with
  | [], [] => true
  | c :: a', d :: b' => N.eqb c d && str_eqb a' b'
  | _, _ => false
  end.

(** [s.startswith(p)] *)
Fixpoint startswith (s p : str) {struct p} : bool :=
  match p with
  | [] => true
  | c :: p' =>
      match s with
      | [] => false
      | d :: s' => N.eqb c d && startswith s' p'
      end
  end.

(** [p in s] *)
Fixpoint contains (s p : str) : bool :=
  startswith s p ||
  match s with
  | [] => false
  | _ :: s' => contains s' p
  end.

(** [str.isspace] on one code point, which is also what [\s] matches in a
    [str] pattern: the code points Python treats as whitespace. *)
Definition isspace (c : char) : bool :=
  ((9 <=? c) && (c <=? 13) || (28 <=? c) && (c <=? 32) ||
   (c =? 133) || (c =? 160) || (c =? 5760) ||
   (8192 <=? c) && (c <=? 8202) || (c =? 8232) || (c =? 8233) ||
   (c =? 8239) || (c =? 8287) || (c =? 12288))%N.

(** [s.lstrip()], [s.rstrip()], [s.strip()] *)
Fixpoint lstrip (s : str) : str :=
  match s with
  | c :: s' => if isspace c then lstrip s' else s
  | [] => []
  end.

Definition rstrip (s : str) : str := rev (lstrip (rev s)).

Definition strip (s : str) : str := rstrip (lstrip s).

(** [sep.join(parts)] *)
Fixpoint join (sep : str) (parts : list str) : str :=
  match parts with
  | [] => []
  | [p] => p
  | p :: rest => p ++ sep ++ join sep rest
  end.

(** [s.replace(old, new)]: every non-overlapping occurrence of [old], found
    scanning from the left, is replaced.  The fuel bounds the scan by the
    length of the string. *)
Fixpoint replace_go (fuel : nat) (old new s : str) : str :=
  match fuel with
  | O => s
  | S n =>
      if startswith s old
      then new ++ replace_go n old new (skipn (length old) s)
      else match s with
           | [] => []
           | c :: s' => c :: replace_go n old new s'
           end
  end.

(** With an empty [old], Python inserts [new] before every character and
    at the end. *)
Definition py_replace (s old new : str) : str :=
  match old with
  | [] => flat_map (fun c => new ++ [c]) s ++ new
  | _ :: _ => replace_go (S (length s)) old new s
  end.

(** Only the first occurrence: [s.replace(old, new, 1)]; the generator never
    calls it, it is what "first occurrence only" would mean. *)
Fixpoint replace_first (old new s : str) : str :=
  if startswith s old then new ++ skipn (length old) s
  else match s with
       | [] => []
       | c :: s' => c :: replace_first old new s'
       end.

(** [s.split(sep)] for a non-empty separator. *)
Fixpoint split_go (fuel : nat) (sep cur s : str) : list str :=
  match fuel with
  | O => [rev cur ++ s]
  | S n =>
      match s with
      | [] => [rev cur]
      | c :: s' =>
          if startswith s sep
          then rev cur :: split_go n sep [] (skipn (length sep) s)
          else split_go n sep (c :: cur) s'
      end
  end.

Definition py_split (s sep : str) : list str :=
  split_go (S (length s)) sep [] s.

(* ================================================================== *)
(** * Exceptions *)
(* ================================================================== *)

Inductive exn := AttributeError | TypeError | ValueError | RecursionError.

Inductive res (A : Type) : Type :=
| Ok (a : A)
| Raise (e : exn).
Arguments Ok {A} a.
Arguments Raise {A} e.

Definition bind {A B : Type} (m : res A) (f : A -> res B) : res B :=
  match m with
  | Ok a => f a
  | Raise e => Raise e
  end.

Notation "x <- m ;; k" := (bind m (fun x => k))
  (at level 61, m at next level, right associativity).

Fixpoint mapM {A B : Type} (f : A -> res B) (l : list A) : res (list B) :=
  match l with
  | [] => Ok []
  | a :: l' => b <- f a ;; bs <- mapM f l' ;; Ok (b :: bs)
  end.

(* ================================================================== *)
(** * Regular expressions ([re])

    A backtracking matcher in continuation-passing style: alternatives are
    tried from the left, a greedy repetition tries one more iteration before
    it tries to stop, a lazy one the other way round, and the first path
    that reaches the end of the pattern wins, as in Python's [re]. *)
(* ================================================================== *)

Inductive regex : Type :=
| Eps                                   (* empty pattern *)
| Chr (p : char -> bool)                (* one character of a class *)
| Seq (r1 r2 : regex)
| Alt (r1 r2 : regex)                   (* r1|r2 *)
| Star (greedy : bool) (r : regex)      (* r* and r*? *)
| Group (i : nat) (r : regex)           (* capturing group number i *)
| Bol.                                  (* ^ under re.MULTILINE *)

(** A literal string, [r+], [r+?], [r{n}]. *)
Fixpoint Lit (l : str) : regex :=
  match l with
  | [] => Eps
  | c :: l' => Seq (Chr (N.eqb c)) (Lit l')
  end.

Definition Plus (greedy : bool) (r : regex) : regex := Seq r (Star greedy r).

Fixpoint Times (n : nat) (r : regex) : regex :=
  match n with
  | O => Eps
  | S n' => Seq r (Times n' r)
  end.

(** The matcher's state: the character before the current position (for
    [^]), the text still to read and the groups captured so far (the most
    recent capture of a group first). *)
Record mstate : Type := MState {
  st_prev : option char;
  st_rest : str;
  st_caps : list (nat * str)
}.

Definition cont := mstate -> option mstate.
Definition matcher := mstate -> cont -> option mstate.

Definition orelse {A : Type} (a b : option A) : option A :=
  match a with
  | Some x => Some x
  | None => b
  end.

(** The text read between two states. *)
Definition consumed (st st' : mstate) : str :=
  firstn (length (st_rest st) - length (st_rest st')) (st_rest st).

(** Repetition of [m].  An iteration must read at least one character, so
    the length of the remaining text plus one is fuel enough. *)
Fixpoint star_loop (m : matcher) (greedy : bool) (fuel : nat)
    (st : mstate) (k : cont) : option mstate :=
  match fuel with
  | O => k st
  | S n =>
      let again :=
        m st (fun st1 =>
                if length (st_rest st1) <? length (st_rest st)
                then star_loop m greedy n st1 k
                else None) in
      if greedy then orelse again (k st) else orelse (k st) again
  end.

Fixpoint rmatch (r : regex) (st : mstate) (k : cont) : option mstate :=
  match r with
  | Eps => k st
  | Chr p =>
      match st_rest st with
      | c :: s' => if p c then k (MState (Some c) s' (st_caps st)) else None
      | [] => None
      end
  | Seq r1 r2 => rmatch r1 st (fun st1 => rmatch r2 st1 k)
  | Alt r1 r2 => orelse (rmatch r1 st k) (rmatch r2 st k)
  | Star g r1 => star_loop (rmatch r1) g (S (length (st_rest st))) st k
  | Group i r1 =>
      rmatch r1 st
        (fun st1 => k (MState (st_prev st1) (st_rest st1)
                         ((i, consumed st st1) :: st_caps st1)))
  | Bol =>
      match st_prev st with
      | None => k st
      | Some c => if N.eqb c 10 then k st else None
      end
  end.

(** A match object: the text skipped before the match, the matched text,
    the groups and the text after the match. *)
Record rmatch_result : Type := MatchResult {
  m_pre : str;
  m_text : str;
  m_caps : list (nat * str);
  m_rest : str
}.

(** [m.group(i)]; a group that did not take part is [None] in Python, no
    pattern of the generator has such a group. *)
Fixpoint lookup_cap (i : nat) (caps : list (nat * str)) : str :=
  match caps with
  | [] => []
  | (j, t) :: caps' => if Nat.eqb i j then t else lookup_cap i caps'
  end.

Definition group (m : rmatch_result) (i : nat) : str := lookup_cap i (m_caps m).

(** [pattern.match(s)] at a position preceded by [prev]. *)
Definition match_at (r : regex) (prev : option char) (s : str) : option mstate :=
  rmatch r (MState prev s []) (fun st => Some st).

(** [pattern.search]: the leftmost position where the pattern matches. *)
Fixpoint search_from (r : regex) (prev : option char) (s : str)
    : option rmatch_result :=
  match match_at r prev s with
  | Some st =>
      Some (MatchResult [] (firstn (length s - length (st_rest st)) s)
              (st_caps st) (st_rest st))
  | None =>
      match s with
      | [] => None
      | c :: s' =>
          match search_from r (Some c) s' with
          | Some m => Some (MatchResult (c :: m_pre m) (m_text m) (m_caps m) (m_rest m))
          | None => None
          end
      end
  end.

Definition re_search (r : regex) (s : str) : option rmatch_result :=
  search_from r None s.

(** [pattern.match(s)] as a truth value. *)
Definition re_match (r : regex) (s : str) : bool :=
  match match_at r None s with
  | Some _ => true
  | None => false
  end.

(** The non-overlapping matches from the left, and the text after the last
    one.  After an empty match the scan moves on by one character (none of
    the generator's patterns matches the empty string). *)
Fixpoint finditer_go (fuel : nat) (r : regex) (prev : option char) (s : str)
    : list rmatch_result * str :=
  match fuel with
  | O => ([], s)
  | S n =>
      match search_from r prev s with
      | None => ([], s)
      | Some m =>
          match m_text m with
          | _ :: _ =>
              let (ms, tail) :=
                finditer_go n r (Some (last (m_text m) 0%N)) (m_rest m) in
              (m :: ms, tail)
          | [] =>
              match m_rest m with
              | [] => ([m], [])
              | c :: s' =>
                  let (ms, tail) := finditer_go n r (Some c) s' in
                  match ms with
                  | [] => ([m], c :: tail)
                  | m' :: ms' =>
                      (m :: MatchResult (c :: m_pre m') (m_text m') (m_caps m')
                              (m_rest m') :: ms', tail)
                  end
              end
          end
      end
  end.

Definition finditer (r : regex) (s : str) : list rmatch_result * str :=
  finditer_go (S (length s)) r None s.

(** [pattern.sub(f, s)] with a replacement function. *)
Definition re_sub (r : regex) (f : rmatch_result -> str) (s : str) : str :=
  let (ms, tail) := finditer r s in
  flat_map (fun m => m_pre m ++ f m) ms ++ tail.

(** The same with a replacement function that can raise; the function is
    called on the matches from the left. *)
Definition re_sub_m (r : regex) (f : rmatch_result -> res str) (s : str)
    : res str :=
  let (ms, tail) := finditer r s in
  parts <- mapM (fun m => t <- f m ;; Ok (m_pre m ++ t)) ms ;;
  Ok (concat parts ++ tail).

(* ================================================================== *)
(** * YouTube identifier extraction *)
(* ================================================================== *)

Definition is_digit (c : char) : bool := ((48 <=? c) && (c <=? 57))%N.
Definition is_upper (c : char) : bool := ((65 <=? c) && (c <=? 90))%N.
Definition is_lower (c : char) : bool := ((97 <=? c) && (c <=? 122))%N.

(** The ASCII characters of [\w]: letters, digits and the underscore. *)
Definition ascii_word (c : char) : bool :=
  is_lower c || is_upper c || is_digit c || N.eqb c 95.

(** [[a-zA-Z0-9_-]] *)
Definition id_char (c : char) : bool := ascii_word c || N.eqb c 45.

(** [(?:youtube\.com/watch\?v=|youtu\.be/|youtube\.com/embed/)([a-zA-Z0-9_-]{11})] *)
Definition YOUTUBE_PATTERN : regex :=
  Seq (Alt (Lit (py "youtube.com/watch?v="))
        (Alt (Lit (py "youtu.be/"))
             (Lit (py "youtube.com/embed/"))))
      (Group 1 (Times 11 (Chr id_char))).

Definition extract_youtube_id (url : str) : str :=
  match re_search YOUTUBE_PATTERN url with
  | Some m => group m 1
  | None => []
  end.

(* ================================================================== *)
(** * Markdown to HTML *)
(* ================================================================== *)

Definition seqs (rs : list regex) : regex := fold_right Seq Eps rs.

(** Truth value of a string or list: it is not empty. *)
Definition nonempty {A : Type} (s : list A) : bool :=
  match s with
  | [] => false
  | _ :: _ => true
  end.

(** [\[([^\]]+)\]\(([^)]+)\)] *)
Definition link_pattern : regex :=
  seqs [Lit (py "[");
        Group 1 (Plus true (Chr (fun c => negb (N.eqb c 93))));
        Lit (py "](");
        Group 2 (Plus true (Chr (fun c => negb (N.eqb c 41))));
        Lit (py ")")].

(** The bullet [U+2022] or a hyphen. *)
Definition bullet_char (c : char) : bool := N.eqb c 8226 || N.eqb c 45.

(** [^[•\-]\s+] with [re.MULTILINE] *)
Definition bullet_pattern : regex :=
  seqs [Bol; Chr bullet_char; Plus true (Chr isspace)].

(** The replacement template [<a href="\2" target="_blank">\1</a>]. *)
Definition link_anchor (m : rmatch_result) : str :=
  py "<a href=" ++ dq ++ group m 2 ++ dq ++ py " target=" ++ dq
    ++ py "_blank" ++ dq ++ py ">" ++ group m 1 ++ py "</a>".

(** ['<ul>' + ''.join(f'<li>{item}</li>' for item in items) + '</ul>'] *)
Definition ul (items : list str) : str :=
  py "<ul>" ++ concat (map (fun item => py "<li>" ++ item ++ py "</li>") items)
    ++ py "</ul>".

Definition paragraph (line : str) : str := py "<p>" ++ line ++ py "</p>".

Definition is_bullet (line : str) : bool := re_match bullet_pattern line.

Definition strip_bullet (line : str) : str :=
  re_sub bullet_pattern (fun _ => []) line.

(** The variables of the line-by-line loop over a mixed block. *)
Record scan : Type := Scan {
  result : list str;
  in_list : bool;
  list_items : list str
}.

(** One iteration of the loop over the lines of a mixed block. *)
Definition scan_line (st : scan) (line0 : str) : scan :=
  let line := strip line0 in
  if is_bullet line then
    Scan (result st) true (list_items st ++ [strip_bullet line])
  else
    let st1 :=
      if in_list st
      then Scan (result st ++ [ul (list_items st)]) false []
      else st in
    if nonempty line
    then Scan (result st1 ++ [paragraph line]) (in_list st1) (list_items st1)
    else st1.

Definition mixed_block (lines : list str) : str :=
  let st := fold_left scan_line lines (Scan [] false []) in
  let result :=
    if nonempty (list_items st)
    then result st ++ [ul (list_items st)]
    else result st in
  concat result.

(** The body of the loop over the paragraphs, for a stripped, non-empty
    paragraph. *)
Definition paragraph_html (para : str) : str :=
  let lines := py_split para nl in
  let bullet_lines := filter (fun l => is_bullet (strip l)) lines in
  if nonempty bullet_lines && Nat.eqb (length bullet_lines) (length lines) then
    ul (map (fun l => strip_bullet (strip l)) lines)
  else if nonempty bullet_lines then
    mixed_block lines
  else
    paragraph (join (py "<br>")
                 (map strip (filter (fun l => nonempty (strip l)) lines))).

(** [markdown_to_html] on a non-empty string. *)
Definition markdown_text (text : str) : str :=
  let text := re_sub link_pattern link_anchor text in
  let paragraphs := py_split (strip text) (nl ++ nl) in
  let html_parts :=
    map paragraph_html (filter nonempty (map strip paragraphs)) in
  join nl html_parts.

Definition markdown_to_html_str (text : str) : str :=
  if nonempty text then markdown_text text else [].

(* ================================================================== *)
(** * Values and dictionaries *)
(* ================================================================== *)

Inductive value : Type :=
| VNone
| VBool (b : bool)
| VInt (z : Z)
| VStr (s : str)
| VList (l : list value)
| VDict (kv : list (str * value)).

Definition pydict := list (str * value).

Fixpoint lookup (k : str) (d : pydict) : option value :=
  match d with
  | [] => None
  | (k', v) :: d' => if str_eqb k k' then Some v else lookup k d'
  end.

(** [d.get(k, default)] on a dictionary. *)
Definition get (d : pydict) (k : str) (default : value) : value :=
  match lookup k d with
  | Some v => v
  | None => default
  end.

(** [obj.get(k, default)] on any value: only a mapping has [get]. *)
Definition vget (obj : value) (k : str) (default : value) : res value :=
  match obj with
  | VDict d => Ok (get d k default)
  | _ => Raise AttributeError
  end.

(** [d[k] = v]: the binding is updated in place or added at the end. *)
Fixpoint dict_set (d : pydict) (k : str) (v : value) : pydict :=
  match d with
  | [] => [(k, v)]
  | (k', v') :: d' =>
      if str_eqb k k' then (k', v) :: d' else (k', v') :: dict_set d' k v
  end.

(** Truth value of a Python object. *)
Definition truthy (v : value) : bool :=
  match v with
  | VNone => false
  | VBool b => b
  | VInt z => negb (Z.eqb z 0)
  | VStr s => nonempty s
  | VList l => nonempty l
  | VDict kv => nonempty kv
  end.

(** [isinstance(v, dict)] and [isinstance(v, (list, dict))] *)
Definition is_dict (v : value) : bool :=
  match v with
  | VDict _ => true
  | _ => false
  end.

Definition is_container (v : value) : bool :=
  match v with
  | VList _ | VDict _ => true
  | _ => false
  end.

(** [for x in v]: the elements of a list, the characters of a string, the
    keys of a mapping; nothing else can be iterated. *)
Definition py_iter (v : value) : res (list value) :=
  match v with
  | VList l => Ok l
  | VStr s => Ok (map (fun c => VStr [c]) s)
  | VDict kv => Ok (map (fun e => VStr (fst e)) kv)
  | _ => Raise TypeError
  end.

(** [item.items()] *)
Definition py_items (v : value) : res pydict :=
  match v with
  | VDict kv => Ok kv
  | _ => Raise AttributeError
  end.

(** [a == b] between a value and a string. *)
Definition eq_str (v : value) (s : str) : bool :=
  match v with
  | VStr t => str_eqb t s
  | _ => false
  end.

(** [str(z)] for an integer.  CPython refuses to convert an integer of
    more than [sys.int_max_str_digits] decimal digits, 4300 unless the
    limit was changed, and raises [ValueError]; the sign does not count. *)
Definition int_max_str_digits : nat := 4300.

Definition decimal (z : Z) : str := py (NilZero.string_of_int (Z.to_int z)).

Definition str_of_Z (z : Z) : res str :=
  if Nat.ltb int_max_str_digits (length (decimal (Z.abs z)))
  then Raise ValueError
  else Ok (decimal z).

Section Generator.

(** [str] of a list or a mapping is Python's [repr].  It needs the Unicode
    database to decide which characters are printed as they are, and it
    raises when the container cannot be printed: [ValueError] for an
    integer of too many digits inside it, [RecursionError] for a nesting
    that is too deep. *)
Variable container_repr : value -> res str.

(** [str.isalnum] of a code point outside ASCII, from the Unicode
    database. *)
Variable uni_alnum : char -> bool.

(** [str(v)] *)
Definition py_str (v : value) : res str :=
  match v with
  | VNone => Ok (py "None")
  | VBool true => Ok (py "True")
  | VBool false => Ok (py "False")
  | VInt z => str_of_Z z
  | VStr s => Ok s
  | VList _ | VDict _ => container_repr v
  end.

(** [\w] in a [str] pattern. *)
Definition is_word (c : char) : bool :=
  if (c <? 128)%N then ascii_word c else uni_alnum c.

(* ================================================================== *)
(** * Template rendering *)
(* ================================================================== *)

Definition ws : regex := Chr isspace.
Definition not_quote (c : char) : bool := negb (N.eqb c 39).

(** [\{%\s*for\s+(\w+)\s+in\s+(\w+)\s*%\}(.*?)\{%\s*endfor\s*%\}] with
    [re.DOTALL] *)
Definition for_pattern : regex :=
  seqs [Lit (py "{%"); Star true ws; Lit (py "for"); Plus true ws;
        Group 1 (Plus true (Chr is_word)); Plus true ws; Lit (py "in");
        Plus true ws; Group 2 (Plus true (Chr is_word)); Star true ws;
        Lit (py "%}");
        Group 3 (Star false (Chr (fun _ => true)));
        Lit (py "{%"); Star true ws; Lit (py "endfor"); Star true ws;
        Lit (py "%}")].

(** The pattern of a conditional,
    [\{\{\s*'([^']+)'\s+if\s+(\w+)\s*==\s*'([^']+)'\s+else\s*'(Q)'\s*\}\}]
    where [Q] is a run, possibly empty, of characters other than the quote. *)
Definition cond_pattern : regex :=
  seqs [Lit (py "{{"); Star true ws; Lit (py "'");
        Group 1 (Plus true (Chr not_quote)); Lit (py "'"); Plus true ws;
        Lit (py "if"); Plus true ws; Group 2 (Plus true (Chr is_word));
        Star true ws; Lit (py "=="); Star true ws; Lit (py "'");
        Group 3 (Plus true (Chr not_quote)); Lit (py "'"); Plus true ws;
        Lit (py "else"); Star true ws; Lit (py "'");
        Group 4 (Star true (Chr not_quote)); Lit (py "'"); Star true ws;
        Lit (py "}}")].

(** [f'{{{{ {var_name}.{key} }}}}'] and [f'{{{{ {key} }}}}'] *)
Definition item_ref (var_name key : str) : str :=
  py "{{ " ++ var_name ++ py "." ++ key ++ py " }}".

Definition var_ref (key : str) : str := py "{{ " ++ key ++ py " }}".

(** The inner loop of [replace_for]: the body rendered for one item, its
    fields taken in order. *)
Fixpoint render_item (var_name item_body : str) (item : pydict) : res str :=
  match item with
  | [] => Ok item_body
  | (key, value) :: item' =>
      s <- py_str value ;;
      render_item var_name (py_replace item_body (item_ref var_name key) s)
        item'
  end.

Definition replace_for (context : pydict) (m : rmatch_result) : res str :=
  let var_name := group m 1 in
  let list_name := group m 2 in
  let body := group m 3 in
  let items := get context list_name (VList []) in
  if negb (truthy items) then Ok []
  else
    its <- py_iter items ;;
    rendered_items <-
      mapM (fun item => kv <- py_items item ;; render_item var_name body kv)
        its ;;
    Ok (concat rendered_items).

Definition replace_cond (context : pydict) (m : rmatch_result) : str :=
  let val_true := group m 1 in
  let var := group m 2 in
  let check_val := group m 3 in
  let val_false := group m 4 in
  if eq_str (get context var VNone) check_val then val_true else val_false.

(** The three passes of [render_template]. *)
Definition expand_loops (context : pydict) (template : str) : res str :=
  re_sub_m for_pattern (replace_for context) template.

Definition resolve_conditionals (context : pydict) (s : str) : str :=
  re_sub cond_pattern (replace_cond context) s.

Fixpoint substitute_variables (context : pydict) (result : str) : res str :=
  match context with
  | [] => Ok result
  | (key, value) :: context' =>
      if is_container value then substitute_variables context' result
      else
        s <- py_str value ;;
        substitute_variables context' (py_replace result (var_ref key) s)
  end.

Definition render_template (template : str) (context : pydict) : res str :=
  result <- expand_loops context template ;;
  let result := resolve_conditionals context result in
  substitute_variables context result.

(* ================================================================== *)
(** * Context builder *)
(* ================================================================== *)

Definition get_text (obj : value) (key lang : str) : res value :=
  value <- vget obj key (VDict []) ;;
  match value with
  | VDict d => Ok (get d lang (get d (py "fr") (VStr [])))
  | _ => s <- py_str value ;; Ok (VStr s)
  end.

(** Methods and functions applied to a value that need a string. *)
Definition v_strip (v : value) : res value :=
  match v with
  | VStr s => Ok (VStr (strip s))
  | _ => Raise AttributeError
  end.

Definition v_replace (v : value) (old new : str) : res value :=
  match v with
  | VStr s => Ok (VStr (py_replace s old new))
  | _ => Raise AttributeError
  end.

Definition markdown_to_html (text : value) : res value :=
  if negb (truthy text) then Ok (VStr [])
  else match text with
       | VStr s => Ok (VStr (markdown_text s))
       | _ => Raise TypeError
       end.

Definition v_extract_youtube_id (url : value) : res str :=
  match url with
  | VStr s => Ok (extract_youtube_id s)
  | _ => Raise TypeError
  end.

(** [nav_labels.get(lang, nav_labels['fr'])] *)
Definition nav_fr : pydict :=
  [(py "recherche", VStr (py "Recherche"));
   (py "medias", VStr (py "M" ++ [233%N] ++ py "dias"));
   (py "oiseaux", VStr (py "Photos"));
   (py "scroll", VStr (py "D" ++ [233%N] ++ py "filer"));
   (py "gallery", VStr (py "Voir la galerie"))].

Definition nav_en : pydict :=
  [(py "recherche", VStr (py "Research"));
   (py "medias", VStr (py "Media"));
   (py "oiseaux", VStr (py "Photos"));
   (py "scroll", VStr (py "Scroll"));
   (py "gallery", VStr (py "View gallery"))].

Definition nav_labels : pydict :=
  [(py "fr", VDict nav_fr); (py "en", VDict nav_en)].

(** The loop over [medias.videos]. *)
Fixpoint process_videos (lang : str) (vs : list value) : res (list value) :=
  match vs with
  | [] => Ok []
  | v :: vs' =>
      url <- vget v (py "url") (VStr []) ;;
      video_id <- v_extract_youtube_id url ;;
      if nonempty video_id then
        titre <- get_text v (py "titre") lang ;;
        rest <- process_videos lang vs' ;;
        Ok (VDict [(py "video_id", VStr video_id); (py "titre", titre)] :: rest)
      else process_videos lang vs'
  end.

(** The loop over [medias.decouvertes]. *)
Definition process_decouverte (lang : str) (d : value) : res value :=
  titre <- get_text d (py "titre") lang ;;
  annee <- vget d (py "annee") (VStr []) ;;
  url <- vget d (py "url") (VStr []) ;;
  Ok (VDict [(py "titre", titre); (py "annee", annee); (py "url", url)]).

(** The first value given to [footer_text], in the dictionary display. *)
Definition footer_text_initial (config : value) (lang : str) : res value :=
  footer_or_none <- vget config (py "footer") VNone ;;
  if is_dict footer_or_none then
    footer <- vget config (py "footer")
                (VDict [(py "fr", VStr []); (py "en", VStr [])]) ;;
    get_text footer (if str_eqb lang (py "fr") then py "fr" else py "en") lang
  else
    footer <- vget config (py "footer") (VDict []) ;;
    vget footer lang (VStr []).

Definition build_context (config : value) (lang : str) : res pydict :=
  let t := fun obj key => get_text obj key lang in
  let labels := get nav_labels lang (get nav_labels (py "fr") VNone) in
  (* Process videos *)
  medias <- vget config (py "medias") (VDict []) ;;
  vs <- vget medias (py "videos") (VList []) ;;
  vs <- py_iter vs ;;
  videos <- process_videos lang vs ;;
  (* Process discoveries *)
  medias <- vget config (py "medias") (VDict []) ;;
  ds <- vget medias (py "decouvertes") (VList []) ;;
  ds <- py_iter ds ;;
  decouvertes <- mapM (process_decouverte lang) ds ;;
  (* Build context dict *)
  nom <- vget config (py "nom") (VStr []) ;;
  titre <- t config (py "titre") ;;
  photo <- vget config (py "photo") (VStr []) ;;
  css_path <- vget config (py "css_path") (VStr []) ;;
  affiliation <- vget config (py "affiliation") (VDict []) ;;
  affiliation_inst <- vget affiliation (py "institution") (VStr []) ;;
  affiliation <- vget config (py "affiliation") (VDict []) ;;
  affiliation_dept <- t affiliation (py "departement") ;;
  liens <- vget config (py "liens") (VDict []) ;;
  email <- vget liens (py "email") (VStr []) ;;
  liens <- vget config (py "liens") (VDict []) ;;
  orcid <- vget liens (py "orcid") (VStr []) ;;
  nav_recherche <- vget labels (py "recherche") VNone ;;
  nav_medias <- vget labels (py "medias") VNone ;;
  nav_oiseaux <- vget labels (py "oiseaux") VNone ;;
  scroll_hint <- vget labels (py "scroll") VNone ;;
  oiseaux_bouton <- vget labels (py "gallery") VNone ;;
  intro <- t config (py "intro") ;;
  intro <- v_strip intro ;;
  recherche <- vget config (py "recherche") (VDict []) ;;
  recherche_titre <- t recherche (py "titre") ;;
  recherche <- vget config (py "recherche") (VDict []) ;;
  recherche_photo <- vget recherche (py "photo") (VStr []) ;;
  recherche <- vget config (py "recherche") (VDict []) ;;
  recherche_contenu <- t recherche (py "contenu") ;;
  recherche_contenu <- markdown_to_html recherche_contenu ;;
  medias <- vget config (py "medias") (VDict []) ;;
  medias_titre <- t medias (py "titre") ;;
  medias <- vget config (py "medias") (VDict []) ;;
  ads_url <- vget medias (py "ads_url") (VStr []) ;;
  medias <- vget config (py "medias") (VDict []) ;;
  ads_texte <- t medias (py "ads_texte") ;;
  medias <- vget config (py "medias") (VDict []) ;;
  decouvertes_titre <- t medias (py "decouvertes_titre") ;;
  oiseaux <- vget config (py "oiseaux") (VDict []) ;;
  oiseaux_titre <- t oiseaux (py "titre") ;;
  oiseaux <- vget config (py "oiseaux") (VDict []) ;;
  oiseaux_photo <- vget oiseaux (py "photo") (VStr []) ;;
  oiseaux <- vget config (py "oiseaux") (VDict []) ;;
  oiseaux_contenu <- t oiseaux (py "contenu") ;;
  oiseaux_contenu <- markdown_to_html oiseaux_contenu ;;
  liens <- vget config (py "liens") (VDict []) ;;
  galerie <- vget liens (py "galerie_oiseaux") (VStr []) ;;
  oiseaux_lien <- v_replace galerie (py "_fr") (py "_" ++ lang) ;;
  footer_text <- footer_text_initial config lang ;;
  let context : pydict :=
    [(py "lang", VStr lang);
     (py "nom", nom);
     (py "titre", titre);
     (py "photo", photo);
     (py "css_path", css_path);
     (py "affiliation_inst", affiliation_inst);
     (py "affiliation_dept", affiliation_dept);
     (py "email", email);
     (py "orcid", orcid);
     (py "nav_recherche", nav_recherche);
     (py "nav_medias", nav_medias);
     (py "nav_oiseaux", nav_oiseaux);
     (py "scroll_hint", scroll_hint);
     (py "oiseaux_bouton", oiseaux_bouton);
     (py "intro", intro);
     (py "recherche_titre", recherche_titre);
     (py "recherche_photo", recherche_photo);
     (py "recherche_contenu", recherche_contenu);
     (py "medias_titre", medias_titre);
     (py "ads_url", ads_url);
     (py "ads_texte", ads_texte);
     (py "decouvertes_titre", decouvertes_titre);
     (py "videos", VList videos);
     (py "decouvertes", VList decouvertes);
     (py "oiseaux_titre", oiseaux_titre);
     (py "oiseaux_photo", oiseaux_photo);
     (py "oiseaux_contenu", oiseaux_contenu);
     (py "oiseaux_lien", oiseaux_lien);
     (py "footer_text", footer_text)] in
  (* Fix footer for simple dict structure *)
  footer <- vget config (py "footer") (VDict []) ;;
  match footer with
  | VDict f =>
      Ok (dict_set context (py "footer_text")
            (get f lang (get f (py "fr") (VStr []))))
  | _ => Ok context
  end.

End Generator.

(** Instances used to run the generator on documents and templates that
    hold no container where a string is expected and no character outside
    ASCII in a name: there the two tables are never consulted. *)
Definition no_repr : value -> res str := fun _ => Ok [].
Definition no_alnum : char -> bool := fun _ => false.

(* ================================================================== *)
(** * Redirect page and page generation *)
(* ================================================================== *)

(** The three statements of the script in the redirect page. *)
Definition script_userLang : str :=
  py "const userLang = navigator.language || navigator.userLanguage;".
Definition script_targetLang : str :=
  py "const targetLang = userLang.startsWith('fr') ? 'fr' : 'en';".
Definition script_location : str :=
  py "window.location.href = 'index_' + targetLang + '.html';".

Definition redirect_html : str :=
  py "<!DOCTYPE html>" ++ nl ++
  py "<html>" ++ nl ++
  py "<head>" ++ nl ++
  py "    <meta charset=" ++ dq ++ py "UTF-8" ++ dq ++ py ">" ++ nl ++
  py "    <meta http-equiv=" ++ dq ++ py "refresh" ++ dq ++ py " content="
    ++ dq ++ py "0; url=index_fr.html" ++ dq ++ py ">" ++ nl ++
  py "    <script>" ++ nl ++
  py "        " ++ script_userLang ++ nl ++
  py "        " ++ script_targetLang ++ nl ++
  py "        " ++ script_location ++ nl ++
  py "    </script>" ++ nl ++
  py "</head>" ++ nl ++
  py "<body>" ++ nl ++
  py "    <p>Redirecting... <a href=" ++ dq ++ py "index_fr.html" ++ dq
    ++ py ">Fran" ++ [231%N] ++ py "ais</a> | <a href=" ++ dq
    ++ py "index_en.html" ++ dq ++ py ">English</a></p>" ++ nl ++
  py "</body>" ++ nl ++
  py "</html>".

(** The script, run by a browser whose [navigator.language] and
    [navigator.userLanguage] are the given strings ([None] for
    [undefined]).  [a || b] is [a] unless [a] is undefined or empty. *)
Definition js_or (a b : option str) : option str :=
  match a with
  | Some (_ :: _) => a
  | _ => b
  end.

(** The value assigned to [window.location.href]; [None] when [userLang]
    is undefined and [startsWith] throws. *)
Definition script_target (language userLanguage : option str) : option str :=
  match js_or language userLanguage with
  | Some userLang =>
      let targetLang := if startswith userLang (py "fr") then py "fr" else py "en" in
      Some (py "index_" ++ targetLang ++ py ".html")
  | None => None
  end.

(** [generate_pages]: the files written, in order, by a run that completes,
    from the loaded configuration and template; an exception ends the run
    (the files written before it are not part of the model). *)
Section Pages.
Variable container_repr : value -> res str.
Variable uni_alnum : char -> bool.

Definition generate_page (config : value) (template lang : str)
    : res (str * str) :=
  context <- build_context container_repr config lang ;;
  html <- render_template container_repr uni_alnum template context ;;
  Ok (py "index_" ++ lang ++ py ".html", html).

Definition generate_pages (config : value) (template : str)
    : res (list (str * str)) :=
  fr <- generate_page config template (py "fr") ;;
  en <- generate_page config template (py "en") ;;
  Ok [fr; en; (py "index.html", redirect_html)].

End Pages.

(* ================================================================== *)
(** * Definitions used in the statements *)
(* ================================================================== *)

(** The character before the position reached after reading [w]. *)
Definition prev_after (prev : option char) (w : str) : option char :=
  fold_left (fun _ c => Some c) w prev.

Definition is_suffix (a b : str) : Prop := exists p, b = p ++ a.

(** The three URL shapes, in the order of the pattern. *)
Definition url_shapes : list str :=
  [py "youtube.com/watch?v="; py "youtu.be/"; py "youtube.com/embed/"].

(** The token read when [s] starts with [shape]: the 11 characters after
    the shape, when there are 11 and all are letters, digits, [_] or [-]. *)
Definition token_after (shape s : str) : option str :=
  if startswith s shape then
    let t := firstn 11 (skipn (length shape) s) in
    if Nat.eqb (length t) 11 && forallb id_char t then Some t else None
  else None.

Definition shape_at (s : str) : option str :=
  orelse (token_after (py "youtube.com/watch?v=") s)
    (orelse (token_after (py "youtu.be/") s)
       (token_after (py "youtube.com/embed/") s)).

(** The token of the first position of [s] where a shape and its token
    are read, the empty string when there is none. *)
Fixpoint first_video_id (s : str) : str :=
  match shape_at s with
  | Some t => t
  | None =>
      match s with
      | [] => []
      | _ :: s' => first_video_id s'
      end
  end.

(** Closing a pending list: nothing when no bullet line is pending. *)
Definition flush (pending : list str) : list str :=
  match pending with
  | [] => []
  | _ :: _ => [ul pending]
  end.

(** The fragments of a mixed block as the specification words them: bullet
    lines are accumulated in a pending list; a line that is not a bullet
    line closes the pending list and, when it is not blank, is emitted as a
    paragraph; the list still pending at the end of the block is closed. *)
Fixpoint mixed_fragments (pending : list str) (lines : list str) : list str :=
  match lines with
  | [] => flush pending
  | line0 :: rest =>
      let line := strip line0 in
      if is_bullet line
      then mixed_fragments (pending ++ [strip_bullet line]) rest
      else flush pending
             ++ (if nonempty line then [paragraph line] else [])
             ++ mixed_fragments [] rest
  end.

(** What the block emits once the loop is over. *)
Definition finish (st : scan) : list str :=
  if nonempty (list_items st)
  then result st ++ [ul (list_items st)]
  else result st.

(** Where a greedy run of a class stops: at the end of the text or before
    a character outside the class. *)
Definition run_stops (p : char -> bool) (s : str) : Prop :=
  match s with
  | [] => True
  | c :: _ => p c = false
  end.

(** A pattern without [^] does not look at the character before the
    position where it is tried. *)
Fixpoint bol_free (r : regex) : bool :=
  match r with
  | Bol => false
  | Seq r1 r2 | Alt r1 r2 => bol_free r1 && bol_free r2
  | Star _ r1 | Group _ r1 => bol_free r1
  | Eps | Chr _ => true
  end.

Definition st_same (a b : mstate) : Prop :=
  st_rest a = st_rest b /\ st_caps a = st_caps b.

Definition res_same (a b : option mstate) : Prop :=
  match a, b with
  | Some x, Some y => st_same x y
  | None, None => True
  | _, _ => False
  end.

Definition cont_same (k k' : cont) : Prop :=
  forall a b, st_same a b -> res_same (k a) (k' b).

(** A name made of ASCII letters, digits and underscores. *)
Definition is_name (s : str) : bool := nonempty s && forallb ascii_word s.

(** A name as [\w+] reads it: a non-empty run of word characters. *)
Definition is_ident (ua : char -> bool) (s : str) : bool :=
  nonempty s && forallb (is_word ua) s.

(** A run of whitespace, possibly empty. *)
Definition blank (s : str) : bool := forallb isspace s.

(** The whitespace of the two tags of a loop block: after [{%], after
    [for], after the loop variable, after [in], after the name of the
    list, and in the end tag after [{%] and after [endfor]. *)
Record spacing : Type := Spacing {
  sp_open : str;
  sp_for : str;
  sp_var : str;
  sp_in : str;
  sp_list : str;
  sp_end : str;
  sp_close : str
}.

(** What the pattern asks of the whitespace: [\s+] after [for], after the
    loop variable and after [in], [\s*] elsewhere. *)
Definition spacing_ok (sp : spacing) : bool :=
  blank (sp_open sp)
  && (nonempty (sp_for sp) && blank (sp_for sp))
  && (nonempty (sp_var sp) && blank (sp_var sp))
  && (nonempty (sp_in sp) && blank (sp_in sp))
  && blank (sp_list sp) && blank (sp_end sp) && blank (sp_close sp).

Definition for_tag (sp : spacing) (var_name list_name : str) : str :=
  py "{%" ++ sp_open sp ++ py "for" ++ sp_for sp ++ var_name ++ sp_var sp
    ++ py "in" ++ sp_in sp ++ list_name ++ sp_list sp ++ py "%}".

Definition endfor_tag (sp : spacing) : str :=
  py "{%" ++ sp_end sp ++ py "endfor" ++ sp_close sp ++ py "%}".

(** A loop block: the opening tag, the body and the end tag. *)
Definition for_block (sp : spacing) (var_name list_name body : str) : str :=
  for_tag sp var_name list_name ++ body ++ endfor_tag sp.

(** The usual way to write the tags: [{% for v in L %}] and
    [{% endfor %}]. *)
Definition single_spaces : spacing :=
  Spacing (py " ") (py " ") (py " ") (py " ") (py " ") (py " ") (py " ").

(** ** Templates made of text and placeholders *)

(** A piece of a template: text, or the placeholder [{{ h }}]. *)
Inductive piece : Type :=
| Text (s : str)
| Hole (h : str).

Definition hole (h : str) : str := py "{{ " ++ h ++ py " }}".

Definition piece_str (p : piece) : str :=
  match p with
  | Text s => s
  | Hole h => hole h
  end.

(** The template that the pieces spell. *)
Definition flat (ps : list piece) : str := flat_map piece_str ps.

(** The pieces with every placeholder that [f] resolves turned into the
    text that [f] gives, the others left as they are written. *)
Definition plug (f : str -> option str) (ps : list piece) : list piece :=
  map (fun p =>
         match p with
         | Text s => Text s
         | Hole h =>
             match f h with
             | Some s => Text s
             | None => Hole h
             end
         end) ps.

(** The template filled in by [f]. *)
Definition fill (f : str -> option str) (ps : list piece) : str :=
  flat (plug f ps).

(** The resolver of one replacement: the placeholder [{{ a }}] becomes
    [s]. *)
Definition one (a s : str) (h : str) : option str :=
  if str_eqb h a then Some s else None.

(** The character [c] does not occur in [s]. *)
Definition lacks (c : char) (s : str) : bool :=
  forallb (fun d => negb (N.eqb d c)) s.

(** The pieces that the theorems are about: text without [{], and
    placeholders whose name holds no space, no [{] and no quote. *)
Definition piece_ok (p : piece) : bool :=
  match p with
  | Text s => lacks 123%N s
  | Hole h => lacks 32%N h && lacks 123%N h && lacks 39%N h
  end.

(** The string form of a value, empty when it has none. *)
Definition str_or_empty (r : res str) : str :=
  match r with
  | Ok s => s
  | Raise _ => []
  end.

Definition is_ok {A : Type} (r : res A) : bool :=
  match r with
  | Ok _ => true
  | Raise _ => false
  end.

Definition ok_str (r : res str) : option str :=
  match r with
  | Ok s => Some s
  | Raise _ => None
  end.

(** A value that [str] can print, with a string form that holds no [{]. *)
Definition printable (repr : value -> res str) (v : value) : bool :=
  match py_str repr v with
  | Ok s => lacks 123%N s
  | Raise _ => false
  end.


(** A context whose scalar entries can all be printed, under keys that
    hold no [}]. *)
Definition context_ok (repr : value -> res str) (context : pydict) : bool :=
  forallb (fun e => is_container (snd e)
                    || (lacks 125%N (fst e) && printable repr (snd e)))
    context.



(** The text that a context gives to a placeholder: the string form of
    the value of the key, when the key is bound to a scalar. *)
Definition var_text (repr : value -> res str) (context : pydict) (h : str)
    : option str :=
  match lookup h context with
  | Some v => if is_container v then None else ok_str (py_str repr v)
  | None => None
  end.

(** An item of a list that the loop of [replace_for] renders: a mapping
    whose values all have a string form. *)
Definition prints (repr : value -> res str) (item : value) : bool :=
  match item with
  | VDict kv => forallb (fun e => is_ok (py_str repr (snd e))) kv
  | _ => false
  end.





(** The scalar values of a context, in order. *)
Definition scalars (context : pydict) : list value :=
  map snd (filter (fun e => negb (is_container (snd e))) context).

(** The entry [out] of a context is the result of a computation that did
    not raise. *)
Definition yields (c : res value) (context : pydict) (out : str) : Prop :=
  exists t, c = Ok t /\ lookup out context = Some t.

(** The language lookup of a bilingual mapping: the entry of the language,
    else the entry of [fr], else the empty string. *)
Definition bilingual (m : pydict) (lang : str) : value :=
  match lookup lang m with
  | Some t => t
  | None =>
      match lookup (py "fr") m with
      | Some t => t
      | None => VStr []
      end
  end.

(** A document with a gallery link that holds [_fr] twice, and the English
    context built from it. *)
Definition gallery_doc : value :=
  VDict [(py "titre", VDict [(py "fr", VStr (py "Bonjour"))]);
         (py "liens",
          VDict [(py "galerie_oiseaux", VStr (py "a_fr/b_fr.html"))]);
         (py "footer", VDict [(py "fr", VStr (py "Pied"))])].

Definition gallery_context_en : pydict :=
  Eval vm_compute in
    match build_context no_repr gallery_doc (py "en") with
    | Ok c => c
    | Raise _ => []
    end.

(** The routing that C3 states: the French page unless the preferred
    language begins with [en]. *)
Definition claimed_target (userLang : str) : str :=
  if startswith userLang (py "en") then py "index_en.html"
  else py "index_fr.html".

Definition link_to (page : str) : str :=
  py "<a href=" ++ dq ++ page ++ dq ++ py ">".

(** A conditional written with single spaces:
    [{{ 'val_true' if var == 'check_val' else 'val_false' }}]. *)
Definition cond_expr (val_true var check_val val_false : str) : str :=
  py "{{ '" ++ val_true ++ py "' if " ++ var ++ py " == '" ++ check_val
    ++ py "' else '" ++ val_false ++ py "' }}".

(** A text without the quote character. *)
Definition quote_free (s : str) : bool := forallb not_quote s.

(** The whitespace at the start of a string, which [lstrip] removes. *)
Fixpoint leading_spaces (s : str) : str :=
  match s with
  | c :: s' => if isspace c then c :: leading_spaces s' else []
  | [] => []
  end.

(** What the pattern of bullet lines asks of a line: a bullet or a hyphen,
    then a whitespace character. *)
Definition starts_with_bullet (line : str) : bool :=
  match line with
  | c :: w :: _ => bullet_char c && isspace w
  | _ => false
  end.
(** A Markdown link [[label](target)] and the anchor it becomes. *)
Definition md_link (label target : str) : str :=
  py "[" ++ label ++ py "](" ++ target ++ py ")".

Definition anchor (label target : str) : str :=
  py "<a href=" ++ dq ++ target ++ dq ++ py " target=" ++ dq
    ++ py "_blank" ++ dq ++ py ">" ++ label ++ py "</a>".

(** The first pass of [markdown_to_html]: the links rewritten. *)
Definition rewrite_links (text : str) : str :=
  re_sub link_pattern link_anchor text.

(** ** The built context, written out

    The document that [build_context] accepts and the context it returns
    for it, without the error monad. *)

Definition is_str (v : value) : bool :=
  match v with
  | VStr _ => true
  | _ => false
  end.

(** The mapping under [key], empty when the key is absent. *)
Definition section (cfg : pydict) (key : str) : pydict :=
  match get cfg key (VDict []) with
  | VDict d => d
  | _ => []
  end.

(** The list under [key], empty when the key is absent. *)
Definition elements (d : pydict) (key : str) : list value :=
  match get d key (VList []) with
  | VList l => l
  | _ => []
  end.

(** What [get_text] returns on a mapping, when it returns. *)
Definition text_of (repr : value -> res str) (d : pydict) (key lang : str)
    : value :=
  match get d key (VDict []) with
  | VDict m => bilingual m lang
  | v => VStr (str_or_empty (py_str repr v))
  end.

(** [get_text] returns on this field: the field is absent or a mapping,
    or it has a string form. *)
Definition text_ok (repr : value -> res str) (d : pydict) (key : str) : bool :=
  match get d key (VDict []) with
  | VDict _ => true
  | v => is_ok (py_str repr v)
  end.

(** The string under [key], empty when it is absent or not a string. *)
Definition str_of (d : pydict) (key : str) : str :=
  match get d key (VStr []) with
  | VStr s => s
  | _ => []
  end.

Definition has_video_id (d : pydict) : bool :=
  nonempty (extract_youtube_id (str_of d (py "url"))).

(** A video that the loop over the videos accepts: a mapping with a
    string [url] and, when the URL gives an identifier, a title that
    [get_text] returns. *)
Definition video_ok (repr : value -> res str) (v : value) : bool :=
  match v with
  | VDict d =>
      is_str (get d (py "url") (VStr []))
      && (negb (has_video_id d) || text_ok repr d (py "titre"))
  | _ => false
  end.

(** A discovery that the loop over the discoveries accepts. *)
Definition decouverte_ok (repr : value -> res str) (v : value) : bool :=
  match v with
  | VDict d => text_ok repr d (py "titre")
  | _ => false
  end.

(** A value that the loops over videos and discoveries can run through:
    a list whose items pass [ok], or an empty string or mapping. *)
Definition iterable_ok (ok : value -> bool) (v : value) : bool :=
  match v with
  | VList l => forallb ok l
  | VStr [] => true
  | VDict [] => true
  | _ => false
  end.

(** A value that [markdown_to_html] accepts. *)
Definition markdown_ok (v : value) : bool := negb (truthy v) || is_str v.

Definition video_entry (repr : value -> res str) (lang : str) (d : pydict) : value :=
  VDict [(py "video_id", VStr (extract_youtube_id (str_of d (py "url"))));
         (py "titre", text_of repr d (py "titre") lang)].

Definition videos_of (repr : value -> res str) (lang : str) (l : list value)
    : list value :=
  flat_map (fun v =>
              match v with
              | VDict d => if has_video_id d then [video_entry repr lang d] else []
              | _ => []
              end) l.

Definition decouverte_entry (repr : value -> res str) (lang : str) (v : value)
    : value :=
  match v with
  | VDict d =>
      VDict [(py "titre", text_of repr d (py "titre") lang);
             (py "annee", get d (py "annee") (VStr []));
             (py "url", get d (py "url") (VStr []))]
  | _ => VNone
  end.

(** The table of labels of a language: the French one for every language
    but [en]. *)
Definition nav_table (lang : str) : pydict :=
  if str_eqb lang (py "fr") then nav_fr
  else if str_eqb lang (py "en") then nav_en
  else nav_fr.

Definition markdown_of (v : value) : value :=
  match v with
  | VStr s => VStr (markdown_to_html_str s)
  | _ => VStr []
  end.

Definition strip_of (v : value) : value :=
  match v with
  | VStr s => VStr (strip s)
  | _ => VStr []
  end.

(** The documents that [build_context] accepts: the sections are
    mappings, the videos and the discoveries are accepted by their loops,
    every text that is not a mapping has a string form, [intro] is a
    string, the [contenu] texts are strings or false values, the gallery
    link is a string, and the footer is a mapping whose entry for the
    language of the first computation has a string form. *)
Definition well_formed (repr : value -> res str) (cfg : pydict) (lang : str)
    : bool :=
  let medias := section cfg (py "medias") in
  let recherche := section cfg (py "recherche") in
  let oiseaux := section cfg (py "oiseaux") in
  is_dict (get cfg (py "medias") (VDict []))
  && iterable_ok (video_ok repr) (get medias (py "videos") (VList []))
  && iterable_ok (decouverte_ok repr) (get medias (py "decouvertes") (VList []))
  && text_ok repr cfg (py "titre")
  && is_dict (get cfg (py "affiliation") (VDict []))
  && text_ok repr (section cfg (py "affiliation")) (py "departement")
  && is_dict (get cfg (py "liens") (VDict []))
  && (text_ok repr cfg (py "intro")
      && is_str (text_of repr cfg (py "intro") lang))
  && is_dict (get cfg (py "recherche") (VDict []))
  && text_ok repr recherche (py "titre")
  && (text_ok repr recherche (py "contenu")
      && markdown_ok (text_of repr recherche (py "contenu") lang))
  && text_ok repr medias (py "titre")
  && text_ok repr medias (py "ads_texte")
  && text_ok repr medias (py "decouvertes_titre")
  && is_dict (get cfg (py "oiseaux") (VDict []))
  && text_ok repr oiseaux (py "titre")
  && (text_ok repr oiseaux (py "contenu")
      && markdown_ok (text_of repr oiseaux (py "contenu") lang))
  && is_str (get (section cfg (py "liens")) (py "galerie_oiseaux") (VStr []))
  && (is_dict (get cfg (py "footer") (VDict []))
      && text_ok repr (section cfg (py "footer"))
           (if str_eqb lang (py "fr") then py "fr" else py "en")).

(** The context of a well-formed document. *)
Definition expected_context (repr : value -> res str) (cfg : pydict) (lang : str)
    : pydict :=
  let medias := section cfg (py "medias") in
  let recherche := section cfg (py "recherche") in
  let oiseaux := section cfg (py "oiseaux") in
  let liens := section cfg (py "liens") in
  let affiliation := section cfg (py "affiliation") in
  let labels := nav_table lang in
  [(py "lang", VStr lang);
   (py "nom", get cfg (py "nom") (VStr []));
   (py "titre", text_of repr cfg (py "titre") lang);
   (py "photo", get cfg (py "photo") (VStr []));
   (py "css_path", get cfg (py "css_path") (VStr []));
   (py "affiliation_inst", get affiliation (py "institution") (VStr []));
   (py "affiliation_dept", text_of repr affiliation (py "departement") lang);
   (py "email", get liens (py "email") (VStr []));
   (py "orcid", get liens (py "orcid") (VStr []));
   (py "nav_recherche", get labels (py "recherche") VNone);
   (py "nav_medias", get labels (py "medias") VNone);
   (py "nav_oiseaux", get labels (py "oiseaux") VNone);
   (py "scroll_hint", get labels (py "scroll") VNone);
   (py "oiseaux_bouton", get labels (py "gallery") VNone);
   (py "intro", strip_of (text_of repr cfg (py "intro") lang));
   (py "recherche_titre", text_of repr recherche (py "titre") lang);
   (py "recherche_photo", get recherche (py "photo") (VStr []));
   (py "recherche_contenu",
    markdown_of (text_of repr recherche (py "contenu") lang));
   (py "medias_titre", text_of repr medias (py "titre") lang);
   (py "ads_url", get medias (py "ads_url") (VStr []));
   (py "ads_texte", text_of repr medias (py "ads_texte") lang);
   (py "decouvertes_titre", text_of repr medias (py "decouvertes_titre") lang);
   (py "videos", VList (videos_of repr lang (elements medias (py "videos"))));
   (py "decouvertes",
    VList (map (decouverte_entry repr lang) (elements medias (py "decouvertes"))));
   (py "oiseaux_titre", text_of repr oiseaux (py "titre") lang);
   (py "oiseaux_photo", get oiseaux (py "photo") (VStr []));
   (py "oiseaux_contenu",
    markdown_of (text_of repr oiseaux (py "contenu") lang));
   (py "oiseaux_lien",
    VStr (py_replace (str_of liens (py "galerie_oiseaux")) (py "_fr")
            (py "_" ++ lang)));
   (py "footer_text", bilingual (section cfg (py "footer")) lang)].

(** The part of the document that a field is read from: the document
    itself for the empty name, else the section of that name. *)
Definition part (cfg : pydict) (sec : str) : pydict :=
  match sec with
  | [] => cfg
  | _ :: _ => section cfg sec
  end.

(** The bilingual fields that the context receives as they are: the part
    of the document, the key in it and the entry of the context. *)
Definition text_fields : list (str * str * str) :=
  [([], py "titre", py "titre");
   (py "affiliation", py "departement", py "affiliation_dept");
   (py "recherche", py "titre", py "recherche_titre");
   (py "medias", py "titre", py "medias_titre");
   (py "medias", py "ads_texte", py "ads_texte");
   (py "medias", py "decouvertes_titre", py "decouvertes_titre");
   (py "oiseaux", py "titre", py "oiseaux_titre")].

(** The sections whose [contenu] is converted from Markdown, with the
    entry of the context that receives the HTML. *)
Definition contenu_fields : list (str * str) :=
  [(py "recherche", py "recherche_contenu");
   (py "oiseaux", py "oiseaux_contenu")].

(** A document whose texts have a French entry only. *)
Definition french_only_cfg : pydict :=
  [(py "titre", VDict [(py "fr", VStr (py "Chercheur"))]);
   (py "intro", VDict [(py "fr", VStr (py " Bonjour "))]);
   (py "recherche",
    VDict [(py "contenu", VDict [(py "fr", VStr (py "x"))])])].

Definition french_only_doc : value := VDict french_only_cfg.

(** The names of the entries of every context, in order. *)
Definition context_keys : list str :=
  [py "lang"; py "nom"; py "titre"; py "photo"; py "css_path";
   py "affiliation_inst"; py "affiliation_dept"; py "email"; py "orcid";
   py "nav_recherche"; py "nav_medias"; py "nav_oiseaux"; py "scroll_hint";
   py "oiseaux_bouton"; py "intro"; py "recherche_titre"; py "recherche_photo";
   py "recherche_contenu"; py "medias_titre"; py "ads_url"; py "ads_texte";
   py "decouvertes_titre"; py "videos"; py "decouvertes"; py "oiseaux_titre";
   py "oiseaux_photo"; py "oiseaux_contenu"; py "oiseaux_lien";
   py "footer_text"].
(** A document with two videos, one of them without identifier, and one
    discovery. *)
Definition media_cfg : pydict :=
  [(py "nom", VStr (py "E. A."));
   (py "titre", VDict [(py "fr", VStr (py "Chercheur")); (py "en", VStr (py "Researcher"))]);
   (py "intro", VDict [(py "fr", VStr (py " Bonjour "))]);
   (py "medias",
    VDict [(py "videos",
            VList [VDict [(py "url", VStr (py "https://youtu.be/dQw4w9WgXcQ"));
                          (py "titre", VDict [(py "fr", VStr (py "Un"))])];
                   VDict [(py "url", VStr (py "https://example.com/video"));
                          (py "titre", VStr (py "Deux"))]]);
           (py "decouvertes",
            VList [VDict [(py "titre", VDict [(py "en", VStr (py "Planet"))]);
                          (py "annee", VInt 2019);
                          (py "url", VStr (py "https://a.b"))]])])].

Definition media_doc : value := VDict media_cfg.
(** A video entry of a context: a mapping with an identifier of 11
    characters and a title. *)
Definition video_entry_ok (v : value) : Prop :=
  exists id titre,
    v = VDict [(py "video_id", VStr id); (py "titre", titre)] /\
    length id = 11 /\ forallb id_char id = true.

(** The labels of a language. *)
Definition labels_of (lang : str) : list (str * str) :=
  if str_eqb lang (py "en")
  then [(py "nav_recherche", py "Research"); (py "nav_medias", py "Media");
        (py "nav_oiseaux", py "Photos"); (py "scroll_hint", py "Scroll");
        (py "oiseaux_bouton", py "View gallery")]
  else [(py "nav_recherche", py "Recherche");
        (py "nav_medias", py "M" ++ [233%N] ++ py "dias");
        (py "nav_oiseaux", py "Photos");
        (py "scroll_hint", py "D" ++ [233%N] ++ py "filer");
        (py "oiseaux_bouton", py "Voir la galerie")].

(** The entries of a context that are copied from the document as they
    are: the section of the document (empty for the top level), the key in
    it and the entry of the context. *)
Definition raw_fields : list (str * str * str) :=
  [([], py "nom", py "nom");
   ([], py "photo", py "photo");
   ([], py "css_path", py "css_path");
   (py "affiliation", py "institution", py "affiliation_inst");
   (py "liens", py "email", py "email");
   (py "liens", py "orcid", py "orcid");
   (py "recherche", py "photo", py "recherche_photo");
   (py "medias", py "ads_url", py "ads_url");
   (py "oiseaux", py "photo", py "oiseaux_photo")].

Definition raw_value (cfg : pydict) (sec key : str) : value :=
  get (match sec with
       | [] => cfg
       | _ :: _ => section cfg sec
       end) key (VStr []).

(** A text that is not empty and has no whitespace at either end. *)
Definition trimmed (s : str) : bool :=
  match s with
  | [] => false
  | c :: _ => negb (isspace c) && negb (isspace (last s 32%N))
  end.

(** The blocks of a text: its parts between blank lines, trimmed, without
    the empty ones. *)
Definition blocks (text : str) : list str :=
  filter nonempty (map strip (py_split text (nl ++ nl))).

(* ================================================================== *)
(** * The generator run on examples *)
(* ================================================================== *)

Example extract_short :
  extract_youtube_id (py "https://youtu.be/dQw4w9WgXcQ") = py "dQw4w9WgXcQ".
Proof. reflexivity. Qed.

Example extract_none :
  extract_youtube_id (py "https://example.com/video") = [].
Proof. reflexivity. Qed.

Example markdown_all_bullets : markdown_to_html_str (py "- a" ++ nl ++ py "- b")
  = py "<ul><li>a</li><li>b</li></ul>".
Proof. reflexivity. Qed.

Example markdown_plain_lines : markdown_to_html_str (py "line one" ++ nl ++ py "line two")
  = py "<p>line one<br>line two</p>".
Proof. reflexivity. Qed.

Example markdown_mixed_block : markdown_to_html_str (py "intro line" ++ nl ++ py "- item1" ++ nl ++ py "- item2")
  = py "<p>intro line</p><ul><li>item1</li><li>item2</li></ul>".
Proof. reflexivity. Qed.

Example markdown_link_and_blocks : markdown_to_html_str (py "see [x](http://a) " ++ nl ++ nl ++ nl ++ py "- a" ++ nl ++ py " " ++ nl ++ py "- b")
  = py "<p>see <a href=" ++ dq ++ py "http://a" ++ dq ++ py " target=" ++ dq ++ py "_blank" ++ dq ++ py ">x</a></p>" ++ nl ++ py "<ul><li>a</li></ul><ul><li>b</li></ul>".
Proof. reflexivity. Qed.

Example render_variable :
  render_template no_repr no_alnum (py "{{ x }}") [(py "x", VStr (py "hi"))] = Ok (py "hi").
Proof. reflexivity. Qed.

Example render_loop_and_conditional :
  render_template no_repr no_alnum (py "{% for v in videos %}{{ v.titre }} {% endfor %}<{{ 'a' if lang == 'fr' else 'b' }}>{{ y }}")
   [(py "videos", VList [VDict [(py "titre", VStr (py "A"))]; VDict [(py "titre", VInt 20)]]); (py "lang", VStr (py "fr"))]
  = Ok (py "A 20 <a>{{ y }}").
Proof. reflexivity. Qed.

Example generate_minimal_document :
  generate_pages no_repr no_alnum
    (VDict [(py "titre", VDict [(py "fr", VStr (py "Bonjour")); (py "en", VStr (py "Hello"))])])
    (py "<title>{{ titre }}</title>")
  = Ok [(py "index_fr.html", py "<title>Bonjour</title>");
        (py "index_en.html", py "<title>Hello</title>");
        (py "index.html", redirect_html)].
Proof. vm_compute. reflexivity. Qed.

(* ================================================================== *)
(** * Facts about strings *)
(* ================================================================== *)

Lemma str_eqb_refl (a : str) : str_eqb a a = true.
Proof.
  induction a as [|c a IH]; simpl; [reflexivity|].
  now rewrite N.eqb_refl, IH.
Qed.

Lemma str_eqb_eq (a b : str) : str_eqb a b = true <-> a = b.
Proof.
  split; [|intros ->; apply str_eqb_refl].
  revert b; induction a as [|c a IH]; intros [|d b]; simpl; try discriminate; auto.
  intros H. apply andb_true_iff in H as [H1 H2].
  apply N.eqb_eq in H1. apply IH in H2. congruence.
Qed.

Lemma str_eqb_neq (a b : str) : str_eqb a b = false <-> a <> b.
Proof.
  split.
  - intros H E. apply str_eqb_eq in E. congruence.
  - intros H. destruct (str_eqb a b) eqn:E; [|reflexivity].
    apply str_eqb_eq in E. contradiction.
Qed.

Lemma startswith_app (p s : str) : startswith (p ++ s) p = true.
Proof.
  induction p as [|c p IH]; simpl; [reflexivity|].
  now rewrite N.eqb_refl.
Qed.

Lemma startswith_split (s p : str) :
  startswith s p = true -> s = p ++ skipn (length p) s.
Proof.
  revert s; induction p as [|c p IH]; intros s H; simpl in *; [reflexivity|].
  destruct s as [|d s]; [discriminate|].
  apply andb_true_iff in H as [H1 H2].
  apply N.eqb_eq in H1. subst d. simpl. f_equal. now apply IH.
Qed.

Lemma startswith_nil_r (p : str) : startswith [] p = true -> p = [].
Proof. destruct p; simpl; [reflexivity | discriminate]. Qed.

Lemma startswith_app_l (s p q : str) :
  startswith s (p ++ q) = true -> startswith s p = true.
Proof.
  revert s; induction p as [|c p IH]; intros s H; simpl in *; [reflexivity|].
  destruct s as [|d s]; [discriminate|].
  apply andb_true_iff in H as [H1 H2]. rewrite H1. simpl. eauto.
Qed.

Lemma startswith_head (s p : str) (c : char) :
  startswith s (c :: p) = true -> exists s', s = c :: s'.
Proof.
  destruct s as [|d s]; simpl; [discriminate|].
  intros H. apply andb_true_iff in H as [H1 _].
  apply N.eqb_eq in H1. subst. eauto.
Qed.

Lemma contains_app_l (s p q : str) :
  contains s (p ++ q) = true -> contains s p = true.
Proof.
  induction s as [|d s IH]; simpl; intros H.
  - rewrite orb_false_r in *. eapply startswith_app_l; eauto.
  - apply orb_true_iff in H as [H|H].
    + apply startswith_app_l in H. now rewrite H.
    + rewrite (IH H). apply orb_true_r.
Qed.

Lemma contains_In (s p : str) (c : char) :
  contains s (c :: p) = true -> In c s.
Proof.
  induction s as [|d s IH]; simpl; intros H; [discriminate|].
  apply orb_true_iff in H as [H|H].
  - apply andb_true_iff in H as [H _]. apply N.eqb_eq in H. auto.
  - auto.
Qed.

Lemma contains_false_tail (c : char) (s p : str) :
  contains (c :: s) p = false -> contains s p = false.
Proof.
  intros H. change (startswith (c :: s) p || contains s p = false) in H.
  now apply orb_false_iff in H as [_ H].
Qed.

Lemma contains_false_head (s p : str) :
  contains s p = false -> startswith s p = false.
Proof.
  destruct s; simpl; intros H; now apply orb_false_iff in H as [H _].
Qed.

(** ** [replace] *)

Lemma replace_go_fuel (old new : str) (n m : nat) (s : str) :
  old <> [] -> length s < n -> length s < m ->
  replace_go n old new s = replace_go m old new s.
Proof.
  intros Hold. revert m s.
  induction n as [|n IH]; intros m s Hn Hm; [lia|].
  destruct m as [|m]; [lia|]. simpl.
  destruct (startswith s old) eqn:E.
  - f_equal. destruct old as [|c old]; [contradiction|].
    destruct (startswith_head _ _ _ E) as [s' ->].
    apply IH; rewrite ?length_skipn; simpl in *; lia.
  - destruct s as [|c s]; [reflexivity|].
    f_equal. apply IH; simpl in *; lia.
Qed.

Lemma replace_go_S (n : nat) (old new s : str) :
  replace_go (S n) old new s =
  if startswith s old
  then new ++ replace_go n old new (skipn (length old) s)
  else match s with
       | [] => []
       | c :: s' => c :: replace_go n old new s'
       end.
Proof. reflexivity. Qed.

Lemma py_replace_nil (old new : str) : old <> [] -> py_replace [] old new = [].
Proof.
  destruct old as [|c old]; [contradiction|]. reflexivity.
Qed.

Lemma py_replace_hit (s old new : str) :
  old <> [] -> startswith s old = true ->
  py_replace s old new = new ++ py_replace (skipn (length old) s) old new.
Proof.
  intros Hold H. destruct old as [|c old]; [contradiction|].
  unfold py_replace. rewrite replace_go_S, H. f_equal.
  destruct (startswith_head _ _ _ H) as [s' ->].
  apply replace_go_fuel; [discriminate| |]; rewrite ?length_skipn; simpl; lia.
Qed.

Lemma py_replace_miss (c : char) (s old new : str) :
  old <> [] -> startswith (c :: s) old = false ->
  py_replace (c :: s) old new = c :: py_replace s old new.
Proof.
  intros Hold H. destruct old as [|d old]; [contradiction|].
  unfold py_replace. rewrite replace_go_S, H. reflexivity.
Qed.

(** Replacing a string by itself changes nothing. *)
Lemma py_replace_same (s old : str) : py_replace s old old = s.
Proof.
  destruct old as [|c old].
  - unfold py_replace. rewrite app_nil_r.
    induction s as [|d s IH]; simpl in *; congruence.
  - remember (length s) as n eqn:Hn. revert s Hn.
    induction n as [n IH] using lt_wf_ind. intros s Hn.
    destruct (startswith s (c :: old)) eqn:E.
    + rewrite py_replace_hit by (discriminate || assumption).
      rewrite (startswith_split _ _ E) at 2. f_equal.
      destruct (startswith_head _ _ _ E) as [s' ->].
      eapply IH; [|reflexivity]. rewrite length_skipn. simpl in *. lia.
    + destruct s as [|d s]; [reflexivity|].
      rewrite py_replace_miss by (discriminate || assumption).
      f_equal. eapply IH; [|reflexivity]. simpl in *. lia.
Qed.

(** A string that does not occur is not replaced. *)
Lemma py_replace_absent (s old new : str) :
  contains s old = false -> py_replace s old new = s.
Proof.
  destruct old as [|c old].
  - destruct s; discriminate.
  - induction s as [|d s IH]; intros H; [reflexivity|].
    rewrite py_replace_miss; [|discriminate|now apply contains_false_head].
    f_equal. apply IH. eapply contains_false_tail; eauto.
Qed.

(** A string replaced as a whole. *)
Lemma py_replace_whole (old new : str) :
  old <> [] -> py_replace old old new = new.
Proof.
  intros H. rewrite py_replace_hit; auto.
  - rewrite skipn_all. rewrite py_replace_nil by assumption. apply app_nil_r.
  - rewrite <- (app_nil_r old) at 1. apply startswith_app.
Qed.

(* ================================================================== *)
(** * Facts about the matcher *)
(* ================================================================== *)

Lemma is_suffix_refl (a : str) : is_suffix a a.
Proof. now exists []. Qed.

Lemma is_suffix_cons (c : char) (a b : str) :
  is_suffix a b -> is_suffix a (c :: b).
Proof. intros [p ->]. now exists (c :: p). Qed.

Lemma is_suffix_trans (a b c : str) :
  is_suffix a b -> is_suffix b c -> is_suffix a c.
Proof. intros [p ->] [q ->]. exists (q ++ p). now rewrite app_assoc. Qed.

Lemma is_suffix_length (a b : str) : is_suffix a b -> length a <= length b.
Proof. intros [p ->]. rewrite length_app. lia. Qed.

(** A successful match ends in a call of the continuation, on a state whose
    remaining text is a suffix of the text the match started on. *)
Lemma star_loop_inv (m : matcher) (g : bool) :
  (forall st k x, m st k = Some x ->
     exists st', is_suffix (st_rest st') (st_rest st) /\ k st' = Some x) ->
  forall fuel st k x, star_loop m g fuel st k = Some x ->
    exists st', is_suffix (st_rest st') (st_rest st) /\ k st' = Some x.
Proof.
  intros Hm. induction fuel as [|n IH]; intros st k x H; simpl in H.
  - exists st. split; [apply is_suffix_refl | assumption].
  - assert (Hagain : forall y,
      m st (fun st1 => if length (st_rest st1) <? length (st_rest st)
                       then star_loop m g n st1 k else None) = Some y ->
      exists st', is_suffix (st_rest st') (st_rest st) /\ k st' = Some y).
    { intros y Hy. apply Hm in Hy as (st1 & S1 & Hy).
      destruct (length (st_rest st1) <? length (st_rest st)); [|discriminate].
      apply IH in Hy as (st2 & S2 & Hy).
      exists st2. split; [eapply is_suffix_trans; eauto | assumption]. }
    assert (Hstop : forall y, k st = Some y ->
      exists st', is_suffix (st_rest st') (st_rest st) /\ k st' = Some y).
    { intros y Hy. exists st. split; [apply is_suffix_refl | assumption]. }
    destruct g; unfold orelse in H.
    + destruct (m st _) eqn:E; [inversion H; subst; auto | auto].
    + destruct (k st) eqn:E; [inversion H; subst; auto | auto].
Qed.

Lemma rmatch_inv (r : regex) :
  forall st k x, rmatch r st k = Some x ->
    exists st', is_suffix (st_rest st') (st_rest st) /\ k st' = Some x.
Proof.
  induction r as [|p|r1 IH1 r2 IH2|r1 IH1 r2 IH2|g r1 IH1|i r1 IH1|];
    intros st k x H; cbn [rmatch] in H.
  - exists st. split; [apply is_suffix_refl | assumption].
  - destruct (st_rest st) as [|c s'] eqn:E; [discriminate|].
    destruct (p c); [|discriminate].
    eexists. split; [|exact H]. simpl. apply is_suffix_cons, is_suffix_refl.
  - apply IH1 in H as (st1 & S1 & H). apply IH2 in H as (st2 & S2 & H).
    exists st2. split; [eapply is_suffix_trans; eauto | assumption].
  - unfold orelse in H. destruct (rmatch r1 st k) eqn:E.
    + inversion H; subst. eauto.
    + eauto.
  - eapply star_loop_inv; [exact IH1 | exact H].
  - apply IH1 in H as (st1 & S1 & H). eexists. split; [|exact H]. exact S1.
  - destruct (st_prev st) as [c|].
    + destruct (N.eqb c 10); [|discriminate].
      exists st. split; [apply is_suffix_refl | assumption].
    + exists st. split; [apply is_suffix_refl | assumption].
Qed.

(** A pattern cannot match when what follows it cannot. *)
Lemma rmatch_fail (r : regex) (st : mstate) (k : cont) :
  (forall st', is_suffix (st_rest st') (st_rest st) -> k st' = None) ->
  rmatch r st k = None.
Proof.
  intros Hk. destruct (rmatch r st k) as [x|] eqn:E; [|reflexivity].
  apply rmatch_inv in E as (st' & S' & E). rewrite Hk in E by assumption.
  discriminate.
Qed.

(** ** Literals and classes *)

Lemma rmatch_Lit (l : str) (st : mstate) (k : cont) :
  rmatch (Lit l) st k =
  if startswith (st_rest st) l
  then k (MState (prev_after (st_prev st) l) (skipn (length l) (st_rest st))
            (st_caps st))
  else None.
Proof.
  revert st. induction l as [|c l IH]; intros [prev rest caps]; simpl.
  - reflexivity.
  - destruct rest as [|d rest]; [reflexivity|].
    destruct (N.eqb c d) eqn:E; [|reflexivity].
    apply N.eqb_eq in E. subst d. simpl. now rewrite IH.
Qed.

Lemma rmatch_Lit_app (l s : str) (prev : option char) (caps : list (nat * str))
    (k : cont) :
  rmatch (Lit l) (MState prev (l ++ s) caps) k =
  k (MState (prev_after prev l) s caps).
Proof.
  rewrite rmatch_Lit. simpl. rewrite startswith_app.
  now rewrite skipn_app, skipn_all, Nat.sub_diag.
Qed.

Lemma rmatch_Lit_miss (l : str) (st : mstate) (k : cont) :
  startswith (st_rest st) l = false -> rmatch (Lit l) st k = None.
Proof. intros H. now rewrite rmatch_Lit, H. Qed.

Lemma rmatch_Times_Chr (p : char -> bool) (n : nat) (st : mstate) (k : cont) :
  rmatch (Times n (Chr p)) st k =
  let w := firstn n (st_rest st) in
  if Nat.eqb (length w) n && forallb p w
  then k (MState (prev_after (st_prev st) w) (skipn n (st_rest st)) (st_caps st))
  else None.
Proof.
  revert st. induction n as [|n IH]; intros [prev rest caps]; simpl.
  - reflexivity.
  - destruct rest as [|c rest]; [reflexivity|]. simpl.
    destruct (p c); [|now rewrite andb_false_r].
    rewrite IH. simpl. reflexivity.
Qed.

(* ================================================================== *)
(** * YouTube identifiers: the pattern against a direct scan *)
(* ================================================================== *)

Lemma first_video_id_eq (s : str) :
  first_video_id s =
  match shape_at s with
  | Some t => t
  | None =>
      match s with
      | [] => []
      | _ :: s' => first_video_id s'
      end
  end.
Proof. destruct s; reflexivity. Qed.

Lemma consumed_firstn (n : nat) (prev prev' : option char) (s : str)
    (caps caps' : list (nat * str)) :
  length (firstn n s) = n ->
  consumed (MState prev s caps) (MState prev' (skipn n s) caps') = firstn n s.
Proof.
  intros H. unfold consumed. simpl. rewrite length_skipn.
  rewrite length_firstn in H. f_equal. lia.
Qed.

Lemma shape_then_token (shape : str) (prev : option char) (s : str) :
  rmatch (Lit shape) (MState prev s [])
    (fun st1 => rmatch (Group 1 (Times 11 (Chr id_char))) st1
                  (fun st => Some st))
  = match token_after shape s with
    | Some t =>
        Some (MState (prev_after (prev_after prev shape) t)
                (skipn 11 (skipn (length shape) s)) [(1, t)])
    | None => None
    end.
Proof.
  rewrite rmatch_Lit. unfold token_after. simpl st_rest.
  destruct (startswith s shape); [|reflexivity].
  cbn [rmatch]. rewrite rmatch_Times_Chr. cbv zeta. simpl st_rest.
  destruct (Nat.eqb (length (firstn 11 (skipn (length shape) s))) 11) eqn:E;
    [|reflexivity].
  destruct (forallb id_char (firstn 11 (skipn (length shape) s))); [|reflexivity].
  cbn [andb st_prev st_rest st_caps]. apply Nat.eqb_eq in E.
  now rewrite consumed_firstn.
Qed.

Lemma youtube_match_at (prev : option char) (s : str) :
  match match_at YOUTUBE_PATTERN prev s with
  | Some st => Some (lookup_cap 1 (st_caps st))
  | None => None
  end = shape_at s.
Proof.
  unfold match_at, YOUTUBE_PATTERN, shape_at. cbn [rmatch].
  rewrite !shape_then_token. unfold orelse.
  destruct (token_after (py "youtube.com/watch?v=") s); [now simpl|].
  destruct (token_after (py "youtu.be/") s); [now simpl|].
  destruct (token_after (py "youtube.com/embed/") s); now simpl.
Qed.

Lemma youtube_search (prev : option char) (s : str) :
  match search_from YOUTUBE_PATTERN prev s with
  | Some m => group m 1
  | None => []
  end = first_video_id s.
Proof.
  revert prev. induction s as [|c s IH]; intros prev.
  - rewrite first_video_id_eq. cbn [search_from].
    generalize (youtube_match_at prev []).
    destruct (match_at YOUTUBE_PATTERN prev []); intros <-; reflexivity.
  - rewrite first_video_id_eq. cbn [search_from].
    generalize (youtube_match_at prev (c :: s)).
    destruct (match_at YOUTUBE_PATTERN prev (c :: s)); intros <-.
    + reflexivity.
    + rewrite <- (IH (Some c)).
      destruct (search_from YOUTUBE_PATTERN (Some c) s); reflexivity.
Qed.

Lemma token_after_shape (shape s t : str) :
  token_after shape s = Some t -> length t = 11 /\ forallb id_char t = true.
Proof.
  unfold token_after. destruct (startswith s shape); [|discriminate].
  destruct (Nat.eqb _ 11) eqn:E; [|discriminate].
  destruct (forallb id_char _) eqn:F; [|discriminate].
  intros H. inversion H; subst. apply Nat.eqb_eq in E. auto.
Qed.

Lemma shape_at_shape (s t : str) :
  shape_at s = Some t -> length t = 11 /\ forallb id_char t = true.
Proof.
  unfold shape_at, orelse. intros E.
  repeat match type of E with
  | match ?x with _ => _ end = _ => destruct x eqn:?
  end; inversion E; subst; eauto using token_after_shape.
Qed.

Lemma first_video_id_shape (s : str) :
  first_video_id s = [] \/
  (length (first_video_id s) = 11 /\ forallb id_char (first_video_id s) = true).
Proof.
  induction s as [|c s IH]; rewrite first_video_id_eq;
    (destruct (shape_at _) eqn:E; [right; eapply shape_at_shape; eauto|]);
    auto.
Qed.

(** C2: [extract_youtube_id] returns the 11-character token of the first
    position in the URL where one of the three shapes ([watch?v=], the
    short domain, the embed path) is followed by 11 characters that are
    letters, digits, [_] or [-]; it returns the empty string when no
    position has one.  A result is empty or such a token. *)
Theorem extract_youtube_id_first_match (url : str) :
  extract_youtube_id url = first_video_id url /\
  (extract_youtube_id url = [] \/
   (length (extract_youtube_id url) = 11 /\
    forallb id_char (extract_youtube_id url) = true)).
Proof.
  assert (H : extract_youtube_id url = first_video_id url)
    by apply youtube_search.
  split; [exact H|]. rewrite H. apply first_video_id_shape.
Qed.

(** The token is the first 11 characters also when more follow. *)
Example extract_long_token :
  extract_youtube_id (py "https://www.youtube.com/watch?v=dQw4w9WgXcQextra&t=1")
  = py "dQw4w9WgXcQ".
Proof. reflexivity. Qed.

Example extract_embed_after_short_token :
  extract_youtube_id (py "youtu.be/short youtube.com/embed/abcdefghij_") = py "abcdefghij_".
Proof. reflexivity. Qed.

(* ================================================================== *)
(** * Markdown: mixed blocks *)
(* ================================================================== *)

Lemma mixed_block_finish (lines : list str) :
  mixed_block lines = concat (finish (fold_left scan_line lines (Scan [] false []))).
Proof. reflexivity. Qed.

(** The flag [in_list] says that the pending list is not empty. *)
Lemma scan_line_in_list (st : scan) (line : str) :
  in_list st = nonempty (list_items st) ->
  in_list (scan_line st line) = nonempty (list_items (scan_line st line)).
Proof.
  intros Inv. unfold scan_line.
  destruct (is_bullet (strip line)).
  - simpl. now destruct (list_items st).
  - destruct (in_list st) eqn:E; destruct (nonempty (strip line)); simpl;
      rewrite ?E; auto.
Qed.

Lemma scan_fragments (lines : list str) :
  forall st, in_list st = nonempty (list_items st) ->
    finish (fold_left scan_line lines st)
    = result st ++ mixed_fragments (list_items st) lines.
Proof.
  induction lines as [|line lines IH]; intros st Inv.
  - simpl. unfold finish, flush.
    destruct (list_items st); simpl; [now rewrite app_nil_r | reflexivity].
  - cbn [fold_left mixed_fragments].
    rewrite IH by now apply scan_line_in_list.
    unfold scan_line.
    destruct (is_bullet (strip line)); [reflexivity|].
    destruct (in_list st) eqn:E.
    + destruct (list_items st) as [|i items] eqn:L; [discriminate|].
      destruct (nonempty (strip line)); simpl; now rewrite <- ?app_assoc.
    + destruct (list_items st) as [|i items] eqn:L; [|discriminate].
      destruct (nonempty (strip line)); simpl; rewrite ?L;
        now rewrite <- ?app_assoc.
Qed.

Lemma mixed_block_fragments (lines : list str) :
  mixed_block lines = concat (mixed_fragments [] lines).
Proof.
  rewrite mixed_block_finish, scan_fragments by reflexivity. reflexivity.
Qed.

(** A run of bullet lines only extends the pending list. *)
Lemma mixed_fragments_bullets (bs rest : list str) :
  forallb (fun l => is_bullet (strip l)) bs = true ->
  forall pending,
    mixed_fragments pending (bs ++ rest)
    = mixed_fragments (pending ++ map (fun l => strip_bullet (strip l)) bs) rest.
Proof.
  induction bs as [|b bs IH]; intros H pending; simpl.
  - now rewrite app_nil_r.
  - simpl in H. apply andb_true_iff in H as [H1 H2].
    rewrite H1, IH by assumption. now rewrite <- app_assoc.
Qed.

(** ** [split] on lines *)

Lemma split_go_fuel (sep : str) (n m : nat) (cur s : str) :
  sep <> [] -> length s < n -> length s < m ->
  split_go n sep cur s = split_go m sep cur s.
Proof.
  intros Hsep. revert m cur s.
  induction n as [|n IH]; intros m cur s Hn Hm; [lia|].
  destruct m as [|m]; [lia|]. simpl.
  destruct s as [|c s]; [reflexivity|].
  destruct (startswith (c :: s) sep) eqn:E.
  - f_equal. destruct sep as [|d sep]; [contradiction|].
    apply IH; rewrite ?length_skipn; simpl in *; lia.
  - apply IH; simpl in *; lia.
Qed.

Lemma split_go_cons (n : nat) (sep cur : str) (c : char) (s : str) :
  split_go (S n) sep cur (c :: s) =
  if startswith (c :: s) sep
  then rev cur :: split_go n sep [] (skipn (length sep) (c :: s))
  else split_go n sep (c :: cur) s.
Proof. reflexivity. Qed.

Lemma startswith_nl (c : char) (s : str) :
  startswith (c :: s) nl = N.eqb 10 c.
Proof. simpl. apply andb_true_r. Qed.

Lemma split_go_line (a b : str) :
  ~ In 10%N a ->
  forall n cur, length a + length b < n ->
    split_go (S n) nl cur (a ++ nl ++ b)
    = (rev cur ++ a) :: split_go (S (length b)) nl [] b.
Proof.
  intros Ha. induction a as [|c a IH]; intros n cur Hn.
  - change ([] ++ nl ++ b) with (10%N :: b).
    rewrite split_go_cons, startswith_nl. change (N.eqb 10 10) with true.
    cbv iota. rewrite app_nil_r. f_equal.
    change (skipn (length nl) (10%N :: b)) with b.
    apply split_go_fuel; [discriminate| |]; simpl in *; lia.
  - assert (Hc : N.eqb 10 c = false).
    { apply N.eqb_neq. intros <-. apply Ha. now left. }
    change ((c :: a) ++ nl ++ b) with (c :: (a ++ nl ++ b)).
    rewrite split_go_cons, startswith_nl, Hc.
    destruct n as [|n]; [simpl in Hn; lia|].
    rewrite IH; [|intros F; apply Ha; now right|simpl in Hn; lia].
    simpl. now rewrite <- app_assoc.
Qed.

Lemma py_split_line (a b : str) :
  ~ In 10%N a -> py_split (a ++ nl ++ b) nl = a :: py_split b nl.
Proof.
  intros Ha. unfold py_split.
  rewrite split_go_line; auto.
  rewrite !length_app. simpl. lia.
Qed.

Lemma py_split_last (a : str) : ~ In 10%N a -> py_split a nl = [a].
Proof.
  intros Ha. unfold py_split.
  assert (H : forall n cur, length a < n -> split_go n nl cur a = [rev cur ++ a]).
  { induction a as [|c a IH]; intros n cur Hn.
    - destruct n; [lia|]. simpl. now rewrite app_nil_r.
    - destruct n; [lia|].
      assert (Hc : N.eqb 10 c = false).
      { apply N.eqb_neq. intros <-. apply Ha. now left. }
      rewrite split_go_cons, startswith_nl, Hc.
      rewrite IH; [|intros F; apply Ha; now right|simpl in Hn; lia].
      simpl. now rewrite <- app_assoc. }
  rewrite H by lia. reflexivity.
Qed.

Lemma paragraph_html_mixed (para : str) :
  let lines := py_split para nl in
  let bullet_lines := filter (fun l => is_bullet (strip l)) lines in
  nonempty bullet_lines = true ->
  Nat.eqb (length bullet_lines) (length lines) = false ->
  paragraph_html para = concat (mixed_fragments [] lines).
Proof.
  intros lines bullet_lines H1 H2. unfold paragraph_html.
  fold lines. fold bullet_lines. rewrite H1, H2. cbn [andb].
  apply mixed_block_fragments.
Qed.

Lemma split_three (x y z : str) :
  ~ In 10%N x -> ~ In 10%N y -> ~ In 10%N z ->
  py_split (x ++ nl ++ y ++ nl ++ z) nl = [x; y; z].
Proof.
  intros Hx Hy Hz.
  now rewrite py_split_line, py_split_line, py_split_last.
Qed.

(** C6: in a mixed block (some but not all lines are bullet lines) the
    lines are scanned in order; consecutive bullet lines are accumulated in
    a pending list, a non-bullet non-empty line closes the pending list and
    is emitted as a paragraph, and the list still pending at the end of the
    block is closed.  So a block made of a line of text followed by two
    bullet lines is a paragraph followed by one list of two items, as
    [convert("intro line\n- item1\n- item2")] shows. *)
Theorem mixed_block_interleaves :
  (forall para : str,
     let lines := py_split para nl in
     let bullet_lines := filter (fun l => is_bullet (strip l)) lines in
     nonempty bullet_lines = true ->
     Nat.eqb (length bullet_lines) (length lines) = false ->
     paragraph_html para = concat (mixed_fragments [] lines)) /\
  (forall p b1 b2 : str,
     ~ In 10%N p -> ~ In 10%N b1 -> ~ In 10%N b2 ->
     is_bullet (strip p) = false -> strip p <> [] ->
     is_bullet (strip b1) = true -> is_bullet (strip b2) = true ->
     paragraph_html (p ++ nl ++ b1 ++ nl ++ b2)
     = paragraph (strip p)
         ++ ul [strip_bullet (strip b1); strip_bullet (strip b2)]) /\
  markdown_to_html_str (py "intro line" ++ nl ++ py "- item1" ++ nl ++ py "- item2")
  = py "<p>intro line</p><ul><li>item1</li><li>item2</li></ul>".
Proof.
  split; [exact paragraph_html_mixed|]. split; [|reflexivity].
  intros p b1 b2 Hp Hb1 Hb2 Np Ep B1 B2.
  rewrite paragraph_html_mixed; rewrite split_three by assumption.
  - cbn [mixed_fragments]. rewrite Np, B1, B2.
    destruct (strip p); [contradiction|].
    cbn [nonempty flush app concat]. now rewrite app_nil_r.
  - cbn [filter]. now rewrite Np, B1, B2.
  - cbn [filter]. now rewrite Np, B1, B2.
Qed.

Lemma mixed_block_interleaves_witness :
  paragraph_html (py "intro" ++ nl ++ py "- a" ++ nl ++ py "- b" ++ nl ++ py "end")
  = concat (mixed_fragments []
      (py_split (py "intro" ++ nl ++ py "- a" ++ nl ++ py "- b" ++ nl ++ py "end") nl)) /\
  paragraph_html (py "intro" ++ nl ++ py "- a" ++ nl ++ py "- b")
  = paragraph (strip (py "intro"))
      ++ ul [strip_bullet (strip (py "- a")); strip_bullet (strip (py "- b"))].
Proof.
  split.
  - apply (proj1 mixed_block_interleaves); reflexivity.
  - apply (proj1 (proj2 mixed_block_interleaves));
      solve [vm_compute; intuition (discriminate || lia)
            | reflexivity | discriminate ].
Defined.

(** C9: in a mixed block a whitespace-only line ends a pending run of
    bullet lines: the accumulated list is closed and the blank line emits
    no paragraph.  Two bullet lines separated by a whitespace-only line in
    one block therefore give two lists of one item, not one list of two
    items. *)
Theorem blank_line_ends_bullet_run :
  (forall (st : scan) (w : str),
     strip w = [] -> in_list st = true ->
     scan_line st w = Scan (result st ++ [ul (list_items st)]) false []) /\
  (forall x w y : str,
     ~ In 10%N x -> ~ In 10%N w -> ~ In 10%N y ->
     is_bullet (strip x) = true -> strip w = [] -> is_bullet (strip y) = true ->
     paragraph_html (x ++ nl ++ w ++ nl ++ y)
     = ul [strip_bullet (strip x)] ++ ul [strip_bullet (strip y)] /\
     paragraph_html (x ++ nl ++ w ++ nl ++ y)
     <> ul [strip_bullet (strip x); strip_bullet (strip y)]) /\
  markdown_to_html_str (py "- a" ++ nl ++ py "  " ++ nl ++ py "- b")
  = py "<ul><li>a</li></ul><ul><li>b</li></ul>".
Proof.
  split; [|split; [|reflexivity]].
  - intros st w Hw Hin. unfold scan_line. rewrite Hw, Hin. reflexivity.
  - intros x w y Hx Hw Hy Bx Ew By.
    assert (E : paragraph_html (x ++ nl ++ w ++ nl ++ y)
                = ul [strip_bullet (strip x)] ++ ul [strip_bullet (strip y)]).
    { rewrite paragraph_html_mixed; rewrite split_three by assumption.
      - cbn [mixed_fragments]. rewrite Bx, By, Ew.
        change (is_bullet []) with false. cbn [nonempty flush app concat].
        now rewrite app_nil_r.
      - cbn [filter]. rewrite Bx, By, Ew. reflexivity.
      - cbn [filter]. rewrite Bx, By, Ew. reflexivity. }
    split; [exact E|]. rewrite E. unfold ul.
    remember (strip_bullet (strip x)) as a.
    remember (strip_bullet (strip y)) as b.
    intros F. apply (f_equal (@length char)) in F.
    cbn [map concat] in F. rewrite !length_app in F. simpl in F. lia.
Qed.

Lemma blank_line_ends_bullet_run_witness :
  scan_line (Scan [] true [py "a"]) (py "   ")
  = Scan [ul [py "a"]] false [] /\
  paragraph_html (py "- a" ++ nl ++ py " " ++ nl ++ py "- b")
  = ul [strip_bullet (strip (py "- a"))] ++ ul [strip_bullet (strip (py "- b"))].
Proof.
  split.
  - apply (proj1 blank_line_ends_bullet_run (Scan [] true [py "a"]) (py "   "));
      reflexivity.
  - apply (proj1 (proj2 blank_line_ends_bullet_run));
      solve [vm_compute; intuition (discriminate || lia)
            | reflexivity ].
Defined.

(* ================================================================== *)
(** * Facts about repetitions *)
(* ================================================================== *)

Lemma prev_after_app (prev : option char) (a b : str) :
  prev_after prev (a ++ b) = prev_after (prev_after prev a) b.
Proof. apply fold_left_app. Qed.

Lemma consumed_app (w s : str) (p p' : option char) (c c' : list (nat * str)) :
  consumed (MState p (w ++ s) c) (MState p' s c') = w.
Proof.
  unfold consumed. simpl. rewrite length_app.
  replace (length w + length s - length s) with (length w) by lia.
  now rewrite firstn_app, Nat.sub_diag, firstn_all, app_nil_r.
Qed.

Lemma star_loop_S (m : matcher) (g : bool) (n : nat) (st : mstate) (k : cont) :
  star_loop m g (S n) st k =
  let again :=
    m st (fun st1 =>
            if length (st_rest st1) <? length (st_rest st)
            then star_loop m g n st1 k
            else None) in
  if g then orelse again (k st) else orelse (k st) again.
Proof. reflexivity. Qed.

Lemma rmatch_Chr_cons (p : char -> bool) (prev : option char) (c : char)
    (s : str) (caps : list (nat * str)) (k : cont) :
  rmatch (Chr p) (MState prev (c :: s) caps) k =
  if p c then k (MState (Some c) s caps) else None.
Proof. reflexivity. Qed.

Lemma rmatch_Chr_stop (p : char -> bool) (prev : option char) (s : str)
    (caps : list (nat * str)) (k : cont) :
  run_stops p s -> rmatch (Chr p) (MState prev s caps) k = None.
Proof.
  destruct s as [|c s]; simpl; [reflexivity|]. now intros ->.
Qed.

Lemma shorter_tail (c : char) (s : str) :
  (length s <? length (c :: s)) = true.
Proof. apply Nat.ltb_lt. simpl. lia. Qed.

Lemma star_greedy_run (p : char -> bool) (w s : str) (caps : list (nat * str))
    (k : cont) (x : mstate) :
  forallb p w = true -> run_stops p s ->
  forall n prev, length w < n ->
    k (MState (prev_after prev w) s caps) = Some x ->
    star_loop (rmatch (Chr p)) true n (MState prev (w ++ s) caps) k = Some x.
Proof.
  intros Hw Hs. induction w as [|c w IH]; intros n prev Hn Hk.
  - destruct n as [|n]; [simpl in Hn; lia|].
    rewrite star_loop_S. cbv zeta. cbn [app].
    rewrite rmatch_Chr_stop by assumption. exact Hk.
  - destruct n as [|n]; [simpl in Hn; lia|].
    simpl in Hw. apply andb_true_iff in Hw as [Hc Hw].
    rewrite star_loop_S. cbv zeta. cbn [app].
    rewrite rmatch_Chr_cons, Hc. cbn [st_rest]. rewrite shorter_tail.
    rewrite (IH Hw n (Some c)); [reflexivity | simpl in Hn; lia | exact Hk].
Qed.

Lemma rmatch_Star_run (p : char -> bool) (w s : str) (prev : option char)
    (caps : list (nat * str)) (k : cont) (x : mstate) :
  forallb p w = true -> run_stops p s ->
  k (MState (prev_after prev w) s caps) = Some x ->
  rmatch (Star true (Chr p)) (MState prev (w ++ s) caps) k = Some x.
Proof.
  intros Hw Hs Hk. cbn [rmatch].
  apply star_greedy_run; auto. simpl. rewrite length_app. lia.
Qed.

Lemma rmatch_Plus_run (p : char -> bool) (w s : str) (prev : option char)
    (caps : list (nat * str)) (k : cont) (x : mstate) :
  w <> [] -> forallb p w = true -> run_stops p s ->
  k (MState (prev_after prev w) s caps) = Some x ->
  rmatch (Plus true (Chr p)) (MState prev (w ++ s) caps) k = Some x.
Proof.
  intros Hne Hw Hs Hk. destruct w as [|c w]; [contradiction|].
  simpl in Hw. apply andb_true_iff in Hw as [Hc Hw].
  unfold Plus. change (rmatch (Seq (Chr p) (Star true (Chr p)))
                         (MState prev ((c :: w) ++ s) caps) k)
    with (rmatch (Chr p) (MState prev (c :: w ++ s) caps)
            (fun st1 => rmatch (Star true (Chr p)) st1 k)).
  rewrite rmatch_Chr_cons, Hc. now apply rmatch_Star_run.
Qed.

(** A lazy repetition of the any-character class stops at the first
    position where what follows matches. *)
Lemma star_lazy_first (body s : str) (caps : list (nat * str)) (k : cont)
    (x : mstate) :
  (forall b2 st', b2 <> [] -> is_suffix b2 body ->
     st_rest st' = b2 ++ s -> k st' = None) ->
  forall n prev, length body < n ->
    k (MState (prev_after prev body) s caps) = Some x ->
    star_loop (rmatch (Chr (fun _ => true))) false n
      (MState prev (body ++ s) caps) k = Some x.
Proof.
  induction body as [|c body IH]; intros Hfail n prev Hn Hk.
  - destruct n as [|n]; [simpl in Hn; lia|].
    rewrite star_loop_S. cbv zeta. cbn [app]. simpl in Hk. now rewrite Hk.
  - destruct n as [|n]; [simpl in Hn; lia|].
    rewrite star_loop_S. cbv zeta. cbn [app].
    rewrite (Hfail (c :: body) (MState prev (c :: body ++ s) caps));
      [|discriminate|apply is_suffix_refl|reflexivity].
    cbn [orelse]. rewrite rmatch_Chr_cons. cbn [st_rest].
    rewrite shorter_tail.
    apply IH; [|simpl in Hn; lia|exact Hk].
    intros b2 st' Hne Hsuf Hrest. apply (Hfail b2 st'); auto.
    now apply is_suffix_cons.
Qed.

Lemma rmatch_Star_lazy (body s : str) (prev : option char)
    (caps : list (nat * str)) (k : cont) (x : mstate) :
  (forall b2 st', b2 <> [] -> is_suffix b2 body ->
     st_rest st' = b2 ++ s -> k st' = None) ->
  k (MState (prev_after prev body) s caps) = Some x ->
  rmatch (Star false (Chr (fun _ => true))) (MState prev (body ++ s) caps) k
  = Some x.
Proof.
  intros Hfail Hk. cbn [rmatch].
  apply star_lazy_first; auto. simpl. rewrite length_app. lia.
Qed.

(* ================================================================== *)
(** * Facts about [search] and [finditer] *)
(* ================================================================== *)

Lemma orelse_same (a a' b b' : option mstate) :
  res_same a a' -> res_same b b' -> res_same (orelse a b) (orelse a' b').
Proof. destruct a, a'; simpl; tauto. Qed.

Lemma star_loop_same (m : matcher) (g : bool) :
  (forall st st' k k', st_same st st' -> cont_same k k' ->
     res_same (m st k) (m st' k')) ->
  forall n st st' k k', st_same st st' -> cont_same k k' ->
    res_same (star_loop m g n st k) (star_loop m g n st' k').
Proof.
  intros Hm. induction n as [|n IH]; intros st st' k k' Hst Hk.
  - simpl. now apply Hk.
  - rewrite !star_loop_S. cbv zeta.
    assert (A : res_same
      (m st (fun st1 => if length (st_rest st1) <? length (st_rest st)
                        then star_loop m g n st1 k else None))
      (m st' (fun st1 => if length (st_rest st1) <? length (st_rest st')
                         then star_loop m g n st1 k' else None))).
    { apply Hm; [assumption|]. intros a b Hab.
      destruct Hst as [R _]. destruct Hab as [Ra Ca]. rewrite R, Ra.
      destruct (length (st_rest b) <? length (st_rest st')); simpl; [|trivial].
      apply IH; [split; assumption | assumption]. }
    destruct g; apply orelse_same; auto.
Qed.

Lemma rmatch_same (r : regex) :
  bol_free r = true ->
  forall st st' k k', st_same st st' -> cont_same k k' ->
    res_same (rmatch r st k) (rmatch r st' k').
Proof.
  induction r as [|p|r1 IH1 r2 IH2|r1 IH1 r2 IH2|g r1 IH1|i r1 IH1|];
    intros Hb st st' k k' Hst Hk; cbn [rmatch]; simpl in Hb.
  - now apply Hk.
  - destruct Hst as [R C]. rewrite R, C.
    destruct (st_rest st') as [|c s']; simpl; [trivial|].
    destruct (p c); simpl; [|trivial]. apply Hk. now split.
  - apply andb_true_iff in Hb as [B1 B2].
    apply IH1; auto. intros a b Hab. now apply IH2.
  - apply andb_true_iff in Hb as [B1 B2].
    apply orelse_same; [apply IH1 | apply IH2]; auto.
  - destruct Hst as [R C]. rewrite R.
    apply star_loop_same; [now apply IH1 | now split | assumption].
  - apply IH1; auto. intros a b [Ra Ca]. apply Hk.
    destruct Hst as [R C]. split; simpl; [assumption|].
    unfold consumed. now rewrite R, Ra, Ca.
  - discriminate.
Qed.

Lemma match_at_prev (r : regex) (p p' : option char) (s : str) :
  bol_free r = true ->
  res_same (match_at r p s) (match_at r p' s).
Proof.
  intros Hb. apply rmatch_same; [assumption|now split|].
  intros a b Hab. exact Hab.
Qed.

Lemma search_from_prev (r : regex) (p p' : option char) (s : str) :
  bol_free r = true -> search_from r p s = search_from r p' s.
Proof.
  intros Hb. pose proof (match_at_prev r p p' s Hb) as H.
  destruct s as [|c s]; cbn [search_from];
    destruct (match_at r p _), (match_at r p' _); simpl in H;
    try contradiction; try reflexivity;
    destruct H as [R C]; now rewrite R, C.
Qed.

Lemma finditer_go_prev (r : regex) (n : nat) (p p' : option char) (s : str) :
  bol_free r = true -> finditer_go n r p s = finditer_go n r p' s.
Proof.
  intros Hb. destruct n; [reflexivity|]. cbn [finditer_go].
  now rewrite (search_from_prev r p p' s Hb).
Qed.

(** A match splits the text. *)
Lemma match_at_suffix (r : regex) (p : option char) (s : str) (st : mstate) :
  match_at r p s = Some st -> is_suffix (st_rest st) s.
Proof.
  intros H. apply rmatch_inv in H as (st' & S' & E).
  inversion E; subst. exact S'.
Qed.

Lemma search_from_eq (r : regex) (prev : option char) (s : str) :
  search_from r prev s =
  match match_at r prev s with
  | Some st =>
      Some (MatchResult [] (firstn (length s - length (st_rest st)) s)
              (st_caps st) (st_rest st))
  | None =>
      match s with
      | [] => None
      | c :: s' =>
          match search_from r (Some c) s' with
          | Some m => Some (MatchResult (c :: m_pre m) (m_text m) (m_caps m) (m_rest m))
          | None => None
          end
      end
  end.
Proof. destruct s; reflexivity. Qed.

Lemma search_from_length (r : regex) (s : str) :
  forall p m, search_from r p s = Some m ->
    length (m_pre m) + length (m_text m) + length (m_rest m) = length s.
Proof.
  induction s as [|c s IH]; intros p m H; rewrite search_from_eq in H.
  - destruct (match_at r p []) eqn:E; [|discriminate].
    apply match_at_suffix, is_suffix_length in E.
    inversion H; subst. cbn [m_pre m_text m_rest length] in *.
    rewrite ?length_firstn. simpl. lia.
  - destruct (match_at r p (c :: s)) eqn:E.
    + apply match_at_suffix, is_suffix_length in E.
      injection H as <-. cbn [m_pre m_text m_rest].
      rewrite length_firstn. cbn [length] in *.
      destruct (length (st_rest m0)); lia.
    + destruct (search_from r (Some c) s) eqn:F; [|discriminate].
      apply IH in F. inversion H; subst.
      cbn [m_pre m_text m_rest length] in *. lia.
Qed.

Lemma finditer_go_S (n : nat) (r : regex) (prev : option char) (s : str) :
  finditer_go (S n) r prev s =
  match search_from r prev s with
  | None => ([], s)
  | Some m =>
      match m_text m with
      | _ :: _ =>
          let (ms, tail) :=
            finditer_go n r (Some (last (m_text m) 0%N)) (m_rest m) in
          (m :: ms, tail)
      | [] =>
          match m_rest m with
          | [] => ([m], [])
          | c :: s' =>
              let (ms, tail) := finditer_go n r (Some c) s' in
              match ms with
              | [] => ([m], c :: tail)
              | m' :: ms' =>
                  (m :: MatchResult (c :: m_pre m') (m_text m') (m_caps m')
                          (m_rest m') :: ms', tail)
              end
          end
      end
  end.
Proof. reflexivity. Qed.

Lemma finditer_go_fuel (r : regex) (n : nat) :
  forall m p s, length s < n -> length s < m ->
    finditer_go n r p s = finditer_go m r p s.
Proof.
  induction n as [|n IH]; intros m p s Hn Hm; [lia|].
  destruct m as [|m]; [lia|]. rewrite !finditer_go_S.
  destruct (search_from r p s) as [x|] eqn:E; [|reflexivity].
  apply search_from_length in E.
  destruct (m_text x) as [|c t] eqn:T.
  - destruct (m_rest x) as [|c s'] eqn:R; [reflexivity|].
    rewrite (IH m (Some c) s'); [reflexivity| |]; simpl in E; lia.
  - rewrite (IH m _ (m_rest x)); [reflexivity| |]; simpl in E; lia.
Qed.

(** No match: the text is returned as it is. *)
Lemma re_sub_no_match (r : regex) (f : rmatch_result -> str) (s : str) :
  re_search r s = None -> re_sub r f s = s.
Proof.
  unfold re_search, re_sub, finditer. rewrite finditer_go_S.
  now intros ->.
Qed.

Lemma re_sub_m_no_match (r : regex) (f : rmatch_result -> res str) (s : str) :
  re_search r s = None -> re_sub_m r f s = Ok s.
Proof.
  unfold re_search, re_sub_m, finditer. rewrite finditer_go_S.
  now intros ->.
Qed.

(** One match with a non-empty text, then the rest of the text. *)
Lemma re_sub_m_first (r : regex) (f : rmatch_result -> res str) (s : str)
    (m : rmatch_result) :
  bol_free r = true -> re_search r s = Some m -> m_text m <> [] ->
  re_sub_m r f s =
  (t <- f m ;; rest <- re_sub_m r f (m_rest m) ;; Ok (m_pre m ++ t ++ rest)).
Proof.
  intros Hb Hs Ht. unfold re_search in Hs.
  pose proof (search_from_length _ _ _ _ Hs) as L.
  unfold re_sub_m at 1. unfold finditer. rewrite finditer_go_S, Hs.
  destruct (m_text m) as [|c t] eqn:T; [contradiction|].
  rewrite (finditer_go_prev r _ _ None _ Hb).
  rewrite (finditer_go_fuel r _ (S (length (m_rest m))))
    by (simpl in L; lia).
  unfold re_sub_m, finditer.
  destruct (finditer_go (S (length (m_rest m))) r None (m_rest m)) as [ms tail].
  cbn [mapM]. destruct (f m) as [x|e]; simpl; [|reflexivity].
  destruct (mapM _ ms) as [bs|e]; simpl; [|reflexivity].
  now rewrite <- !app_assoc.
Qed.

(* ================================================================== *)

(* ================================================================== *)
(** * Loop blocks *)
(* ================================================================== *)

Lemma ascii_word_cases (c : char) :
  ascii_word c = true ->
  (97 <= c <= 122 \/ 65 <= c <= 90 \/ 48 <= c <= 57 \/ c = 95)%N.
Proof.
  unfold ascii_word, is_lower, is_upper, is_digit.
  rewrite !orb_true_iff, !andb_true_iff, !N.leb_le, N.eqb_eq. tauto.
Qed.

Lemma ascii_word_not_space (c : char) :
  ascii_word c = true -> isspace c = false.
Proof.
  intros H. apply ascii_word_cases in H.
  destruct (isspace c) eqn:E; [exfalso|reflexivity].
  unfold isspace in E.
  rewrite !orb_true_iff, !andb_true_iff, !N.leb_le, !N.eqb_eq in E. lia.
Qed.

Lemma ascii_word_is_word (ua : char -> bool) (c : char) :
  ascii_word c = true -> is_word ua c = true.
Proof.
  intros H. unfold is_word. pose proof (ascii_word_cases c H) as C.
  replace (c <? 128)%N with true; [assumption|].
  symmetry. apply N.ltb_lt. lia.
Qed.

Lemma ascii_word_neq (c d : char) :
  ascii_word c = true -> ascii_word d = false -> c <> d.
Proof. intros H1 H2 ->. congruence. Qed.

Lemma is_name_inv (s : str) :
  is_name s = true -> s <> [] /\ forallb ascii_word s = true.
Proof.
  unfold is_name. intros H. apply andb_true_iff in H as [H1 H2].
  split; [|assumption]. now destruct s.
Qed.

Lemma forallb_is_word (ua : char -> bool) (s : str) :
  forallb ascii_word s = true -> forallb (is_word ua) s = true.
Proof.
  induction s as [|c s IH]; simpl; [reflexivity|].
  intros H. apply andb_true_iff in H as [H1 H2].
  now rewrite ascii_word_is_word, IH.
Qed.

Lemma name_stops_space (s t : str) :
  is_name s = true -> run_stops isspace (s ++ t).
Proof.
  intros H. apply is_name_inv in H as [Hne Hw].
  destruct s as [|c s]; [contradiction|]. simpl in *.
  apply andb_true_iff in Hw as [Hc _]. now apply ascii_word_not_space.
Qed.

Lemma contains_suffix (a b p : str) :
  is_suffix a b -> contains a p = true -> contains b p = true.
Proof.
  intros [q ->] H. induction q as [|c q IH]; [assumption|].
  change (startswith (c :: q ++ a) p || contains (q ++ a) p = true).
  rewrite IH. apply orb_true_r.
Qed.

(** A text without [{%], followed by [{%], has its first [{%] there. *)
Lemma no_opener_before (b t : str) :
  b <> [] -> contains b (py "{%") = false ->
  startswith (b ++ py "{%" ++ t) (py "{%") = false.
Proof.
  intros Hne H. destruct b as [|c b]; [contradiction|].
  destruct b as [|d b].
  - simpl. now rewrite andb_false_r.
  - apply contains_false_head in H. exact H.
Qed.

Lemma rmatch_Seq (r1 r2 : regex) (st : mstate) (k : cont) :
  rmatch (Seq r1 r2) st k = rmatch r1 st (fun st1 => rmatch r2 st1 k).
Proof. reflexivity. Qed.

Lemma rmatch_Group (i : nat) (r : regex) (st : mstate) (k : cont) :
  rmatch (Group i r) st k =
  rmatch r st (fun st1 => k (MState (st_prev st1) (st_rest st1)
                               ((i, consumed st st1) :: st_caps st1))).
Proof. reflexivity. Qed.

Lemma startswith_cons (c : char) (s p : str) :
  startswith (c :: s) (c :: p) = startswith s p.
Proof. simpl. now rewrite N.eqb_refl. Qed.

Lemma startswith_cons_inv (c d : char) (s p : str) :
  startswith (d :: s) (c :: p) = true -> d = c /\ startswith s p = true.
Proof.
  intros H. destruct (startswith_head _ _ _ H) as [s' E].
  injection E as -> ->. now rewrite startswith_cons in H.
Qed.

Lemma startswith_diff (c d : char) (s p : str) :
  c <> d -> startswith (d :: s) (c :: p) = false.
Proof.
  intros N. destruct (startswith (d :: s) (c :: p)) eqn:E; [|reflexivity].
  apply startswith_cons_inv in E as [-> _]. contradiction.
Qed.

Lemma startswith_length (s p : str) :
  startswith s p = true -> length p <= length s.
Proof.
  revert s; induction p as [|c p IH]; intros s H; simpl in *; [lia|].
  destruct s as [|d s]; [discriminate|].
  apply andb_true_iff in H as [_ H]. apply IH in H. simpl. lia.
Qed.

Lemma startswith_app_same (p a b : str) :
  startswith (p ++ a) (p ++ b) = startswith a b.
Proof.
  induction p as [|c p IH]; simpl; [reflexivity|].
  now rewrite N.eqb_refl.
Qed.

(** ** Names and whitespace *)

Lemma space_not_word (ua : char -> bool) (c : char) :
  (forall c, isspace c = true -> ua c = false) ->
  isspace c = true -> is_word ua c = false.
Proof.
  intros H S. unfold is_word. destruct (c <? 128)%N; [|now apply H].
  destruct (ascii_word c) eqn:E; [|reflexivity].
  apply ascii_word_not_space in E. congruence.
Qed.

Lemma word_not_space (ua : char -> bool) (c : char) :
  (forall c, isspace c = true -> ua c = false) ->
  is_word ua c = true -> isspace c = false.
Proof.
  intros H W. destruct (isspace c) eqn:E; [|reflexivity].
  rewrite (space_not_word ua c H E) in W. discriminate.
Qed.

Lemma is_ident_inv (ua : char -> bool) (s : str) :
  is_ident ua s = true -> s <> [] /\ forallb (is_word ua) s = true.
Proof.
  unfold is_ident. intros H. apply andb_true_iff in H as [H1 H2].
  split; [|assumption]. now destruct s.
Qed.

Lemma ident_stops_space (ua : char -> bool) (s t : str) :
  (forall c, isspace c = true -> ua c = false) ->
  is_ident ua s = true -> run_stops isspace (s ++ t).
Proof.
  intros H I. apply is_ident_inv in I as [Hne Hw].
  destruct s as [|c s]; [contradiction|]. cbn [app run_stops].
  cbn [forallb] in Hw. apply andb_true_iff in Hw as [Hc _].
  now apply (word_not_space ua).
Qed.

Lemma blank_stops_word (ua : char -> bool) (w t : str) :
  (forall c, isspace c = true -> ua c = false) ->
  w <> [] -> blank w = true -> run_stops (is_word ua) (w ++ t).
Proof.
  intros H Hne B. destruct w as [|c w]; [contradiction|].
  cbn [app run_stops]. unfold blank in B. cbn [forallb] in B.
  apply andb_true_iff in B as [Hc _]. now apply space_not_word.
Qed.

Lemma blank_close_stops_word (ua : char -> bool) (w t : str) :
  (forall c, isspace c = true -> ua c = false) ->
  blank w = true -> run_stops (is_word ua) (w ++ py "%}" ++ t).
Proof.
  intros H B. destruct w as [|c w]; [reflexivity|].
  now apply blank_stops_word.
Qed.


Lemma nonempty_inv {A : Type} (s : list A) : nonempty s = true -> s <> [].
Proof. now destruct s. Qed.

(** ** The pattern of loop blocks *)

(** The pattern read on a block, piece by piece. *)
Lemma for_pattern_block (ua : char -> bool) (sp : spacing)
    (v L body post : str) (prev : option char) :
  (forall c, isspace c = true -> ua c = false) ->
  spacing_ok sp = true -> is_ident ua v = true -> is_ident ua L = true ->
  contains body (py "{%") = false ->
  match_at (for_pattern ua) prev
    (py "{%" ++ sp_open sp ++ py "for" ++ sp_for sp ++ v ++ sp_var sp
       ++ py "in" ++ sp_in sp ++ L ++ sp_list sp ++ py "%}" ++ body
       ++ py "{%" ++ sp_end sp ++ py "endfor" ++ sp_close sp ++ py "%}"
       ++ post)
  = Some (MState (Some 125%N) post [(3, body); (2, L); (1, v)]).
Proof.
  intros Hua Hsp Hv HL Hb.
  destruct sp as [a b c d e f g]. unfold spacing_ok in Hsp.
  cbn [sp_open sp_for sp_var sp_in sp_list sp_end sp_close] in *.
  repeat match type of Hsp with
         | _ && _ = true => apply andb_true_iff in Hsp as [Hsp ?]
         end.
  repeat match goal with
         | H : nonempty _ && _ = true |- _ =>
             apply andb_true_iff in H as [?%nonempty_inv ?]
         end.
  destruct (is_ident_inv _ _ Hv) as [Nv Wv].
  destruct (is_ident_inv _ _ HL) as [NL WL].
  unfold match_at, for_pattern, seqs. cbn [fold_right].
  rewrite rmatch_Seq, rmatch_Lit_app.
  rewrite rmatch_Seq. apply rmatch_Star_run; [assumption|reflexivity|].
  rewrite rmatch_Seq, rmatch_Lit_app.
  rewrite rmatch_Seq.
  apply rmatch_Plus_run;
    [assumption|assumption|now apply (ident_stops_space ua)|].
  rewrite rmatch_Seq, rmatch_Group.
  apply rmatch_Plus_run;
    [assumption|assumption|now apply blank_stops_word|].
  cbn [st_prev st_rest st_caps]. rewrite consumed_app.
  rewrite rmatch_Seq.
  apply rmatch_Plus_run; [assumption|assumption|reflexivity|].
  rewrite rmatch_Seq, rmatch_Lit_app.
  rewrite rmatch_Seq.
  apply rmatch_Plus_run;
    [assumption|assumption|now apply (ident_stops_space ua)|].
  rewrite rmatch_Seq, rmatch_Group.
  apply rmatch_Plus_run;
    [assumption|assumption|now apply blank_close_stops_word|].
  cbn [st_prev st_rest st_caps]. rewrite consumed_app.
  rewrite rmatch_Seq. apply rmatch_Star_run; [assumption|reflexivity|].
  rewrite rmatch_Seq, rmatch_Lit_app.
  rewrite rmatch_Seq, rmatch_Group.
  apply rmatch_Star_lazy.
  { intros b2 st' Hne Hsuf Hrest.
    rewrite rmatch_Seq. apply rmatch_Lit_miss. rewrite Hrest.
    apply no_opener_before; [assumption|].
    destruct (contains b2 (py "{%")) eqn:E; [|reflexivity].
    rewrite (contains_suffix _ _ _ Hsuf E) in Hb. discriminate. }
  cbn [st_prev st_rest st_caps]. rewrite consumed_app.
  rewrite rmatch_Seq, rmatch_Lit_app.
  rewrite rmatch_Seq. apply rmatch_Star_run; [assumption|reflexivity|].
  rewrite rmatch_Seq, rmatch_Lit_app.
  rewrite rmatch_Seq. apply rmatch_Star_run; [assumption|reflexivity|].
  rewrite rmatch_Seq, rmatch_Lit_app.
  reflexivity.
Qed.

Lemma block_pieces (sp : spacing) (v L body post : str) :
  for_block sp v L body ++ post
  = py "{%" ++ sp_open sp ++ py "for" ++ sp_for sp ++ v ++ sp_var sp
      ++ py "in" ++ sp_in sp ++ L ++ sp_list sp ++ py "%}" ++ body
      ++ py "{%" ++ sp_end sp ++ py "endfor" ++ sp_close sp ++ py "%}"
      ++ post.
Proof.
  unfold for_block, for_tag, endfor_tag. rewrite <- !app_assoc. reflexivity.
Qed.

Lemma for_pattern_miss (ua : char -> bool) (prev : option char) (s : str) :
  startswith s (py "{%") = false -> match_at (for_pattern ua) prev s = None.
Proof.
  intros H. unfold match_at, for_pattern, seqs. cbn [fold_right].
  rewrite rmatch_Seq. now apply rmatch_Lit_miss.
Qed.

Lemma for_pattern_search (ua : char -> bool) (sp : spacing)
    (pre v L body post : str) :
  (forall c, isspace c = true -> ua c = false) ->
  contains pre (py "{%") = false ->
  spacing_ok sp = true -> is_ident ua v = true -> is_ident ua L = true ->
  contains body (py "{%") = false ->
  forall prev,
    search_from (for_pattern ua) prev (pre ++ for_block sp v L body ++ post)
    = Some (MatchResult pre (for_block sp v L body)
              [(3, body); (2, L); (1, v)] post).
Proof.
  intros Hua Hpre Hsp Hv HL Hb.
  induction pre as [|c pre IH]; intros prev; rewrite search_from_eq.
  - cbn [app]. rewrite block_pieces at 1.
    rewrite for_pattern_block by assumption. cbn [st_rest st_caps].
    do 2 f_equal. rewrite length_app.
    replace (length (for_block sp v L body) + length post - length post)
      with (length (for_block sp v L body)) by lia.
    now rewrite firstn_app, Nat.sub_diag, firstn_all, app_nil_r.
  - rewrite for_pattern_miss.
    + cbn [app]. rewrite IH; [reflexivity|].
      eapply contains_false_tail; eauto.
    + rewrite block_pieces.
      apply (no_opener_before (c :: pre)); [discriminate|assumption].
Qed.

Lemma for_pattern_bol_free (ua : char -> bool) :
  bol_free (for_pattern ua) = true.
Proof. reflexivity. Qed.

Lemma for_block_nonempty (sp : spacing) (v L body : str) :
  for_block sp v L body <> [].
Proof. discriminate. Qed.

(** A template without [{%] has no loop block. *)
Lemma for_pattern_absent (ua : char -> bool) (s : str) :
  contains s (py "{%") = false ->
  forall prev, search_from (for_pattern ua) prev s = None.
Proof.
  induction s as [|c s IH]; intros H prev; rewrite search_from_eq.
  - now rewrite for_pattern_miss.
  - rewrite for_pattern_miss by now apply contains_false_head.
    rewrite IH; [reflexivity|]. eapply contains_false_tail; eauto.
Qed.

(** ** Replacing a placeholder in a template made of pieces *)

Lemma lacks_cons (c d : char) (s : str) :
  lacks c (d :: s) = true -> d <> c /\ lacks c s = true.
Proof.
  unfold lacks. cbn [forallb]. intros H.
  apply andb_true_iff in H as [H1 H2]. split; [|assumption].
  intros ->. now rewrite N.eqb_refl in H1.
Qed.

Lemma lacks_In (c : char) (s : str) : lacks c s = true -> ~ In c s.
Proof.
  induction s as [|d s IH]; intros H F; [contradiction|].
  apply lacks_cons in H as [H1 H2]. destruct F as [F|F]; [contradiction|].
  now apply IH.
Qed.

Lemma lacks_app (c : char) (a b : str) :
  lacks c (a ++ b) = lacks c a && lacks c b.
Proof. apply forallb_app. Qed.

Lemma In_lacks (c : char) (s : str) : ~ In c s -> lacks c s = true.
Proof.
  induction s as [|d s IH]; intros H; [reflexivity|].
  unfold lacks. cbn [forallb]. fold (lacks c s).
  rewrite IH by (intros F; apply H; now right). rewrite andb_true_r.
  destruct (N.eqb d c) eqn:E; [|reflexivity].
  apply N.eqb_eq in E. subst. exfalso. apply H. now left.
Qed.

(** Text without [{] is copied by a replacement of something that starts
    with [{]. *)
Lemma py_replace_text (s rest old new : str) :
  lacks 123%N s = true ->
  py_replace (s ++ rest) (123%N :: old) new
  = s ++ py_replace rest (123%N :: old) new.
Proof.
  induction s as [|c s IH]; intros H; [reflexivity|].
  apply lacks_cons in H as [Hc Hs]. cbn [app].
  rewrite py_replace_miss.
  - now rewrite IH.
  - discriminate.
  - apply startswith_diff. congruence.
Qed.

(** Two placeholders that start at the same place are the same
    placeholder. *)
Lemma hole_prefix (h : str) :
  forall h' rest,
    lacks 32%N h = true -> lacks 125%N h' = true ->
    startswith (h ++ py " }}" ++ rest) (h' ++ py " }}") = true -> h' = h.
Proof.
  induction h as [|x h IH]; intros h' rest Hs Hb H.
  - destruct h' as [|c h']; [reflexivity|]. exfalso.
    change ([] ++ py " }}" ++ rest) with (32%N :: 125%N :: 125%N :: rest) in H.
    cbn [app] in H. apply startswith_cons_inv in H as [_ H].
    apply lacks_cons in Hb as [_ Hb].
    destruct h' as [|d h'].
    + change ([] ++ py " }}") with (32%N :: py "}}") in H.
      apply startswith_cons_inv in H as [F _]. discriminate F.
    + cbn [app] in H. apply startswith_cons_inv in H as [F _].
      apply lacks_cons in Hb as [Hd _]. congruence.
  - apply lacks_cons in Hs as [Hx Hs]. destruct h' as [|c h'].
    + exfalso. change ([] ++ py " }}") with (32%N :: py "}}") in H.
      cbn [app] in H. apply startswith_cons_inv in H as [F _]. contradiction.
    + cbn [app] in H. apply startswith_cons_inv in H as [-> H].
      apply lacks_cons in Hb as [_ Hb]. f_equal. now apply (IH h' rest).
Qed.

Lemma hole_pieces (h rest : str) :
  hole h ++ rest = 123%N :: 123%N :: (32%N :: h ++ py " }}") ++ rest.
Proof. reflexivity. Qed.

Lemma hole_cons (h : str) : hole h = 123%N :: 123%N :: 32%N :: h ++ py " }}".
Proof. reflexivity. Qed.

Lemma startswith_hole_miss (h h' rest : str) :
  lacks 32%N h = true -> lacks 125%N h' = true -> h <> h' ->
  startswith (hole h ++ rest) (hole h') = false.
Proof.
  intros Hs Hb N.
  destruct (startswith (hole h ++ rest) (hole h')) eqn:E; [|reflexivity].
  exfalso. apply N. symmetry. apply (hole_prefix h h' rest Hs Hb).
  unfold hole in E. rewrite <- !app_assoc in E.
  now rewrite startswith_app_same in E.
Qed.

Lemma py_replace_hole (h h' rest new : str) :
  lacks 32%N h = true -> lacks 123%N h = true -> lacks 125%N h' = true ->
  py_replace (hole h ++ rest) (hole h') new
  = match one h' new h with
    | Some s => s
    | None => hole h
    end ++ py_replace rest (hole h') new.
Proof.
  intros Hs Ho Hb. unfold one. destruct (str_eqb h h') eqn:E.
  - apply str_eqb_eq in E. subst h'.
    rewrite py_replace_hit; [|discriminate|apply startswith_app].
    now rewrite skipn_app, skipn_all, Nat.sub_diag.
  - apply str_eqb_neq in E.
    pose proof (startswith_hole_miss h h' rest Hs Hb E) as M.
    rewrite hole_pieces in *. rewrite (hole_cons h') in *.
    rewrite py_replace_miss; [|discriminate|exact M].
    rewrite py_replace_miss;
      [|discriminate|rewrite startswith_cons; now apply startswith_diff].
    rewrite py_replace_text.
    + rewrite hole_cons. reflexivity.
    + change (32%N :: h ++ py " }}") with ([32%N] ++ h ++ py " }}").
      rewrite !lacks_app, Ho. reflexivity.
Qed.

Lemma flat_cons (p : piece) (ps : list piece) :
  flat (p :: ps) = piece_str p ++ flat ps.
Proof. reflexivity. Qed.

Lemma plug_cons (f : str -> option str) (p : piece) (ps : list piece) :
  plug f (p :: ps)
  = match p with
    | Text s => Text s
    | Hole h =>
        match f h with
        | Some s => Text s
        | None => Hole h
        end
    end :: plug f ps.
Proof. reflexivity. Qed.

Lemma pieces_ok_cons (p : piece) (ps : list piece) :
  forallb piece_ok (p :: ps) = true ->
  piece_ok p = true /\ forallb piece_ok ps = true.
Proof. cbn [forallb]. intros H. now apply andb_true_iff in H. Qed.

Lemma hole_ok_inv (h : str) :
  piece_ok (Hole h) = true ->
  lacks 32%N h = true /\ lacks 123%N h = true /\ lacks 39%N h = true.
Proof.
  cbn [piece_ok]. intros H. apply andb_true_iff in H as [H H3].
  apply andb_true_iff in H as [H1 H2]. auto.
Qed.

(** One replacement: the placeholders [{{ a }}] of the template become the
    new text, everything else stays. *)
Lemma py_replace_pieces (a new : str) (ps : list piece) :
  forallb piece_ok ps = true -> lacks 125%N a = true ->
  py_replace (flat ps) (hole a) new = fill (one a new) ps.
Proof.
  intros Hps Ha. unfold fill.
  induction ps as [|p ps IH]; [reflexivity|].
  apply pieces_ok_cons in Hps as [Hp Hps].
  rewrite plug_cons, !flat_cons. destruct p as [s|h].
  - cbn [piece_str]. rewrite hole_cons, py_replace_text by exact Hp.
    rewrite <- hole_cons. now rewrite IH.
  - apply hole_ok_inv in Hp as (H1 & H2 & _). cbn [piece_str].
    rewrite py_replace_hole by assumption. rewrite IH by assumption.
    now destruct (one a new h).
Qed.

Lemma plug_ok (f : str -> option str) (ps : list piece) :
  forallb piece_ok ps = true ->
  (forall h s, f h = Some s -> lacks 123%N s = true) ->
  forallb piece_ok (plug f ps) = true.
Proof.
  intros Hps Hf. induction ps as [|p ps IH]; [reflexivity|].
  apply pieces_ok_cons in Hps as [Hp Hps].
  rewrite plug_cons. cbn [forallb]. rewrite IH by assumption.
  rewrite andb_true_r. destruct p as [s|h]; [exact Hp|].
  destruct (f h) as [s|] eqn:E; [|exact Hp]. cbn [piece_ok]. eauto.
Qed.

Lemma fill_ext (f g : str -> option str) (ps : list piece) :
  (forall h, f h = g h) -> fill f ps = fill g ps.
Proof.
  intros H. unfold fill. f_equal.
  induction ps as [|p ps IH]; [reflexivity|].
  rewrite !plug_cons, IH. destruct p as [s|h]; [reflexivity|].
  now rewrite H.
Qed.

(** A replacement, then the others. *)
Lemma fill_plug_one (a s : str) (g : str -> option str) (ps : list piece) :
  fill g (plug (one a s) ps)
  = fill (fun h => if str_eqb h a then Some s else g h) ps.
Proof.
  unfold fill. f_equal. induction ps as [|p ps IH]; [reflexivity|].
  rewrite !plug_cons, IH. destruct p as [t|h]; [reflexivity|].
  unfold one. now destruct (str_eqb h a).
Qed.

Lemma fill_app (f : str -> option str) (ps qs : list piece) :
  fill f (ps ++ qs) = fill f ps ++ fill f qs.
Proof.
  unfold fill, plug, flat. now rewrite map_app, flat_map_app.
Qed.


Lemma fill_hole (f : str -> option str) (h : str) (ps : list piece) :
  fill f (Hole h :: ps)
  = match f h with
    | Some s => s
    | None => hole h
    end ++ fill f ps.
Proof. unfold fill. rewrite plug_cons. now destruct (f h). Qed.

(** ** Templates made of pieces hold no loop block and no conditional *)

Lemma contains_cons (c : char) (s p : str) :
  contains (c :: s) p = startswith (c :: s) p || contains s p.
Proof. reflexivity. Qed.

Lemma text_no_opener (s rest : str) :
  lacks 123%N s = true -> contains rest (py "{%") = false ->
  contains (s ++ rest) (py "{%") = false.
Proof.
  induction s as [|c s IH]; intros H R; [assumption|].
  apply lacks_cons in H as [Hc Hs]. cbn [app].
  rewrite contains_cons, IH by assumption.
  rewrite orb_false_r. change (py "{%") with [123%N; 37%N].
  apply startswith_diff. congruence.
Qed.

Lemma flat_no_opener (ps : list piece) :
  forallb piece_ok ps = true -> contains (flat ps) (py "{%") = false.
Proof.
  induction ps as [|p ps IH]; intros H; [reflexivity|].
  apply pieces_ok_cons in H as [Hp Hps]. rewrite flat_cons.
  destruct p as [s|h]; cbn [piece_str].
  - apply text_no_opener; auto.
  - apply hole_ok_inv in Hp as (_ & H2 & _). rewrite hole_pieces.
    rewrite !contains_cons.
    rewrite text_no_opener;
      [reflexivity| |now apply IH].
    change (32%N :: h ++ py " }}") with ([32%N] ++ h ++ py " }}").
    rewrite !lacks_app, H2. reflexivity.
Qed.

(** A repetition of a class fails when what follows fails after every
    run of the class. *)
Lemma star_Chr_fail (p : char -> bool) (g : bool) (k : cont)
    (caps : list (nat * str)) :
  forall n prev s,
    (forall run rest' prev',
       s = run ++ rest' -> forallb p run = true ->
       k (MState prev' rest' caps) = None) ->
    star_loop (rmatch (Chr p)) g n (MState prev s caps) k = None.
Proof.
  induction n as [|n IH]; intros prev s H.
  - cbn [star_loop]. now apply (H []).
  - rewrite star_loop_S. cbv zeta.
    assert (K : k (MState prev s caps) = None) by now apply (H []).
    rewrite K.
    assert (A : rmatch (Chr p) (MState prev s caps)
                  (fun st1 =>
                     if length (st_rest st1) <? length (st_rest (MState prev s caps))
                     then star_loop (rmatch (Chr p)) g n st1 k
                     else None) = None).
    { destruct s as [|c s]; [reflexivity|].
      rewrite rmatch_Chr_cons. destruct (p c) eqn:E; [|reflexivity].
      cbn [st_rest]. rewrite shorter_tail. apply IH.
      intros run rest' prev' -> F. apply (H (c :: run)); [reflexivity|].
      cbn [forallb]. now rewrite E. }
    rewrite A. now destruct g.
Qed.

Lemma rmatch_Star_fail (p : char -> bool) (g : bool) (k : cont)
    (prev : option char) (s : str) (caps : list (nat * str)) :
  (forall run rest' prev',
     s = run ++ rest' -> forallb p run = true ->
     k (MState prev' rest' caps) = None) ->
  rmatch (Star g (Chr p)) (MState prev s caps) k = None.
Proof. intros H. now apply star_Chr_fail. Qed.

(** After whitespace, a text without quote that ends before a character
    that is neither whitespace nor a quote does not continue with a
    quote. *)
Lemma no_quote_after_spaces (a : str) (x : char) (b : str) :
  lacks 39%N a = true -> x <> 39%N -> isspace x = false ->
  forall run rest',
    a ++ x :: b = run ++ rest' -> forallb isspace run = true ->
    startswith rest' (py "'") = false.
Proof.
  intros Ha Hx Sx. change (py "'") with [39%N].
  induction a as [|c a IH]; intros run rest' E F.
  - destruct run as [|w run].
    + cbn [app] in E. subst rest'. apply startswith_diff. congruence.
    + cbn [app] in E. injection E as <- _. cbn [forallb] in F.
      rewrite Sx in F. discriminate.
  - apply lacks_cons in Ha as [Hc Ha]. destruct run as [|w run].
    + cbn [app] in E. subst rest'. apply startswith_diff. congruence.
    + cbn [app] in E. injection E as <- E. cbn [forallb] in F.
      apply andb_true_iff in F as [_ F]. now apply IH with (run := run).
Qed.

Lemma cond_pattern_needs_braces (ua : char -> bool) (prev : option char)
    (s : str) :
  startswith s (py "{{") = false -> match_at (cond_pattern ua) prev s = None.
Proof.
  intros H. unfold match_at, cond_pattern, seqs. cbn [fold_right].
  rewrite rmatch_Seq. now apply rmatch_Lit_miss.
Qed.

(** A placeholder without quote is not a conditional. *)
Lemma cond_pattern_hole (ua : char -> bool) (prev : option char)
    (h rest : str) :
  lacks 39%N h = true ->
  match_at (cond_pattern ua) prev (hole h ++ rest) = None.
Proof.
  intros Hq. unfold match_at, cond_pattern, seqs. cbn [fold_right].
  change (hole h ++ rest) with (py "{{" ++ (32%N :: h ++ py " }}") ++ rest).
  rewrite rmatch_Seq, rmatch_Lit_app. rewrite rmatch_Seq.
  apply rmatch_Star_fail. intros run rest' prev' E F.
  rewrite rmatch_Seq. apply rmatch_Lit_miss. cbn [st_rest].
  apply (no_quote_after_spaces (32%N :: h ++ [32%N]) 125%N (125%N :: rest))
    with (run := run); try assumption; try discriminate; try reflexivity.
  - change (32%N :: h ++ [32%N]) with ([32%N] ++ h ++ [32%N]).
    rewrite !lacks_app, Hq. reflexivity.
  - rewrite <- E. cbn [app]. f_equal. rewrite <- !app_assoc. reflexivity.
Qed.

Lemma cond_search_text (ua : char -> bool) (s rest : str) :
  lacks 123%N s = true ->
  (forall prev, search_from (cond_pattern ua) prev rest = None) ->
  forall prev, search_from (cond_pattern ua) prev (s ++ rest) = None.
Proof.
  induction s as [|c s IH]; intros H R prev; [apply R|].
  apply lacks_cons in H as [Hc Hs]. cbn [app].
  rewrite search_from_eq, cond_pattern_needs_braces.
  - now rewrite IH.
  - change (py "{{") with [123%N; 123%N]. apply startswith_diff. congruence.
Qed.

Lemma cond_pattern_pieces (ua : char -> bool) (ps : list piece) :
  forallb piece_ok ps = true ->
  forall prev, search_from (cond_pattern ua) prev (flat ps) = None.
Proof.
  induction ps as [|p ps IH]; intros H prev.
  - rewrite search_from_eq. now rewrite cond_pattern_needs_braces.
  - apply pieces_ok_cons in H as [Hp Hps]. rewrite flat_cons.
    destruct p as [s|h]; cbn [piece_str].
    + apply cond_search_text; auto.
    + apply hole_ok_inv in Hp as (_ & H2 & H3).
      rewrite search_from_eq, cond_pattern_hole by assumption.
      rewrite hole_pieces.
      rewrite search_from_eq, cond_pattern_needs_braces
        by (change (py "{{") with [123%N; 123%N];
            rewrite startswith_cons; now apply startswith_diff).
      rewrite cond_search_text; [reflexivity| |now apply IH].
      change (32%N :: h ++ py " }}") with ([32%N] ++ h ++ py " }}").
      rewrite !lacks_app, H2. reflexivity.
Qed.

(** ** Rendering templates made of pieces *)






Lemma lookup_notin (k : str) (d : pydict) :
  ~ In k (map fst d) -> lookup k d = None.
Proof.
  induction d as [|[k' v'] d IH]; [reflexivity|]. cbn [lookup map fst].
  intros H. destruct (str_eqb k k') eqn:E.
  - apply str_eqb_eq in E. subst. exfalso. apply H. now left.
  - apply IH. intros F. apply H. now right.
Qed.

Lemma fill_none (f : str -> option str) (ps : list piece) :
  (forall h, f h = None) -> fill f ps = flat ps.
Proof.
  intros H. unfold fill. f_equal.
  induction ps as [|p ps IH]; [reflexivity|].
  rewrite plug_cons, IH. destruct p as [s|h]; [reflexivity|].
  now rewrite H.
Qed.

Lemma printable_inv (repr : value -> res str) (v : value) :
  printable repr v = true ->
  exists s, py_str repr v = Ok s /\ lacks 123%N s = true.
Proof.
  unfold printable. destruct (py_str repr v) as [s|e]; [eauto|discriminate].
Qed.

Lemma scalar_raises_ValueError (repr : value -> res str) (v : value) (e : exn) :
  is_container v = false -> py_str repr v = Raise e -> e = ValueError.
Proof.
  destruct v as [|b|z|s|l|kv]; cbn [is_container py_str]; try discriminate.
  - destruct b; discriminate.
  - intros _. unfold str_of_Z.
    destruct (Nat.ltb _ _); [congruence|discriminate].
Qed.

Section Rendering.

Variable repr : value -> res str.
Variable ua : char -> bool.

Lemma expand_loops_block (context : pydict) (sp : spacing)
    (pre v L body post : str) :
  (forall c, isspace c = true -> ua c = false) ->
  contains pre (py "{%") = false ->
  spacing_ok sp = true -> is_ident ua v = true -> is_ident ua L = true ->
  contains body (py "{%") = false ->
  expand_loops repr ua context (pre ++ for_block sp v L body ++ post)
  = (t <- replace_for repr context
            (MatchResult pre (for_block sp v L body)
               [(3, body); (2, L); (1, v)] post) ;;
     rest <- expand_loops repr ua context post ;;
     Ok (pre ++ t ++ rest)).
Proof.
  intros Hua Hpre Hsp Hv HL Hb. unfold expand_loops.
  rewrite (re_sub_m_first (for_pattern ua) _ _
             (MatchResult pre (for_block sp v L body)
                [(3, body); (2, L); (1, v)] post)).
  - reflexivity.
  - apply for_pattern_bol_free.
  - now apply for_pattern_search.
  - apply for_block_nonempty.
Qed.





Lemma var_text_cons (k : str) (x : value) (context : pydict) (h : str) :
  var_text repr ((k, x) :: context) h
  = if str_eqb h k
    then (if is_container x then None else ok_str (py_str repr x))
    else var_text repr context h.
Proof. unfold var_text. cbn [lookup]. now destruct (str_eqb h k). Qed.

(** The variable pass on a template made of pieces. *)
Lemma substitute_pieces (context : pydict) :
  NoDup (map fst context) -> context_ok repr context = true ->
  forall ps, forallb piece_ok ps = true ->
    substitute_variables repr context (flat ps)
    = Ok (fill (var_text repr context) ps).
Proof.
  induction context as [|[k x] context IH]; intros Hn Hc ps Hps.
  - cbn [substitute_variables]. now rewrite fill_none.
  - cbn [map fst] in Hn. inversion Hn as [|? ? Hk Hn']; subst.
    unfold context_ok in Hc. cbn [forallb fst snd] in Hc.
    apply andb_true_iff in Hc as [Hx Hc].
    cbn [substitute_variables]. destruct (is_container x) eqn:C.
    + rewrite IH by assumption. f_equal. apply fill_ext. intros h.
      rewrite var_text_cons, C. destruct (str_eqb h k) eqn:E; [|reflexivity].
      apply str_eqb_eq in E. subst h. unfold var_text.
      now rewrite lookup_notin.
    + cbn [orb] in Hx. apply andb_true_iff in Hx as [Hkb Hx].
      apply printable_inv in Hx as (s & Es & Hs).
      rewrite Es. cbn [bind].
      change (var_ref k) with (hole k).
      rewrite py_replace_pieces by assumption.
      unfold fill at 1. rewrite IH.
      * rewrite fill_plug_one. f_equal. apply fill_ext. intros h.
        now rewrite var_text_cons, C, Es.
      * assumption.
      * exact Hc.
      * apply plug_ok; [assumption|]. intros h s'. unfold one.
        destruct (str_eqb h _); [|discriminate]. now intros [= <-].
Qed.

Lemma render_template_plain (template : str) (context : pydict) :
  re_search (for_pattern ua) template = None ->
  re_search (cond_pattern ua) template = None ->
  render_template repr ua template context
  = substitute_variables repr context template.
Proof.
  intros Hf Hc. unfold render_template, expand_loops, resolve_conditionals.
  rewrite re_sub_m_no_match by assumption. cbn [bind].
  now rewrite re_sub_no_match by assumption.
Qed.

Lemma render_template_pieces (ps : list piece) (context : pydict) :
  forallb piece_ok ps = true ->
  render_template repr ua (flat ps) context
  = substitute_variables repr context (flat ps).
Proof.
  intros H. apply render_template_plain.
  - apply for_pattern_absent. now apply flat_no_opener.
  - now apply cond_pattern_pieces.
Qed.

End Rendering.

(* ================================================================== *)
(** * Loop blocks and placeholders: the claims *)
(* ================================================================== *)

Section TemplateClaims.

Variable repr : value -> res str.
Variable ua : char -> bool.




End TemplateClaims.





(* ================================================================== *)
(** * The context builder *)
(* ================================================================== *)

Lemma bind_Ok_inv {A B : Type} (m : res A) (f : A -> res B) (b : B) :
  bind m f = Ok b -> exists a, m = Ok a /\ f a = Ok b.
Proof. destruct m as [a|e]; simpl; [eauto | discriminate]. Qed.

Ltac inv_bind H :=
  repeat match type of H with
  | bind ?m ?f = Ok _ =>
      let a := fresh "a" in
      let E := fresh "E" in
      apply bind_Ok_inv in H as (a & E & H)
  end.

Section Builder.

Variable repr : value -> res str.

Lemma footer_initial_dict (cfg : pydict) (lang : str) (a : value) :
  footer_text_initial repr (VDict cfg) lang = Ok a ->
  exists footer, get cfg (py "footer") (VDict []) = VDict footer.
Proof.
  unfold footer_text_initial, get. cbn [vget bind].
  unfold get. destruct (lookup (py "footer") cfg) as [v|]; [|eauto].
  destruct v; cbn [is_dict vget bind]; try discriminate. eauto.
Qed.

Ltac solve_yield :=
  eexists; split;
  [ solve [ eassumption
          | match goal with
            | E : ?c = Ok _ |- bind ?c _ = Ok _ =>
                rewrite E; cbn [bind]; eassumption
            end ]
  | reflexivity ].

(** What a context that was built holds for the fields of the claims. *)
Lemma build_context_fields (config : value) (lang : str) (ctx : pydict) :
  build_context repr config lang = Ok ctx ->
  exists cfg footer,
    config = VDict cfg /\
    get cfg (py "footer") (VDict []) = VDict footer /\
    lookup (py "footer_text") ctx
      = Some (get footer lang (get footer (py "fr") (VStr []))) /\
    yields (g <- vget (get cfg (py "liens") (VDict [])) (py "galerie_oiseaux")
                   (VStr []) ;;
            v_replace g (py "_fr") (py "_" ++ lang)) ctx (py "oiseaux_lien") /\
    yields (get_text repr config (py "titre") lang) ctx (py "titre") /\
    yields (get_text repr (get cfg (py "affiliation") (VDict []))
              (py "departement") lang) ctx (py "affiliation_dept") /\
    yields (get_text repr (get cfg (py "recherche") (VDict []))
              (py "titre") lang) ctx (py "recherche_titre") /\
    yields (get_text repr (get cfg (py "medias") (VDict []))
              (py "titre") lang) ctx (py "medias_titre") /\
    yields (get_text repr (get cfg (py "medias") (VDict []))
              (py "ads_texte") lang) ctx (py "ads_texte") /\
    yields (get_text repr (get cfg (py "medias") (VDict []))
              (py "decouvertes_titre") lang) ctx (py "decouvertes_titre") /\
    yields (get_text repr (get cfg (py "oiseaux") (VDict []))
              (py "titre") lang) ctx (py "oiseaux_titre") /\
    yields (t <- get_text repr config (py "intro") lang ;; v_strip t)
      ctx (py "intro") /\
    yields (t <- get_text repr (get cfg (py "recherche") (VDict []))
                   (py "contenu") lang ;;
            markdown_to_html t) ctx (py "recherche_contenu") /\
    yields (t <- get_text repr (get cfg (py "oiseaux") (VDict []))
                   (py "contenu") lang ;;
            markdown_to_html t) ctx (py "oiseaux_contenu").
Proof.
  intros H. unfold build_context in H.
  destruct config as [| | | | |cfg]; try discriminate.
  cbn [vget bind] in H. inv_bind H.
  match goal with
  | E : footer_text_initial _ _ _ = Ok _ |- _ =>
      destruct (footer_initial_dict _ _ _ E) as [footer F]
  end.
  rewrite F in H. injection H as <-.
  exists cfg, footer. split; [reflexivity|]. split; [assumption|].
  split; [reflexivity|].
  unfold yields. repeat split; solve_yield.
Qed.

End Builder.

(** ** Replacing [_fr] *)

Lemma py_replace_cases (s old new : str) :
  old <> [] ->
  (s = [] /\ py_replace s old new = []) \/
  (startswith s old = true /\
   py_replace s old new = new ++ py_replace (skipn (length old) s) old new) \/
  (exists c t, s = c :: t /\ startswith s old = false /\
               py_replace s old new = c :: py_replace t old new).
Proof.
  intros Hold. destruct (startswith s old) eqn:E.
  - right. left. split; [reflexivity|]. now apply py_replace_hit.
  - destruct s as [|c t].
    + left. split; [reflexivity|]. now apply py_replace_nil.
    + right. right. exists c, t. repeat split; auto.
      now apply py_replace_miss.
Qed.

Lemma replace_fr_en_head (s : str) :
  startswith (py_replace s (py "_fr") (py "_en")) (py "fr") = true ->
  startswith s (py "fr") = true.
Proof.
  intros H.
  destruct (py_replace_cases s (py "_fr") (py "_en")) as
    [[-> E]|[[_ E]|(c & t & -> & _ & E)]]; try discriminate;
    rewrite E in H.
  - simpl in H. discriminate H.
  - change (py "fr") with [102%N; 114%N] in *.
    apply startswith_cons_inv in H as [-> H]. rewrite startswith_cons.
    destruct (py_replace_cases t (py "_fr") (py "_en")) as
      [[-> F]|[[_ F]|(d & u & -> & _ & F)]]; try discriminate;
      rewrite F in H; try (simpl in H; discriminate H).
    apply startswith_cons_inv in H as [-> H]. now rewrite startswith_cons.
Qed.

Lemma no_fr_remains (s : str) :
  contains (py_replace s (py "_fr") (py "_en")) (py "_fr") = false.
Proof.
  remember (length s) as n eqn:Hn. revert s Hn.
  induction n as [n IH] using lt_wf_ind. intros s Hn.
  destruct (py_replace_cases s (py "_fr") (py "_en")) as
    [[-> E]|[[S E]|(c & t & -> & S & E)]]; try discriminate; rewrite E.
  - reflexivity.
  - change (py "_en" ++ ?x) with (95%N :: 101%N :: 110%N :: x).
    cbn [contains]. 
    rewrite (IH (length (skipn (length (py "_fr")) s))); [reflexivity| |reflexivity].
    assert (L : length s = length (py "_fr" ++ skipn (length (py "_fr")) s))
      by (f_equal; now apply startswith_split).
    rewrite length_app in L. change (length (py "_fr")) with 3 in *. lia.
  - cbn [contains]. rewrite (IH (length t)); [|simpl in Hn; lia|reflexivity].
    rewrite orb_false_r.
    destruct (startswith (c :: py_replace t (py "_fr") (py "_en")) (py "_fr")) eqn:F;
      [|reflexivity].
    change (py "_fr") with (95%N :: py "fr") in *.
    apply startswith_cons_inv in F as [-> F].
    apply replace_fr_en_head in F. rewrite startswith_cons in S. congruence.
Qed.

Lemma bilingual_get (m : pydict) (lang : str) :
  get m lang (get m (py "fr") (VStr [])) = bilingual m lang.
Proof.
  unfold get, bilingual. destruct (lookup lang m); [reflexivity|].
  now destruct (lookup (py "fr") m).
Qed.

Section BuilderClaims.

Variable repr : value -> res str.

Lemma get_text_bilingual (o : pydict) (key lang : str) (m : pydict) :
  get o key (VDict []) = VDict m ->
  get_text repr (VDict o) key lang = Ok (bilingual m lang).
Proof.
  intros H. unfold get_text. cbn [vget bind]. rewrite H.
  now rewrite bilingual_get.
Qed.

Lemma yields_get_text (o : pydict) (key lang : str) (m : pydict)
    (ctx : pydict) (out : str) :
  yields (get_text repr (VDict o) key lang) ctx out ->
  get o key (VDict []) = VDict m ->
  lookup out ctx = Some (bilingual m lang).
Proof.
  intros (t & E & L) H. rewrite (get_text_bilingual _ _ _ _ H) in E.
  congruence.
Qed.

(** C1, amended: [build] sets [oiseaux_lien] to the gallery URL of
    [liens.galerie_oiseaux] with every occurrence of [_fr], taken from the
    left without overlap, replaced by [_<lang>].  With [fr] the URL is
    unchanged; with [en] no [_fr] is left in the result. *)
Theorem oiseaux_lien_replaces_every_fr (config : value) (lang : str)
    (ctx : pydict) :
  build_context repr config lang = Ok ctx ->
  exists cfg url,
    config = VDict cfg /\
    vget (get cfg (py "liens") (VDict [])) (py "galerie_oiseaux") (VStr [])
      = Ok (VStr url) /\
    lookup (py "oiseaux_lien") ctx
      = Some (VStr (py_replace url (py "_fr") (py "_" ++ lang))) /\
    (lang = py "fr" -> lookup (py "oiseaux_lien") ctx = Some (VStr url)) /\
    (lang = py "en" ->
     contains (py_replace url (py "_fr") (py "_" ++ lang)) (py "_fr") = false).
Proof.
  intros H. apply build_context_fields in H.
  destruct H as (cfg & footer & -> & _ & _ & (t & E & L) & _).
  apply bind_Ok_inv in E as (g & E1 & E2).
  destruct g as [| | |url| |]; try discriminate.
  injection E2 as <-. exists cfg, url.
  split; [reflexivity|]. split; [assumption|]. split; [assumption|]. split.
  - intros ->. rewrite L. do 2 f_equal.
    exact (py_replace_same url (py "_fr")).
  - intros ->. apply no_fr_remains.
Qed.

(** C4: the entry [footer_text] of a built context is the direct lookup of
    the language in the [footer] mapping of the document (the empty mapping
    when the document has no footer), with the entry of [fr], then the
    empty string, as fallbacks: the last assignment decides, whatever the
    first computation of the field gave.  For a footer with a French entry
    only, the first computation gives the empty string in English and the
    lookup gives the French text. *)
Theorem footer_text_is_final_lookup (config : value) (lang : str)
    (ctx : pydict) :
  build_context repr config lang = Ok ctx ->
  (exists cfg footer,
     config = VDict cfg /\
     get cfg (py "footer") (VDict []) = VDict footer /\
     lookup (py "footer_text") ctx = Some (bilingual footer lang)) /\
  footer_text_initial repr
    (VDict [(py "footer", VDict [(py "fr", VStr (py "Bonjour"))])]) (py "en")
  = Ok (VStr []) /\
  bilingual [(py "fr", VStr (py "Bonjour"))] (py "en") = VStr (py "Bonjour").
Proof.
  intros H. split; [|split; reflexivity].
  apply build_context_fields in H.
  destruct H as (cfg & footer & -> & F & L & _).
  exists cfg, footer. rewrite <- bilingual_get. auto.
Qed.

End BuilderClaims.

(** C1 as stated fails: with the gallery link [a_fr/b_fr.html] the English
    context holds [a_en/b_en.html], where replacing the first occurrence
    only would give [a_en/b_fr.html]. *)
Lemma oiseaux_lien_first_only_counterexample :
  build_context no_repr gallery_doc (py "en") = Ok gallery_context_en /\
  lookup (py "oiseaux_lien") gallery_context_en
    = Some (VStr (py "a_en/b_en.html")) /\
  replace_first (py "_fr") (py "_en") (py "a_fr/b_fr.html")
    = py "a_en/b_fr.html" /\
  lookup (py "oiseaux_lien") gallery_context_en
    <> Some (VStr (replace_first (py "_fr") (py "_en") (py "a_fr/b_fr.html"))).
Proof.
  repeat split; try reflexivity. vm_compute. discriminate.
Qed.

Lemma oiseaux_lien_replaces_every_fr_witness :
  exists cfg url,
    gallery_doc = VDict cfg /\
    vget (get cfg (py "liens") (VDict [])) (py "galerie_oiseaux") (VStr [])
      = Ok (VStr url) /\
    lookup (py "oiseaux_lien") gallery_context_en
      = Some (VStr (py_replace url (py "_fr") (py "_" ++ py "en"))) /\
    (py "en" = py "fr" ->
     lookup (py "oiseaux_lien") gallery_context_en = Some (VStr url)) /\
    (py "en" = py "en" ->
     contains (py_replace url (py "_fr") (py "_" ++ py "en")) (py "_fr") = false).
Proof.
  apply (oiseaux_lien_replaces_every_fr no_repr gallery_doc (py "en")
           gallery_context_en).
  vm_compute. reflexivity.
Defined.

Lemma footer_text_is_final_lookup_witness :
  exists cfg footer,
    gallery_doc = VDict cfg /\
    get cfg (py "footer") (VDict []) = VDict footer /\
    lookup (py "footer_text") gallery_context_en
      = Some (bilingual footer (py "en")).
Proof.
  apply (footer_text_is_final_lookup no_repr gallery_doc (py "en")
           gallery_context_en).
  vm_compute. reflexivity.
Defined.

(* ================================================================== *)
(** * The redirect page *)
(* ================================================================== *)

(** C3 as stated fails: for a browser whose preferred language is German
    the script goes to the English page, not to the French one. *)
Lemma redirect_german_counterexample :
  script_target (Some (py "de-DE")) None = Some (py "index_en.html") /\
  claimed_target (py "de-DE") = py "index_fr.html" /\
  script_target (Some (py "de-DE")) None <> Some (claimed_target (py "de-DE")).
Proof.
  split; [vm_compute; reflexivity|]. split; [vm_compute; reflexivity|].
  vm_compute. discriminate.
Qed.

(** C3, amended: the script of the redirect page reads the preferred
    language of the browser and goes to the English page unless that
    language begins with [fr], in which case it goes to the French page.
    The page holds the three statements of the script and a link to each of
    [index_fr.html] and [index_en.html], and it is the [index.html] of
    every run of the generator that completes. *)
Theorem redirect_routes_by_fr_prefix :
  (forall (language userLanguage : option str) (userLang : str),
     js_or language userLanguage = Some userLang ->
     script_target language userLanguage
     = Some (if startswith userLang (py "fr")
             then py "index_fr.html" else py "index_en.html")) /\
  contains redirect_html script_userLang = true /\
  contains redirect_html script_targetLang = true /\
  contains redirect_html script_location = true /\
  contains redirect_html (link_to (py "index_fr.html")) = true /\
  contains redirect_html (link_to (py "index_en.html")) = true /\
  (forall (repr : value -> res str) (ua : char -> bool) (config : value)
          (template : str) (files : list (str * str)),
     generate_pages repr ua config template = Ok files ->
     In (py "index.html", redirect_html) files).
Proof.
  split.
  - intros language userLanguage userLang H. unfold script_target.
    rewrite H. now destruct (startswith userLang (py "fr")).
  - do 5 (split; [vm_compute; reflexivity|]).
    intros repr ua config template files H. unfold generate_pages in H.
    inv_bind H. injection H as <-. right. right. now left.
Qed.

Lemma redirect_routes_by_fr_prefix_witness :
  script_target (Some (py "fr-CA")) None = Some (py "index_fr.html") /\
  script_target (Some (py "en-US")) None = Some (py "index_en.html") /\
  script_target None (Some (py "pt-BR")) = Some (py "index_en.html") /\
  In (py "index.html", redirect_html)
    [(py "index_fr.html", py "<title>Bonjour</title>");
     (py "index_en.html", py "<title>Hello</title>");
     (py "index.html", redirect_html)].
Proof.
  split; [|split; [|split]].
  - apply (proj1 redirect_routes_by_fr_prefix (Some (py "fr-CA")) None
             (py "fr-CA")). reflexivity.
  - apply (proj1 redirect_routes_by_fr_prefix (Some (py "en-US")) None
             (py "en-US")). reflexivity.
  - apply (proj1 redirect_routes_by_fr_prefix None (Some (py "pt-BR"))
             (py "pt-BR")). reflexivity.
  - apply (proj2 (proj2 (proj2 (proj2 (proj2 (proj2
             redirect_routes_by_fr_prefix)))))
             no_repr no_alnum
             (VDict [(py "titre", VDict [(py "fr", VStr (py "Bonjour"));
                                         (py "en", VStr (py "Hello"))])])
             (py "<title>{{ titre }}</title>")).
    vm_compute. reflexivity.
Defined.

(* ================================================================== *)
(** * More on the template engine *)
(* ================================================================== *)

(** ** Templates without braces *)

Lemma brace_free_no_opener (s p : str) :
  ~ In 123%N s -> contains s (123%N :: p) = false.
Proof.
  intros H. destruct (contains s (123%N :: p)) eqn:E; [|reflexivity].
  now apply contains_In in E.
Qed.

Lemma cond_pattern_brace_free (ua : char -> bool) (s : str) :
  ~ In 123%N s -> forall prev, search_from (cond_pattern ua) prev s = None.
Proof.
  induction s as [|c s IH]; intros H prev; rewrite search_from_eq.
  - now rewrite cond_pattern_needs_braces.
  - rewrite cond_pattern_needs_braces.
    + rewrite IH; [reflexivity|]. intros F. apply H. now right.
    + apply contains_false_head. now apply (brace_free_no_opener _ [123%N]).
Qed.

Lemma substitute_brace_free (repr : value -> res str) (template : str)
    (context : pydict) :
  ~ In 123%N template ->
  substitute_variables repr context template
  = (_ <- mapM (py_str repr) (scalars context) ;; Ok template).
Proof.
  intros H. unfold scalars.
  induction context as [|[k x] context IH]; [reflexivity|].
  cbn [substitute_variables filter snd].
  destruct (is_container x); cbn [negb]; [exact IH|].
  cbn [map snd mapM]. destruct (py_str repr x) as [s|e]; [|reflexivity].
  cbn [bind].
  rewrite py_replace_absent by now apply (brace_free_no_opener template).
  rewrite IH. now destruct (mapM _ _).
Qed.

Lemma scalars_not_container (context : pydict) (x : value) :
  In x (scalars context) -> is_container x = false.
Proof.
  unfold scalars. rewrite in_map_iff. intros ([k y] & <- & Hin).
  apply filter_In in Hin as [_ Hin]. cbn [snd] in *.
  now destruct (is_container y).
Qed.

Lemma mapM_all_ok {A B : Type} (f : A -> res B) (l : list A) :
  (forall a, In a l -> is_ok (f a) = true) -> exists bs, mapM f l = Ok bs.
Proof.
  induction l as [|a l IH]; intros H; [now exists []|].
  cbn [mapM]. destruct (f a) as [b|e] eqn:E.
  - destruct IH as [bs ->]; [intros a' Ha; apply H; now right|].
    cbn [bind]. eauto.
  - specialize (H a (or_introl eq_refl)). rewrite E in H. discriminate.
Qed.

Lemma mapM_raises {A B : Type} (f : A -> res B) (l : list A) (e0 : exn) :
  (forall a e, In a l -> f a = Raise e -> e = e0) ->
  (exists a, In a l /\ f a = Raise e0) ->
  mapM f l = Raise e0.
Proof.
  induction l as [|a l IH]; intros H (b & Hin & Hb); [contradiction|].
  cbn [mapM]. destruct (f a) as [y|e] eqn:E.
  - cbn [bind]. rewrite IH; [reflexivity| |].
    + intros a' e Ha. apply H. now right.
    + destruct Hin as [->|Hin]; [congruence|]. eauto.
  - cbn [bind]. f_equal. apply (H a); [now left|assumption].
Qed.

(** X1: a template without the character [{] goes through the three
    passes unchanged, but the variable pass still takes the string form of
    every scalar of the context: the template is returned as it is when
    every scalar has a string form, and the rendering raises [ValueError]
    when the context holds an integer of too many digits, whether or not
    the template names it. *)
Theorem brace_free_template_verbatim (repr : value -> res str)
    (ua : char -> bool) (template : str) (context : pydict) :
  ~ In 123%N template ->
  render_template repr ua template context
  = (_ <- mapM (py_str repr) (scalars context) ;; Ok template) /\
  ((forall x, In x (scalars context) -> is_ok (py_str repr x) = true) ->
   render_template repr ua template context = Ok template) /\
  (forall z,
     In (VInt z) (scalars context) -> str_of_Z z = Raise ValueError ->
     render_template repr ua template context = Raise ValueError).
Proof.
  intros H.
  assert (E : render_template repr ua template context
              = (_ <- mapM (py_str repr) (scalars context) ;; Ok template)).
  { rewrite render_template_plain.
    - now apply substitute_brace_free.
    - apply for_pattern_absent.
      now apply (brace_free_no_opener template [37%N]).
    - now apply cond_pattern_brace_free. }
  split; [exact E|]. split.
  - intros Hok. rewrite E.
    destruct (mapM_all_ok (py_str repr) (scalars context) Hok) as [bs ->].
    reflexivity.
  - intros z Hin Hz. rewrite E.
    rewrite (mapM_raises (py_str repr) (scalars context) ValueError);
      [reflexivity| |].
    + intros x e Hx. apply scalar_raises_ValueError.
      now apply scalars_not_container in Hx.
    + exists (VInt z). split; [assumption|exact Hz].
Qed.

Lemma brace_free_template_verbatim_witness :
  render_template no_repr no_alnum (py "<h1>Bonjour</h1>")
    [(py "h1", VStr (py "x")); (py "videos", VList []); (py "n", VInt 3)]
  = Ok (py "<h1>Bonjour</h1>").
Proof.
  apply (proj1 (proj2 (brace_free_template_verbatim no_repr no_alnum
                         (py "<h1>Bonjour</h1>")
                         [(py "h1", VStr (py "x")); (py "videos", VList []);
                          (py "n", VInt 3)]
                         ltac:(apply lacks_In; reflexivity)))).
  intros x [<-|[<-|[]]]; reflexivity.
Defined.

(** ** Entries that hold a list or a mapping *)

Lemma contains_app_r (a s p : str) :
  contains s p = true -> contains (a ++ s) p = true.
Proof.
  intros H. induction a as [|c a IH]; [assumption|].
  cbn [app]. rewrite contains_cons, IH. apply orb_true_r.
Qed.

Lemma contains_prefix (p s : str) : contains (p ++ s) p = true.
Proof.
  destruct (p ++ s) as [|c t] eqn:E.
  - apply app_eq_nil in E as [-> _]. reflexivity.
  - rewrite contains_cons, <- E, startswith_app. reflexivity.
Qed.

Lemma fill_keeps_hole (f : str -> option str) (k : str) (ps : list piece) :
  In (Hole k) ps -> f k = None -> contains (fill f ps) (hole k) = true.
Proof.
  intros Hin Hf. apply in_split in Hin as (qs & rs & ->).
  rewrite fill_app, fill_hole, Hf.
  apply contains_app_r, contains_prefix.
Qed.

(** X2: the placeholder of a key that the context binds to a list or a
    mapping is still in the output, as it is written, wherever it stands
    in a template made of text and placeholders: only scalar entries are
    substituted. *)
Theorem container_placeholder_verbatim (repr : value -> res str)
    (ua : char -> bool) (ps : list piece) (context : pydict) (k : str)
    (x : value) :
  forallb piece_ok ps = true ->
  NoDup (map fst context) -> context_ok repr context = true ->
  lookup k context = Some x -> is_container x = true -> In (Hole k) ps ->
  exists out,
    render_template repr ua (flat ps) context = Ok out /\
    contains out (var_ref k) = true.
Proof.
  intros Hps Hn Hc Hl Hx Hin.
  exists (fill (var_text repr context) ps). split.
  - rewrite render_template_pieces by assumption.
    now apply substitute_pieces.
  - apply fill_keeps_hole; [assumption|].
    unfold var_text. now rewrite Hl, Hx.
Qed.

Lemma container_placeholder_verbatim_witness :
  exists out,
    render_template no_repr no_alnum
      (flat [Text (py "<p>"); Hole (py "lang"); Text (py ": ");
             Hole (py "videos"); Text (py "</p>")])
      [(py "lang", VStr (py "fr"));
       (py "videos", VList [VDict [(py "titre", VStr (py "A"))]])]
    = Ok out /\
    contains out (var_ref (py "videos")) = true.
Proof.
  apply (container_placeholder_verbatim no_repr no_alnum
           [Text (py "<p>"); Hole (py "lang"); Text (py ": ");
            Hole (py "videos"); Text (py "</p>")]
           [(py "lang", VStr (py "fr"));
            (py "videos", VList [VDict [(py "titre", VStr (py "A"))]])]
           (py "videos") (VList [VDict [(py "titre", VStr (py "A"))]])).
  - reflexivity.
  - repeat constructor; vm_compute; intuition discriminate.
  - reflexivity.
  - reflexivity.
  - reflexivity.
  - vm_compute. intuition.
Defined.

(** ** Loops over values that are not lists of mappings *)

Lemma render_item_prints (repr : value -> res str) (v : str) (kv : pydict) :
  prints repr (VDict kv) = true ->
  forall body, exists out, render_item repr v body kv = Ok out.
Proof.
  cbn [prints]. induction kv as [|[k x] kv IH]; intros H body.
  - now exists body.
  - cbn [forallb snd] in H. apply andb_true_iff in H as [Hx H].
    cbn [render_item]. destruct (py_str repr x) as [s|e]; [|discriminate].
    cbn [bind]. now apply IH.
Qed.

Lemma mapM_items_non_dict (repr : value -> res str) (v body : str)
    (good : list value) (bad : value) (rest : list value) :
  forallb (prints repr) good = true -> is_dict bad = false ->
  mapM (fun item => kv <- py_items item ;; render_item repr v body kv)
    (good ++ bad :: rest)
  = Raise AttributeError.
Proof.
  intros Hg Hb. induction good as [|x good IH].
  - cbn [app mapM]. now destruct bad.
  - cbn [forallb] in Hg. apply andb_true_iff in Hg as [Hx Hg].
    cbn [app mapM]. destruct x as [| | | | |kv]; try discriminate.
    cbn [py_items bind].
    destruct (render_item_prints repr v kv Hx body) as [out ->].
    cbn [bind]. now rewrite IH.
Qed.

Lemma render_item_raises (repr : value -> res str) (v : str) (kv1 : pydict)
    (k : str) (z : Z) (kv2 : pydict) :
  prints repr (VDict kv1) = true -> str_of_Z z = Raise ValueError ->
  forall body,
    render_item repr v body (kv1 ++ (k, VInt z) :: kv2) = Raise ValueError.
Proof.
  cbn [prints]. intros H Hz. induction kv1 as [|[k1 x] kv1 IH]; intros body.
  - cbn [app render_item py_str]. now rewrite Hz.
  - cbn [forallb snd] in H. apply andb_true_iff in H as [Hx H].
    cbn [app render_item]. destruct (py_str repr x) as [s|e]; [|discriminate].
    cbn [bind]. now apply IH.
Qed.

Lemma mapM_items_unprintable (repr : value -> res str) (v body : str)
    (good : list value) (kv1 : pydict) (k : str) (z : Z) (kv2 : pydict)
    (rest : list value) :
  forallb (prints repr) good = true ->
  prints repr (VDict kv1) = true -> str_of_Z z = Raise ValueError ->
  mapM (fun item => kv <- py_items item ;; render_item repr v body kv)
    (good ++ VDict (kv1 ++ (k, VInt z) :: kv2) :: rest)
  = Raise ValueError.
Proof.
  intros Hg H1 Hz. induction good as [|x good IH].
  - cbn [app mapM py_items bind]. now rewrite render_item_raises.
  - cbn [forallb] in Hg. apply andb_true_iff in Hg as [Hx Hg].
    cbn [app mapM]. destruct x as [| | | | |kv]; try discriminate.
    cbn [py_items bind].
    destruct (render_item_prints repr v kv Hx body) as [out ->].
    cbn [bind]. now rewrite IH.
Qed.

(** X3: a loop block over a name that the context binds to a true value
    that is not a list of mappings makes [render_template] raise: a
    non-empty string or mapping raises [AttributeError] (its elements
    have no [items]), and so does a list once the loop reaches an item
    that is not a mapping, the items before it being mappings whose
    values have string forms; a non-zero integer or [True] raises
    [TypeError] (it cannot be iterated).  The loop stops at the first
    item that fails: a mapping with an integer of too many digits raises
    [ValueError], whatever comes after it. *)
Theorem loop_over_non_list_raises (repr : value -> res str)
    (ua : char -> bool) (context : pydict) (sp : spacing)
    (pre v L body post : str) :
  (forall c, isspace c = true -> ua c = false) ->
  contains pre (py "{%") = false ->
  spacing_ok sp = true -> is_ident ua v = true -> is_ident ua L = true ->
  contains body (py "{%") = false ->
  let template := pre ++ for_block sp v L body ++ post in
  (forall s, s <> [] -> get context L (VList []) = VStr s ->
     render_template repr ua template context = Raise AttributeError) /\
  (forall kv, kv <> [] -> get context L (VList []) = VDict kv ->
     render_template repr ua template context = Raise AttributeError) /\
  (forall good bad rest,
     forallb (prints repr) good = true -> is_dict bad = false ->
     get context L (VList []) = VList (good ++ bad :: rest) ->
     render_template repr ua template context = Raise AttributeError) /\
  (forall good kv1 k z kv2 rest,
     forallb (prints repr) good = true ->
     prints repr (VDict kv1) = true -> str_of_Z z = Raise ValueError ->
     get context L (VList [])
     = VList (good ++ VDict (kv1 ++ (k, VInt z) :: kv2) :: rest) ->
     render_template repr ua template context = Raise ValueError) /\
  (forall z, z <> 0%Z -> get context L (VList []) = VInt z ->
     render_template repr ua template context = Raise TypeError) /\
  (get context L (VList []) = VBool true ->
   render_template repr ua template context = Raise TypeError).
Proof.
  intros Hua Hpre Hsp Hv HL Hb template. unfold template, render_template.
  rewrite expand_loops_block by assumption.
  unfold replace_for, group. cbn [m_caps lookup_cap Nat.eqb].
  repeat apply conj.
  - intros s Hs ->. destruct s as [|c s]; [contradiction|]. reflexivity.
  - intros kv Hkv ->. destruct kv as [|[k x] kv]; [contradiction|]. reflexivity.
  - intros good bad rest Hg Hbad ->.
    assert (T : truthy (VList (good ++ bad :: rest)) = true)
      by now destruct good.
    rewrite T. cbn [negb py_iter bind].
    now rewrite mapM_items_non_dict.
  - intros good kv1 k z kv2 rest Hg H1 Hz ->.
    assert (T : truthy (VList (good ++ VDict (kv1 ++ (k, VInt z) :: kv2)
                                 :: rest)) = true)
      by now destruct good.
    rewrite T. cbn [negb py_iter bind].
    now rewrite mapM_items_unprintable.
  - intros z Hz ->. cbn [truthy].
    destruct (Z.eqb z 0) eqn:E; [apply Z.eqb_eq in E; contradiction|].
    reflexivity.
  - intros ->. reflexivity.
Qed.

Lemma loop_over_non_list_raises_witness :
  render_template no_repr no_alnum
    (py "<ul>" ++ for_block single_spaces (py "v") (py "L") (py "{{ v.x }}")
       ++ py "</ul>")
    [(py "L", VList ([VDict [(py "x", VInt 1)]] ++ VInt 5 :: [VDict []]))]
  = Raise AttributeError.
Proof.
  apply (proj1 (proj2 (proj2
           (loop_over_non_list_raises no_repr no_alnum
              [(py "L", VList ([VDict [(py "x", VInt 1)]] ++ VInt 5
                                 :: [VDict []]))]
              single_spaces (py "<ul>") (py "v") (py "L") (py "{{ v.x }}")
              (py "</ul>")
              (fun _ _ => eq_refl) eq_refl eq_refl eq_refl eq_refl eq_refl)))
           [VDict [(py "x", VInt 1)]] (VInt 5) [VDict []]);
    reflexivity.
Defined.

(** ** Conditionals *)

(** One match with a non-empty text, then the rest of the text. *)
Lemma re_sub_first (r : regex) (f : rmatch_result -> str) (s : str)
    (m : rmatch_result) :
  bol_free r = true -> re_search r s = Some m -> m_text m <> [] ->
  re_sub r f s = m_pre m ++ f m ++ re_sub r f (m_rest m).
Proof.
  intros Hb Hs Ht. unfold re_search in Hs.
  pose proof (search_from_length _ _ _ _ Hs) as L.
  unfold re_sub at 1. unfold finditer. rewrite finditer_go_S, Hs.
  destruct (m_text m) as [|c t] eqn:T; [contradiction|].
  rewrite (finditer_go_prev r _ _ None _ Hb).
  rewrite (finditer_go_fuel r _ (S (length (m_rest m))))
    by (simpl in L; lia).
  unfold re_sub, finditer.
  destruct (finditer_go (S (length (m_rest m))) r None (m_rest m)) as [ms tail].
  cbn [flat_map]. now rewrite <- !app_assoc.
Qed.

(** The pattern read on a conditional, piece by piece. *)
Lemma cond_pattern_expr (ua : char -> bool) (a var c b post : str)
    (prev : option char) :
  a <> [] -> quote_free a = true -> is_name var = true ->
  c <> [] -> quote_free c = true -> quote_free b = true ->
  match_at (cond_pattern ua) prev
    (py "{{" ++ py " " ++ py "'" ++ a ++ py "'" ++ py " " ++ py "if"
       ++ py " " ++ var ++ py " " ++ py "==" ++ py " " ++ py "'" ++ c
       ++ py "'" ++ py " " ++ py "else" ++ py " " ++ py "'" ++ b ++ py "'"
       ++ py " " ++ py "}}" ++ post)
  = Some (MState (Some 125%N) post [(4, b); (3, c); (2, var); (1, a)]).
Proof.
  intros Na Qa Hvar Nc Qc Qb.
  destruct (is_name_inv _ Hvar) as [Nv Wv].
  unfold match_at, cond_pattern, seqs. cbn [fold_right].
  rewrite rmatch_Seq, rmatch_Lit_app.
  rewrite rmatch_Seq. apply rmatch_Star_run; [reflexivity|reflexivity|].
  rewrite rmatch_Seq, rmatch_Lit_app.
  rewrite rmatch_Seq, rmatch_Group.
  apply rmatch_Plus_run; [assumption|assumption|reflexivity|].
  cbn [st_prev st_rest st_caps]. rewrite consumed_app.
  rewrite rmatch_Seq, rmatch_Lit_app.
  rewrite rmatch_Seq.
  apply rmatch_Plus_run; [discriminate|reflexivity|reflexivity|].
  rewrite rmatch_Seq, rmatch_Lit_app.
  rewrite rmatch_Seq.
  apply rmatch_Plus_run;
    [discriminate|reflexivity|now apply name_stops_space|].
  rewrite rmatch_Seq, rmatch_Group.
  apply rmatch_Plus_run; [assumption|now apply forallb_is_word|reflexivity|].
  cbn [st_prev st_rest st_caps]. rewrite consumed_app.
  rewrite rmatch_Seq. apply rmatch_Star_run; [reflexivity|reflexivity|].
  rewrite rmatch_Seq, rmatch_Lit_app.
  rewrite rmatch_Seq. apply rmatch_Star_run; [reflexivity|reflexivity|].
  rewrite rmatch_Seq, rmatch_Lit_app.
  rewrite rmatch_Seq, rmatch_Group.
  apply rmatch_Plus_run; [assumption|assumption|reflexivity|].
  cbn [st_prev st_rest st_caps]. rewrite consumed_app.
  rewrite rmatch_Seq, rmatch_Lit_app.
  rewrite rmatch_Seq.
  apply rmatch_Plus_run; [discriminate|reflexivity|reflexivity|].
  rewrite rmatch_Seq, rmatch_Lit_app.
  rewrite rmatch_Seq. apply rmatch_Star_run; [reflexivity|reflexivity|].
  rewrite rmatch_Seq, rmatch_Lit_app.
  rewrite rmatch_Seq, rmatch_Group.
  apply rmatch_Star_run; [assumption|reflexivity|].
  cbn [st_prev st_rest st_caps]. rewrite consumed_app.
  rewrite rmatch_Seq, rmatch_Lit_app.
  rewrite rmatch_Seq. apply rmatch_Star_run; [reflexivity|reflexivity|].
  rewrite rmatch_Seq, rmatch_Lit_app.
  reflexivity.
Qed.

Lemma cond_pieces (a var c b post : str) :
  cond_expr a var c b ++ post
  = py "{{" ++ py " " ++ py "'" ++ a ++ py "'" ++ py " " ++ py "if"
      ++ py " " ++ var ++ py " " ++ py "==" ++ py " " ++ py "'" ++ c
      ++ py "'" ++ py " " ++ py "else" ++ py " " ++ py "'" ++ b ++ py "'"
      ++ py " " ++ py "}}" ++ post.
Proof.
  unfold cond_expr. rewrite <- !app_assoc. reflexivity.
Qed.

Lemma cond_pattern_search (ua : char -> bool) (pre a var c b post : str) :
  ~ In 123%N pre ->
  a <> [] -> quote_free a = true -> is_name var = true ->
  c <> [] -> quote_free c = true -> quote_free b = true ->
  forall prev,
    search_from (cond_pattern ua) prev (pre ++ cond_expr a var c b ++ post)
    = Some (MatchResult pre (cond_expr a var c b)
              [(4, b); (3, c); (2, var); (1, a)] post).
Proof.
  intros Hpre Na Qa Hvar Nc Qc Qb.
  induction pre as [|x pre IH]; intros prev; rewrite search_from_eq.
  - cbn [app]. rewrite cond_pieces at 1.
    rewrite cond_pattern_expr by assumption. cbn [st_rest st_caps].
    do 2 f_equal. rewrite length_app.
    replace (length (cond_expr a var c b) + length post - length post)
      with (length (cond_expr a var c b)) by lia.
    now rewrite firstn_app, Nat.sub_diag, firstn_all, app_nil_r.
  - rewrite cond_pattern_needs_braces.
    + cbn [app]. rewrite IH; [reflexivity|]. intros F. apply Hpre. now right.
    + cbn [app]. destruct (startswith _ (py "{{")) eqn:E; [|reflexivity].
      change (py "{{") with (123%N :: [123%N]) in E.
      apply startswith_head in E as [s' E]. injection E as -> _.
      exfalso. apply Hpre. now left.
Qed.

(** X4: a conditional [{{ 'a' if var == 'c' else 'b' }}] is replaced by
    [a] when the context binds [var] to the string [c], and by [b]
    otherwise, in particular when [var] is absent or bound to a value that
    is not a string; the text before it (without braces) is kept and the
    text after it is resolved in the same way. *)
Theorem conditional_resolution (ua : char -> bool) (context : pydict)
    (pre a var c b post : str) :
  ~ In 123%N pre ->
  a <> [] -> quote_free a = true -> is_name var = true ->
  c <> [] -> quote_free c = true -> quote_free b = true ->
  resolve_conditionals ua context (pre ++ cond_expr a var c b ++ post)
  = pre ++ (if eq_str (get context var VNone) c then a else b)
      ++ resolve_conditionals ua context post /\
  (get context var VNone = VStr c ->
   resolve_conditionals ua context (pre ++ cond_expr a var c b ++ post)
   = pre ++ a ++ resolve_conditionals ua context post) /\
  (lookup var context = None ->
   resolve_conditionals ua context (pre ++ cond_expr a var c b ++ post)
   = pre ++ b ++ resolve_conditionals ua context post).
Proof.
  intros Hpre Na Qa Hvar Nc Qc Qb.
  assert (E : resolve_conditionals ua context
                (pre ++ cond_expr a var c b ++ post)
              = pre ++ (if eq_str (get context var VNone) c then a else b)
                  ++ resolve_conditionals ua context post).
  { unfold resolve_conditionals.
    rewrite (re_sub_first (cond_pattern ua) _ _
               (MatchResult pre (cond_expr a var c b)
                  [(4, b); (3, c); (2, var); (1, a)] post)).
    - reflexivity.
    - reflexivity.
    - now apply cond_pattern_search.
    - discriminate. }
  split; [exact E|]. split.
  - intros H. rewrite E, H. cbn [eq_str]. now rewrite str_eqb_refl.
  - intros H. rewrite E. unfold get. now rewrite H.
Qed.

Lemma conditional_resolution_witness :
  resolve_conditionals no_alnum [(py "lang", VStr (py "fr"))]
    (py "<a class=" ++ cond_expr (py "active") (py "lang") (py "fr") [] ++ py ">")
  = py "<a class=" ++ py "active"
      ++ resolve_conditionals no_alnum [(py "lang", VStr (py "fr"))] (py ">").
Proof.
  apply (proj1 (proj2 (conditional_resolution no_alnum
                         [(py "lang", VStr (py "fr"))]
                         (py "<a class=") (py "active") (py "lang") (py "fr") []
                         (py ">")
                         ltac:(apply lacks_In; reflexivity)
                         ltac:(discriminate) eq_refl eq_refl
                         ltac:(discriminate) eq_refl eq_refl))).
  reflexivity.
Defined.

(* ================================================================== *)
(** * More on the Markdown converter *)
(* ================================================================== *)

(** ** Bullet lines *)

Lemma lstrip_split (s : str) : s = leading_spaces s ++ lstrip s.
Proof.
  induction s as [|c s IH]; [reflexivity|].
  cbn [leading_spaces lstrip]. destruct (isspace c); [|reflexivity].
  cbn [app]. now f_equal.
Qed.

Lemma leading_spaces_space (s : str) : forallb isspace (leading_spaces s) = true.
Proof.
  induction s as [|c s IH]; [reflexivity|].
  cbn [leading_spaces]. destruct (isspace c) eqn:E; [|reflexivity].
  cbn [forallb]. now rewrite E.
Qed.

Lemma lstrip_stops (s : str) : run_stops isspace (lstrip s).
Proof.
  induction s as [|c s IH]; [exact I|].
  cbn [lstrip]. destruct (isspace c) eqn:E; [assumption|exact E].
Qed.

Lemma rmatch_Bol_start (st_rest0 : str) (caps : list (nat * str)) (k : cont) :
  rmatch Bol (MState None st_rest0 caps) k = k (MState None st_rest0 caps).
Proof. reflexivity. Qed.

Lemma rmatch_Bol_inside (x : char) (s : str) (caps : list (nat * str))
    (k : cont) :
  x <> 10%N -> rmatch Bol (MState (Some x) s caps) k = None.
Proof.
  intros H. cbn [rmatch st_prev].
  destruct (N.eqb x 10) eqn:E; [|reflexivity].
  apply N.eqb_eq in E. contradiction.
Qed.

Lemma rmatch_Chr_nil (p : char -> bool) (prev : option char)
    (caps : list (nat * str)) (k : cont) :
  rmatch (Chr p) (MState prev [] caps) k = None.
Proof. reflexivity. Qed.

(** The pattern at the start of a line. *)
Lemma bullet_match_at (line : str) :
  match_at bullet_pattern None line =
  match line with
  | c :: w :: t =>
      if bullet_char c && isspace w
      then Some (MState (prev_after (Some w) (leading_spaces t)) (lstrip t) [])
      else None
  | _ => None
  end.
Proof.
  unfold match_at, bullet_pattern, seqs. cbn [fold_right].
  rewrite rmatch_Seq, rmatch_Bol_start, rmatch_Seq.
  destruct line as [|c line]; [reflexivity|].
  rewrite rmatch_Chr_cons. destruct (bullet_char c); [|now destruct line].
  rewrite rmatch_Seq. unfold Plus. rewrite rmatch_Seq.
  destruct line as [|w t]; [reflexivity|].
  rewrite rmatch_Chr_cons. destruct (isspace w); [|reflexivity].
  cbn [andb]. rewrite (lstrip_split t) at 1.
  apply rmatch_Star_run.
  - apply leading_spaces_space.
  - apply lstrip_stops.
  - reflexivity.
Qed.

Lemma is_bullet_spec (line : str) : is_bullet line = starts_with_bullet line.
Proof.
  unfold is_bullet, re_match. rewrite bullet_match_at.
  destruct line as [|c [|w t]]; try reflexivity.
  cbn [starts_with_bullet]. now destruct (bullet_char c && isspace w).
Qed.

Lemma bullet_match_inside (x : char) (s : str) :
  x <> 10%N -> match_at bullet_pattern (Some x) s = None.
Proof.
  intros H. unfold match_at, bullet_pattern, seqs. cbn [fold_right].
  rewrite rmatch_Seq. now apply rmatch_Bol_inside.
Qed.

(** Inside a line the pattern matches nowhere: [^] needs a newline. *)
Lemma bullet_search_inside (s : str) :
  ~ In 10%N s ->
  forall x, x <> 10%N -> search_from bullet_pattern (Some x) s = None.
Proof.
  induction s as [|c s IH]; intros Hs x Hx; rewrite search_from_eq;
    rewrite bullet_match_inside by assumption; [reflexivity|].
  rewrite IH; [reflexivity| |].
  - intros F. apply Hs. now right.
  - intros ->. apply Hs. now left.
Qed.

Lemma last_In (s : str) (d : char) : s <> [] -> In (last s d) s.
Proof.
  induction s as [|c s IH]; [contradiction|]. intros _.
  destruct s as [|c' s]; [now left|].
  right. apply IH. discriminate.
Qed.

Lemma leading_spaces_In (x : char) (s : str) :
  In x (leading_spaces s) -> In x s.
Proof.
  induction s as [|c s IH]; [tauto|]. cbn [leading_spaces].
  destruct (isspace c); [|contradiction]. intros [H|H]; [now left|right; auto].
Qed.

Lemma lstrip_In (x : char) (s : str) : In x (lstrip s) -> In x s.
Proof.
  induction s as [|c s IH]; [tauto|]. cbn [lstrip].
  destruct (isspace c); [right; auto | tauto].
Qed.

Lemma firstn_prefix (a b : str) :
  firstn (length (a ++ b) - length b) (a ++ b) = a.
Proof.
  rewrite length_app.
  replace (length a + length b - length b) with (length a) by lia.
  now rewrite firstn_app, Nat.sub_diag, firstn_all, app_nil_r.
Qed.

Lemma bullet_search_start (c w : char) (t : str) :
  bullet_char c && isspace w = true ->
  search_from bullet_pattern None (c :: w :: t)
  = Some (MatchResult [] (c :: w :: leading_spaces t) [] (lstrip t)).
Proof.
  intros B. rewrite search_from_eq, bullet_match_at, B.
  cbn [st_rest st_caps]. do 2 f_equal.
  assert (D : c :: w :: t = (c :: w :: leading_spaces t) ++ lstrip t)
    by (cbn [app]; now rewrite <- lstrip_split).
  rewrite D. apply firstn_prefix.
Qed.

Lemma bullet_search_none (line : str) :
  ~ In 10%N line -> starts_with_bullet line = false ->
  search_from bullet_pattern None line = None.
Proof.
  intros Hl B. rewrite search_from_eq, bullet_match_at.
  destruct line as [|c line]; [reflexivity|].
  assert (R : search_from bullet_pattern (Some c) line = None).
  { apply bullet_search_inside.
    - intros F. apply Hl. now right.
    - intros ->. apply Hl. now left. }
  rewrite R. destruct line as [|w t]; [reflexivity|].
  cbn [starts_with_bullet] in B. now rewrite B.
Qed.

Lemma strip_bullet_spec (line : str) :
  ~ In 10%N line ->
  strip_bullet line = if is_bullet line then lstrip (tl line) else line.
Proof.
  intros Hl. rewrite is_bullet_spec.
  unfold strip_bullet, re_sub, finditer. rewrite finditer_go_S.
  destruct (starts_with_bullet line) eqn:B.
  - destruct line as [|c [|w t]]; try discriminate.
    cbn [starts_with_bullet] in B. rewrite (bullet_search_start c w t B).
    apply andb_true_iff in B as [_ Bw].
    cbn [m_text m_rest length tl lstrip]. rewrite Bw.
    rewrite finditer_go_S, bullet_search_inside.
    + reflexivity.
    + intros F. apply lstrip_In in F. apply Hl. now do 2 right.
    + intros E.
      assert (I : In (last (c :: w :: leading_spaces t) 0%N)
                    (c :: w :: leading_spaces t)) by (apply last_In; discriminate).
      rewrite E in I. apply Hl.
      destruct I as [I|[I|I]]; [now left | right; now left |].
      do 2 right. now apply leading_spaces_In.
  - now rewrite bullet_search_none.
Qed.

(** X5: a line is a bullet line exactly when it starts with a bullet or a
    hyphen followed by a whitespace character; the item made from a bullet
    line without newline is the line without its marker and the whitespace
    that follows it, and a line that is not a bullet line is left as it
    is. *)
Theorem bullet_line_item (line : str) :
  ~ In 10%N line ->
  is_bullet line = starts_with_bullet line /\
  (is_bullet line = true -> strip_bullet line = lstrip (tl line)) /\
  (is_bullet line = false -> strip_bullet line = line).
Proof.
  intros H. split; [apply is_bullet_spec|].
  rewrite (strip_bullet_spec line H).
  split; intros ->; reflexivity.
Qed.

Lemma bullet_line_item_witness :
  is_bullet (py "-   item one") = starts_with_bullet (py "-   item one") /\
  (is_bullet (py "-   item one") = true ->
   strip_bullet (py "-   item one") = lstrip (tl (py "-   item one"))) /\
  (is_bullet (py "-   item one") = false ->
   strip_bullet (py "-   item one") = py "-   item one").
Proof.
  apply bullet_line_item. vm_compute. intuition discriminate.
Defined.
(** ** Blocks of one kind *)

Lemma py_split_join_lines (lines : list str) :
  lines <> [] -> Forall (fun l => ~ In 10%N l) lines ->
  py_split (join nl lines) nl = lines.
Proof.
  induction lines as [|a lines IH]; [contradiction|]. intros _ H.
  inversion H as [|? ? Ha Hrest]; subst.
  destruct lines as [|b lines].
  - cbn [join]. now apply py_split_last.
  - change (join nl (a :: b :: lines)) with (a ++ nl ++ join nl (b :: lines)).
    rewrite py_split_line by assumption. f_equal.
    apply IH; [discriminate|assumption].
Qed.

Lemma filter_all {A : Type} (f : A -> bool) (l : list A) :
  forallb f l = true -> filter f l = l.
Proof.
  induction l as [|a l IH]; [reflexivity|]. cbn [forallb filter].
  intros H. apply andb_true_iff in H as [Ha Hl]. now rewrite Ha, IH.
Qed.

Lemma filter_none {A : Type} (f : A -> bool) (l : list A) :
  forallb (fun a => negb (f a)) l = true -> filter f l = [].
Proof.
  induction l as [|a l IH]; [reflexivity|]. cbn [forallb filter].
  intros H. apply andb_true_iff in H as [Ha Hl].
  destruct (f a); [discriminate|]. now apply IH.
Qed.

Lemma rstrip_In (x : char) (s : str) : In x (rstrip s) -> In x s.
Proof.
  unfold rstrip. intros H. apply in_rev in H. apply lstrip_In in H.
  now apply in_rev.
Qed.

Lemma strip_In (x : char) (s : str) : In x (strip s) -> In x s.
Proof.
  unfold strip. intros H. apply rstrip_In in H. now apply lstrip_In.
Qed.

(** X6: a block whose lines are all bullet lines becomes one unordered
    list with one item per line, in the order of the lines, each item the
    trimmed line without its marker and the whitespace after it; no
    paragraph is emitted. *)
Theorem all_bullet_block (lines : list str) :
  lines <> [] ->
  Forall (fun l => ~ In 10%N l) lines ->
  forallb (fun l => is_bullet (strip l)) lines = true ->
  paragraph_html (join nl lines)
  = ul (map (fun l => lstrip (tl (strip l))) lines).
Proof.
  intros Hne Hnl Hb. unfold paragraph_html.
  rewrite py_split_join_lines by assumption.
  rewrite filter_all by assumption.
  rewrite Nat.eqb_refl. destruct lines as [|a lines]; [contradiction|].
  cbn [nonempty andb]. f_equal. apply map_ext_in.
  intros l Hin. rewrite strip_bullet_spec.
  - rewrite forallb_forall in Hb. now rewrite (Hb l Hin).
  - rewrite Forall_forall in Hnl. intros F. apply strip_In in F.
    now apply (Hnl l Hin).
Qed.

Lemma all_bullet_block_witness :
  paragraph_html (join nl [py "- a"; py "  -  b "; [8226%N; 32%N; 99%N]])
  = ul (map (fun l => lstrip (tl (strip l)))
          [py "- a"; py "  -  b "; [8226%N; 32%N; 99%N]]).
Proof.
  apply all_bullet_block.
  - discriminate.
  - repeat constructor; vm_compute; intuition discriminate.
  - reflexivity.
Defined.

(** X7: a block without any bullet line becomes one paragraph: its lines
    are trimmed, the blank ones dropped, and the others joined by [<br>]. *)
Theorem plain_block (lines : list str) :
  lines <> [] ->
  Forall (fun l => ~ In 10%N l) lines ->
  forallb (fun l => negb (is_bullet (strip l))) lines = true ->
  paragraph_html (join nl lines)
  = paragraph (join (py "<br>")
                 (map strip (filter (fun l => nonempty (strip l)) lines))).
Proof.
  intros Hne Hnl Hb. unfold paragraph_html.
  rewrite py_split_join_lines by assumption.
  now rewrite filter_none by assumption.
Qed.

Lemma plain_block_witness :
  paragraph_html (join nl [py "line one "; py "   "; py " line two"])
  = paragraph (join (py "<br>")
                 (map strip (filter (fun l => nonempty (strip l))
                               [py "line one "; py "   "; py " line two"]))).
Proof.
  apply plain_block.
  - discriminate.
  - repeat constructor; vm_compute; intuition discriminate.
  - reflexivity.
Defined.

(** ** Texts of one line *)

Lemma py_split_no_sep (c : char) (sep s : str) :
  ~ In c s -> py_split s (c :: sep) = [s].
Proof.
  intros Hs. unfold py_split.
  assert (H : forall n cur, length s < n ->
                split_go n (c :: sep) cur s = [rev cur ++ s]).
  { induction s as [|d s IH]; intros n cur Hn.
    - destruct n; [lia|]. simpl. now rewrite app_nil_r.
    - destruct n; [lia|]. rewrite split_go_cons.
      rewrite startswith_diff by (intros ->; apply Hs; now left).
      rewrite IH; [|intros F; apply Hs; now right|simpl in Hn; lia].
      simpl. now rewrite <- app_assoc. }
  rewrite H by lia. reflexivity.
Qed.

(** A text that is one line after the links are rewritten. *)
Lemma markdown_one_line (text : str) :
  let line := rewrite_links text in
  strip line = line -> line <> [] -> ~ In 10%N line ->
  is_bullet line = false ->
  markdown_text text = paragraph line.
Proof.
  intros line Hs Hne Hnl Hb. unfold markdown_text.
  fold (rewrite_links text). fold line. rewrite Hs.
  change (nl ++ nl) with (10%N :: nl).
  rewrite py_split_no_sep by assumption.
  cbn [map]. rewrite Hs. destruct line as [|c l] eqn:E; [contradiction|].
  cbn [nonempty filter map join]. rewrite <- E in *.
  unfold paragraph_html. rewrite (py_split_last line Hnl).
  cbn [filter]. rewrite Hs, Hb. cbn [nonempty andb].
  rewrite E at 1. cbn [nonempty]. cbn [map join]. now rewrite Hs.
Qed.

Lemma link_pattern_needs_bracket (prev : option char) (s : str) :
  startswith s (py "[") = false -> match_at link_pattern prev s = None.
Proof.
  intros H. unfold match_at, link_pattern, seqs. cbn [fold_right].
  rewrite rmatch_Seq. now apply rmatch_Lit_miss.
Qed.

Lemma link_pattern_absent (s : str) :
  ~ In 91%N s -> forall prev, search_from link_pattern prev s = None.
Proof.
  induction s as [|c s IH]; intros H prev; rewrite search_from_eq.
  - now rewrite link_pattern_needs_bracket.
  - rewrite link_pattern_needs_bracket.
    + rewrite IH; [reflexivity|]. intros F. apply H. now right.
    + change (py "[") with [91%N]. apply startswith_diff.
      intros <-. apply H. now left.
Qed.

Lemma rewrite_links_absent (s : str) : ~ In 91%N s -> rewrite_links s = s.
Proof.
  intros H. apply re_sub_no_match. now apply link_pattern_absent.
Qed.

(** X8: a text of one line that has no surrounding whitespace, no link
    and no bullet marker is wrapped in one paragraph as it is: nothing in
    it is escaped or changed, markup included. *)
Theorem single_paragraph_verbatim (text : str) :
  strip text = text -> text <> [] ->
  ~ In 10%N text -> ~ In 91%N text -> is_bullet text = false ->
  markdown_to_html_str text = paragraph text.
Proof.
  intros Hs Hne Hnl Hlk Hb. unfold markdown_to_html_str.
  destruct text as [|c t] eqn:E; [contradiction|]. cbn [nonempty].
  rewrite <- E in *. rewrite markdown_one_line;
    rewrite rewrite_links_absent by assumption; auto.
Qed.

Lemma single_paragraph_verbatim_witness :
  markdown_to_html_str (py "a <b>bold</b> & <i>it</i>")
  = paragraph (py "a <b>bold</b> & <i>it</i>").
Proof.
  apply single_paragraph_verbatim;
    solve [reflexivity | discriminate | vm_compute; intuition discriminate].
Defined.
(** ** Links *)

Lemma not_In_forallb (x : char) (s : str) :
  ~ In x s -> forallb (fun c => negb (N.eqb c x)) s = true.
Proof.
  induction s as [|c s IH]; intros H; [reflexivity|]. cbn [forallb].
  rewrite IH by (intros F; apply H; now right).
  destruct (N.eqb c x) eqn:E; [|reflexivity].
  apply N.eqb_eq in E. subst. exfalso. apply H. now left.
Qed.

(** The pattern read on a link, piece by piece. *)
Lemma link_pattern_link (label target post : str) (prev : option char) :
  label <> [] -> ~ In 93%N label -> target <> [] -> ~ In 41%N target ->
  match_at link_pattern prev
    (py "[" ++ label ++ py "](" ++ target ++ py ")" ++ post)
  = Some (MState (Some 41%N) post [(2, target); (1, label)]).
Proof.
  intros Nl Hl Nt Ht.
  unfold match_at, link_pattern, seqs. cbn [fold_right].
  rewrite rmatch_Seq, rmatch_Lit_app.
  rewrite rmatch_Seq, rmatch_Group.
  apply rmatch_Plus_run;
    [assumption|now apply not_In_forallb|reflexivity|].
  cbn [st_prev st_rest st_caps]. rewrite consumed_app.
  rewrite rmatch_Seq, rmatch_Lit_app.
  rewrite rmatch_Seq, rmatch_Group.
  apply rmatch_Plus_run;
    [assumption|now apply not_In_forallb|reflexivity|].
  cbn [st_prev st_rest st_caps]. rewrite consumed_app.
  rewrite rmatch_Seq, rmatch_Lit_app.
  reflexivity.
Qed.

Lemma link_pattern_search (pre label target post : str) :
  ~ In 91%N pre ->
  label <> [] -> ~ In 93%N label -> target <> [] -> ~ In 41%N target ->
  forall prev,
    search_from link_pattern prev (pre ++ md_link label target ++ post)
    = Some (MatchResult pre (md_link label target)
              [(2, target); (1, label)] post).
Proof.
  intros Hpre Nl Hl Nt Ht.
  induction pre as [|x pre IH]; intros prev; rewrite search_from_eq.
  - cbn [app]. unfold md_link at 1. rewrite <- !app_assoc.
    rewrite link_pattern_link by assumption. cbn [st_rest st_caps].
    do 2 f_equal.
    replace (py "[" ++ label ++ py "](" ++ target ++ py ")" ++ post)
      with (md_link label target ++ post)
      by (unfold md_link; now rewrite <- !app_assoc).
    apply firstn_prefix.
  - rewrite link_pattern_needs_bracket.
    + cbn [app]. rewrite IH; [reflexivity|]. intros F. apply Hpre. now right.
    + cbn [app]. change (py "[") with [91%N]. apply startswith_diff.
      intros <-. apply Hpre. now left.
Qed.

Lemma rewrite_links_first (pre label target post : str) :
  ~ In 91%N pre ->
  label <> [] -> ~ In 93%N label -> target <> [] -> ~ In 41%N target ->
  rewrite_links (pre ++ md_link label target ++ post)
  = pre ++ anchor label target ++ rewrite_links post.
Proof.
  intros Hpre Nl Hl Nt Ht. unfold rewrite_links.
  rewrite (re_sub_first link_pattern _ _
             (MatchResult pre (md_link label target)
                [(2, target); (1, label)] post)).
  - reflexivity.
  - reflexivity.
  - now apply link_pattern_search.
  - discriminate.
Qed.

Lemma lstrip_fixed (c : char) (s : str) :
  isspace c = false -> lstrip (c :: s) = c :: s.
Proof. intros H. cbn [lstrip]. now rewrite H. Qed.

Lemma strip_fixed (c d : char) (s : str) :
  isspace c = false -> isspace d = false ->
  strip (c :: s ++ [d]) = c :: s ++ [d].
Proof.
  intros Hc Hd. unfold strip. rewrite lstrip_fixed by assumption.
  unfold rstrip. change (c :: s ++ [d]) with ((c :: s) ++ [d]).
  rewrite rev_app_distr. cbn [rev app].
  rewrite lstrip_fixed by assumption.
  change (d :: rev s ++ [c]) with ([d] ++ rev (c :: s)).
  now rewrite rev_app_distr, rev_involutive.
Qed.

(** X9: a link [[label](target)] is rewritten to an anchor that opens
    [target] in a new browsing context and shows [label], wherever it
    stands: the text before it (without an opening bracket) is kept and
    the text after it is rewritten in the same way.  A text that is one
    such link, on one line, becomes a paragraph holding the anchor. *)
Theorem link_becomes_anchor (pre label target post : str) :
  ~ In 91%N pre ->
  label <> [] -> ~ In 93%N label -> target <> [] -> ~ In 41%N target ->
  rewrite_links (pre ++ md_link label target ++ post)
  = pre ++ anchor label target ++ rewrite_links post /\
  (~ In 10%N label -> ~ In 10%N target ->
   markdown_to_html_str (md_link label target)
   = paragraph (anchor label target)).
Proof.
  intros Hpre Nl Hl Nt Ht.
  split; [now apply rewrite_links_first|].
  intros Ll Lt.
  assert (R : rewrite_links (md_link label target) = anchor label target).
  { pose proof (rewrite_links_first [] label target []) as H.
    cbn [app] in H. rewrite app_nil_r in H. rewrite H; auto.
    now rewrite app_nil_r. }
  unfold markdown_to_html_str. change (nonempty (md_link label target)) with true.
  cbv iota. rewrite <- R. apply markdown_one_line; rewrite R.
  - unfold anchor.
    change (py "<a href=" ++ dq ++ target ++ dq ++ py " target=" ++ dq
              ++ py "_blank" ++ dq ++ py ">" ++ label ++ py "</a>")
      with (60%N :: (py "a href=" ++ dq ++ target ++ dq ++ py " target=" ++ dq
              ++ py "_blank" ++ dq ++ py ">" ++ label ++ py "</a>")).
    replace (py "a href=" ++ dq ++ target ++ dq ++ py " target=" ++ dq
               ++ py "_blank" ++ dq ++ py ">" ++ label ++ py "</a>")
      with ((py "a href=" ++ dq ++ target ++ dq ++ py " target=" ++ dq
               ++ py "_blank" ++ dq ++ py ">" ++ label ++ py "</a") ++ [62%N])
      by (rewrite <- !app_assoc; reflexivity).
    now apply strip_fixed.
  - discriminate.
  - unfold anchor. rewrite !in_app_iff.
    intros F. repeat destruct F as [F|F];
      solve [ simpl in F; intuition discriminate | contradiction ].
  - rewrite is_bullet_spec. reflexivity.
Qed.

Lemma link_becomes_anchor_witness :
  rewrite_links (py "see " ++ md_link (py "my page") (py "https://a.b/c") ++ py ".")
  = py "see " ++ anchor (py "my page") (py "https://a.b/c")
      ++ rewrite_links (py ".") /\
  markdown_to_html_str (md_link (py "my page") (py "https://a.b/c"))
  = paragraph (anchor (py "my page") (py "https://a.b/c")).
Proof.
  assert (Hpre : ~ In 91%N (py "see ")) by (apply lacks_In; reflexivity).
  assert (Nl : py "my page" <> []) by discriminate.
  assert (Hl : ~ In 93%N (py "my page")) by (apply lacks_In; reflexivity).
  assert (Nt : py "https://a.b/c" <> []) by discriminate.
  assert (Ht : ~ In 41%N (py "https://a.b/c"))
    by (apply lacks_In; reflexivity).
  pose proof (link_becomes_anchor (py "see ") (py "my page") (py "https://a.b/c")
                (py ".") Hpre Nl Hl Nt Ht) as [H1 H2].
  split; [exact H1|].
  apply H2; apply lacks_In; reflexivity.
Defined.

(* ================================================================== *)

(* ================================================================== *)
(** * More on the context builder *)
(* ================================================================== *)

Section BuilderMore.

Variable repr : value -> res str.

Lemma get_text_dict (d : pydict) (key lang : str) :
  text_ok repr d key = true ->
  get_text repr (VDict d) key lang = Ok (text_of repr d key lang).
Proof.
  unfold get_text, text_of, text_ok. cbn [vget bind].
  destruct (get d key (VDict [])) as [|b|z|s|l|kv] eqn:E;
    try reflexivity;
    (destruct (py_str repr _) as [t|e]; [reflexivity|discriminate]).
Qed.

Lemma get_text_inv (d : pydict) (key lang : str) (t : value) :
  get_text repr (VDict d) key lang = Ok t ->
  text_ok repr d key = true /\ t = text_of repr d key lang.
Proof.
  unfold get_text, text_of, text_ok. cbn [vget bind].
  destruct (get d key (VDict [])) as [|b|z|s|l|kv] eqn:E;
    try (intros [= <-]; now split);
    (destruct (py_str repr _) as [u|e]; [|discriminate];
     intros [= <-]; now split).
Qed.

Lemma is_dict_section (cfg : pydict) (key : str) :
  is_dict (get cfg key (VDict [])) = true ->
  get cfg key (VDict []) = VDict (section cfg key).
Proof.
  unfold section. now destruct (get cfg key (VDict [])).
Qed.

Lemma is_str_str_of (d : pydict) (key : str) :
  is_str (get d key (VStr [])) = true ->
  get d key (VStr []) = VStr (str_of d key).
Proof.
  unfold str_of. now destruct (get d key (VStr [])).
Qed.

Lemma labels_table (lang : str) :
  get nav_labels lang (get nav_labels (py "fr") VNone) = VDict (nav_table lang).
Proof.
  unfold get, nav_table. cbn [lookup nav_labels].
  destruct (str_eqb lang (py "fr")); [reflexivity|].
  destruct (str_eqb lang (py "en")); reflexivity.
Qed.

(** The loops. *)
Lemma process_videos_ok (lang : str) (l : list value) :
  forallb (video_ok repr) l = true ->
  process_videos repr lang l = Ok (videos_of repr lang l).
Proof.
  induction l as [|v l IH]; [reflexivity|].
  cbn [forallb]. intros H. apply andb_true_iff in H as [Hv Hl].
  destruct v as [| | | | |d]; try discriminate.
  cbn [video_ok] in Hv. apply andb_true_iff in Hv as [Hu Ht].
  cbn [process_videos vget bind].
  rewrite (is_str_str_of _ _ Hu). cbn [v_extract_youtube_id bind].
  change (videos_of repr lang (VDict d :: l))
    with ((if has_video_id d then [video_entry repr lang d] else [])
            ++ videos_of repr lang l).
  unfold has_video_id in *.
  destruct (nonempty (extract_youtube_id (str_of d (py "url")))).
  - cbn [negb orb] in Ht. rewrite get_text_dict by exact Ht.
    cbn [bind]. now rewrite IH.
  - now apply IH.
Qed.

Lemma process_videos_inv (lang : str) (l out : list value) :
  process_videos repr lang l = Ok out -> forallb (video_ok repr) l = true.
Proof.
  revert out. induction l as [|v l IH]; intros out H; [reflexivity|].
  cbn [process_videos] in H.
  destruct v as [| | | | |d]; try discriminate.
  cbn [vget bind] in H. cbn [forallb video_ok].
  unfold has_video_id, str_of.
  destruct (get d (py "url") (VStr [])) as [| | |u| |]; try discriminate.
  cbn [v_extract_youtube_id bind is_str andb] in *.
  destruct (nonempty (extract_youtube_id u)).
  - inv_bind H. cbn [negb orb].
    match goal with
    | E : get_text _ _ _ _ = Ok _ |- _ => apply get_text_inv in E as [-> _]
    end.
    cbn [andb]. eauto.
  - cbn [negb orb andb]. eauto.
Qed.

Lemma process_decouvertes_ok (lang : str) (l : list value) :
  forallb (decouverte_ok repr) l = true ->
  mapM (process_decouverte repr lang) l
  = Ok (map (decouverte_entry repr lang) l).
Proof.
  induction l as [|v l IH]; [reflexivity|].
  cbn [forallb]. intros H. apply andb_true_iff in H as [Hv Hl].
  destruct v as [| | | | |d]; try discriminate.
  cbn [decouverte_ok] in Hv.
  cbn [mapM map]. unfold process_decouverte at 1.
  rewrite get_text_dict by exact Hv. cbn [vget bind decouverte_entry].
  now rewrite IH.
Qed.

Lemma process_decouvertes_inv (lang : str) (l out : list value) :
  mapM (process_decouverte repr lang) l = Ok out ->
  forallb (decouverte_ok repr) l = true.
Proof.
  revert out. induction l as [|v l IH]; intros out H; [reflexivity|].
  cbn [mapM] in H. inv_bind H.
  destruct v as [| | | | |d]; try discriminate.
  cbn [forallb decouverte_ok].
  match goal with
  | E : process_decouverte _ _ _ = Ok _ |- _ =>
      unfold process_decouverte in E; inv_bind E
  end.
  match goal with
  | E : get_text _ _ _ _ = Ok _ |- _ => apply get_text_inv in E as [-> _]
  end.
  cbn [andb]. eauto.
Qed.

Lemma py_iter_ok (ok : value -> bool) (v : value) :
  iterable_ok ok v = true ->
  exists l, py_iter v = Ok l /\ forallb ok l = true /\
            l = match v with VList l => l | _ => [] end.
Proof.
  destruct v as [| | |s|l|kv]; try discriminate; cbn [iterable_ok py_iter].
  - destruct s; [|discriminate]. intros _. exists []. auto.
  - intros H. exists l. auto.
  - destruct kv; [|discriminate]. intros _. exists []. auto.
Qed.

Lemma py_iter_inv (ok : value -> bool) (v : value) (l : list value) :
  (forall s, ok (VStr s) = false) ->
  py_iter v = Ok l -> forallb ok l = true -> iterable_ok ok v = true.
Proof.
  intros Hs. destruct v as [| | |s|l'|kv]; try discriminate;
    cbn [py_iter iterable_ok]; intros H; injection H as <-.
  - destruct s as [|c s]; [reflexivity|]. cbn [map forallb].
    now rewrite Hs.
  - auto.
  - destruct kv as [|[k x] kv]; [reflexivity|]. cbn [map forallb fst].
    now rewrite Hs.
Qed.

Lemma v_strip_ok (v : value) :
  is_str v = true -> v_strip v = Ok (strip_of v).
Proof. now destruct v. Qed.

Lemma markdown_to_html_ok (v : value) :
  markdown_ok v = true -> markdown_to_html v = Ok (markdown_of v).
Proof.
  unfold markdown_ok, markdown_to_html, markdown_to_html_str.
  destruct v as [|b|z|s|l|kv]; cbn [truthy is_str markdown_of].
  - reflexivity.
  - destruct b; simpl; intros; try discriminate; reflexivity.
  - destruct (Z.eqb z 0); simpl; intros; try discriminate; reflexivity.
  - destruct s; reflexivity.
  - destruct (nonempty l); simpl; intros; try discriminate; reflexivity.
  - destruct (nonempty kv); simpl; intros; try discriminate; reflexivity.
Qed.

Lemma markdown_to_html_inv (v out : value) :
  markdown_to_html v = Ok out -> markdown_ok v = true.
Proof.
  unfold markdown_ok, markdown_to_html.
  destruct (negb (truthy v)); [reflexivity|].
  destruct v; try discriminate. reflexivity.
Qed.

Lemma footer_text_initial_ok (cfg : pydict) (lang : str) :
  is_dict (get cfg (py "footer") (VDict [])) = true ->
  text_ok repr (section cfg (py "footer"))
    (if str_eqb lang (py "fr") then py "fr" else py "en") = true ->
  exists a, footer_text_initial repr (VDict cfg) lang = Ok a.
Proof.
  intros H T. unfold footer_text_initial. cbn [vget bind].
  unfold section in T. unfold get in *.
  destruct (lookup (py "footer") cfg) as [v|].
  - destruct v; try discriminate. cbn [is_dict].
    rewrite get_text_dict by exact T. eauto.
  - cbn [is_dict vget]. eauto.
Qed.

Lemma footer_text_initial_inv (cfg : pydict) (lang : str) (a : value) :
  footer_text_initial repr (VDict cfg) lang = Ok a ->
  is_dict (get cfg (py "footer") (VDict [])) = true /\
  text_ok repr (section cfg (py "footer"))
    (if str_eqb lang (py "fr") then py "fr" else py "en") = true.
Proof.
  unfold footer_text_initial, section. cbn [vget bind]. unfold get.
  destruct (lookup (py "footer") cfg) as [v|].
  - destruct v; cbn [is_dict vget bind]; try discriminate.
    intros H. apply get_text_inv in H as [H _]. now split.
  - intros _. now split.
Qed.

End BuilderMore.
Section BuilderCharacterised.

Variable repr : value -> res str.

Lemma build_context_expected (cfg : pydict) (lang : str) :
  well_formed repr cfg lang = true ->
  build_context repr (VDict cfg) lang = Ok (expected_context repr cfg lang).
Proof.
  unfold well_formed. cbv zeta. rewrite !andb_true_iff.
  intros [[[[[[[[[[[[[[[[[[Hm Hv] Hd] Ht] Ha] Had] Hl] Hi2] Hr] Hrt] Hrc2] Hmt] Hat] Hdt] Ho] Hot] Hoc2] Hg] Hf2].
  destruct Hi2 as [Hit Hi]. destruct Hrc2 as [Hrct Hrc].
  destruct Hoc2 as [Hoct Hoc]. destruct Hf2 as [Hf Hft].
  destruct (py_iter_ok _ _ Hv) as (vs & Ev & Fv & Lv).
  destruct (py_iter_ok _ _ Hd) as (ds & Ed & Fd & Ld).
  destruct (footer_text_initial_ok repr cfg lang Hf Hft) as [ft Eft].
  unfold build_context. cbn [vget bind].
  rewrite (is_dict_section _ _ Hm), (is_dict_section _ _ Ha),
    (is_dict_section _ _ Hl), (is_dict_section _ _ Hr),
    (is_dict_section _ _ Ho), (is_dict_section _ _ Hf).
  cbn [vget bind]. rewrite Ev. cbn [bind].
  rewrite (process_videos_ok repr lang vs Fv). cbn [bind].
  rewrite Ed. cbn [bind].
  rewrite (process_decouvertes_ok repr lang ds Fd). cbn [bind].
  rewrite !get_text_dict by assumption. cbn [bind].
  rewrite labels_table. cbn [vget bind].
  rewrite (v_strip_ok _ Hi). cbn [bind].
  rewrite (markdown_to_html_ok _ Hrc). cbn [bind].
  rewrite (markdown_to_html_ok _ Hoc). cbn [bind].
  rewrite (is_str_str_of _ _ Hg). cbn [v_replace bind].
  rewrite Eft. cbn [bind].
  subst vs ds. reflexivity.
Qed.

Lemma vget_Ok_dict (v : value) (k : str) (d a : value) :
  vget v k d = Ok a -> is_dict v = true.
Proof. now destruct v. Qed.

Lemma v_strip_inv (v a : value) : v_strip v = Ok a -> is_str v = true.
Proof. now destruct v. Qed.

Lemma v_replace_inv (v a : value) (old new : str) :
  v_replace v old new = Ok a -> is_str v = true.
Proof. now destruct v. Qed.

Lemma build_context_well_formed (config : value) (lang : str) (ctx : pydict) :
  build_context repr config lang = Ok ctx ->
  exists cfg, config = VDict cfg /\ well_formed repr cfg lang = true.
Proof.
  intros H. unfold build_context in H.
  destruct config as [| | | | |cfg]; try discriminate.
  exists cfg. split; [reflexivity|].
  cbn [vget bind] in H. inv_bind H.
  assert (Hm : is_dict (get cfg (py "medias") (VDict [])) = true).
  { match goal with
    | E : vget (get cfg (py "medias") _) (py "videos") _ = Ok _ |- _ =>
        exact (vget_Ok_dict _ _ _ _ E)
    end. }
  assert (Ha : is_dict (get cfg (py "affiliation") (VDict [])) = true).
  { match goal with
    | E : vget (get cfg (py "affiliation") _) _ _ = Ok _ |- _ =>
        exact (vget_Ok_dict _ _ _ _ E)
    end. }
  assert (Hl : is_dict (get cfg (py "liens") (VDict [])) = true).
  { match goal with
    | E : vget (get cfg (py "liens") _) _ _ = Ok _ |- _ =>
        exact (vget_Ok_dict _ _ _ _ E)
    end. }
  assert (Hr : is_dict (get cfg (py "recherche") (VDict [])) = true).
  { match goal with
    | E : vget (get cfg (py "recherche") _) _ _ = Ok _ |- _ =>
        exact (vget_Ok_dict _ _ _ _ E)
    end. }
  assert (Ho : is_dict (get cfg (py "oiseaux") (VDict [])) = true).
  { match goal with
    | E : vget (get cfg (py "oiseaux") _) _ _ = Ok _ |- _ =>
        exact (vget_Ok_dict _ _ _ _ E)
    end. }
  match goal with
  | E : footer_text_initial _ _ _ = Ok _ |- _ =>
      apply footer_text_initial_inv in E as [Hf Hft]
  end.
  rewrite (is_dict_section _ _ Hm), (is_dict_section _ _ Ha),
    (is_dict_section _ _ Hl), (is_dict_section _ _ Hr),
    (is_dict_section _ _ Ho) in *.
  cbn [vget] in *.
  repeat match goal with
  | E : get_text _ (VDict _) _ _ = Ok _ |- _ =>
      apply get_text_inv in E as [? ->]
  end.
  repeat match goal with
  | E : Ok _ = Ok _ |- _ => injection E as E; try subst
  end.
  repeat match goal with
  | E : process_videos _ _ _ = Ok _ |- _ =>
      apply process_videos_inv in E
  | E : mapM (process_decouverte _ _) _ = Ok _ |- _ =>
      apply process_decouvertes_inv in E
  | E : v_strip _ = Ok _ |- _ => apply v_strip_inv in E
  | E : markdown_to_html _ = Ok _ |- _ => apply markdown_to_html_inv in E
  | E : v_replace _ _ _ = Ok _ |- _ => apply v_replace_inv in E
  end.
  repeat match goal with
  | E : py_iter ?v = Ok ?l, F : forallb ?ok ?l = true |- _ =>
      apply (py_iter_inv ok) in E; [|reflexivity|exact F]; clear F
  end.
  unfold well_formed. cbv zeta.
  repeat match goal with
  | E : _ = true |- _ => rewrite E; clear E
  end.
  reflexivity.
Qed.

(** X10: [build_context] returns a context exactly for the documents that
    are well formed: a mapping whose sections [medias], [affiliation],
    [liens], [recherche], [oiseaux] and [footer] are mappings when they are
    present, whose videos are mappings with a string [url] and whose
    discoveries are mappings, whose texts are mappings or have a string
    form (for a video, when its URL gives an identifier; for the footer,
    its entry for the language of the first computation), whose [intro]
    text is a string, whose [contenu] texts are strings or false values,
    and whose gallery link is a string.  The context is then the one
    written out in [expected_context]; every other document makes it
    raise. *)
Theorem build_context_characterised (config : value) (lang : str)
    (ctx : pydict) :
  build_context repr config lang = Ok ctx <->
  exists cfg,
    config = VDict cfg /\ well_formed repr cfg lang = true /\
    ctx = expected_context repr cfg lang.
Proof.
  split.
  - intros H. destruct (build_context_well_formed _ _ _ H) as (cfg & -> & W).
    exists cfg. split; [reflexivity|]. split; [assumption|].
    rewrite (build_context_expected cfg lang W) in H. congruence.
  - intros (cfg & -> & W & ->). now apply build_context_expected.
Qed.

End BuilderCharacterised.

Lemma build_context_characterised_witness :
  build_context no_repr media_doc (py "en")
  = Ok (expected_context no_repr media_cfg (py "en")).
Proof.
  apply (proj2 (build_context_characterised no_repr media_doc (py "en")
                  (expected_context no_repr media_cfg (py "en")))).
  exists media_cfg. split; [reflexivity|]. split; reflexivity.
Defined.

Section BuilderInvariants.

Variable repr : value -> res str.

Lemma build_context_is_expected (config : value) (lang : str) (ctx : pydict) :
  build_context repr config lang = Ok ctx ->
  exists cfg, config = VDict cfg /\ ctx = expected_context repr cfg lang.
Proof.
  intros H.
  destruct (build_context_well_formed repr _ _ _ H) as (cfg & -> & W).
  exists cfg. split; [reflexivity|].
  rewrite (build_context_expected repr cfg lang W) in H. congruence.
Qed.

Lemma build_context_spec (config : value) (lang : str) (ctx : pydict) :
  build_context repr config lang = Ok ctx ->
  exists cfg,
    config = VDict cfg /\ well_formed repr cfg lang = true /\
    ctx = expected_context repr cfg lang.
Proof.
  intros H.
  destruct (build_context_well_formed repr _ _ _ H) as (cfg & -> & W).
  exists cfg. split; [reflexivity|]. split; [assumption|].
  rewrite (build_context_expected repr cfg lang W) in H. congruence.
Qed.

Lemma text_of_mapping (d : pydict) (key lang : str) (m : pydict) :
  get d key (VDict []) = VDict m -> text_of repr d key lang = bilingual m lang.
Proof. unfold text_of. now intros ->. Qed.

Lemma get_absent (d : pydict) (key : str) (default : value) :
  lookup key d = None -> get d key default = default.
Proof. unfold get. now intros ->. Qed.

Lemma videos_of_In (lang : str) (l : list value) (d : pydict) :
  In (VDict d) l -> has_video_id d = true ->
  In (video_entry repr lang d) (videos_of repr lang l).
Proof.
  intros Hin Hid. unfold videos_of. apply in_flat_map.
  exists (VDict d). split; [assumption|]. rewrite Hid. now left.
Qed.

(** C7, amended: for a bilingual field, a mapping from language to text,
    [build] takes the entry of the requested language, else the entry of
    [fr], else the empty string, which is also what an absent field
    gives.  That text is stored as it is for [titre], for the bilingual
    fields of the sections, for the titles of the videos and of the
    discoveries and for the footer; [intro] is stored with the whitespace
    around it removed, and the [contenu] of [recherche] and of [oiseaux]
    converted from Markdown to HTML.  So a field without an [en] entry
    gives its [fr] text, treated in the same way, in the English
    context. *)
Theorem bilingual_fields_fall_back_to_fr (config : value) (lang : str)
    (ctx : pydict) :
  build_context repr config lang = Ok ctx ->
  exists cfg,
    config = VDict cfg /\
    (forall key m,
       get cfg key (VDict []) = VDict m ->
       get_text repr config key lang = Ok (bilingual m lang)) /\
    (forall sec key out m,
       In (sec, key, out) text_fields ->
       get (part cfg sec) key (VDict []) = VDict m ->
       lookup out ctx = Some (bilingual m lang)) /\
    (forall sec key out,
       In (sec, key, out) text_fields ->
       lookup key (part cfg sec) = None ->
       lookup out ctx = Some (VStr [])) /\
    (forall m,
       get cfg (py "intro") (VDict []) = VDict m ->
       exists s,
         bilingual m lang = VStr s /\
         lookup (py "intro") ctx = Some (VStr (strip s))) /\
    (forall sec out m s,
       In (sec, out) contenu_fields ->
       get (section cfg sec) (py "contenu") (VDict []) = VDict m ->
       bilingual m lang = VStr s ->
       lookup out ctx = Some (VStr (markdown_to_html_str s))) /\
    (exists videos,
       lookup (py "videos") ctx = Some (VList videos) /\
       forall d m,
         In (VDict d) (elements (section cfg (py "medias")) (py "videos")) ->
         has_video_id d = true ->
         get d (py "titre") (VDict []) = VDict m ->
         In (VDict [(py "video_id",
                     VStr (extract_youtube_id (str_of d (py "url"))));
                    (py "titre", bilingual m lang)]) videos) /\
    (exists decouvertes,
       lookup (py "decouvertes") ctx = Some (VList decouvertes) /\
       forall i d m,
         nth_error (elements (section cfg (py "medias")) (py "decouvertes")) i
         = Some (VDict d) ->
         get d (py "titre") (VDict []) = VDict m ->
         nth_error decouvertes i
         = Some (VDict [(py "titre", bilingual m lang);
                        (py "annee", get d (py "annee") (VStr []));
                        (py "url", get d (py "url") (VStr []))])) /\
    lookup (py "footer_text") ctx
    = Some (bilingual (section cfg (py "footer")) lang) /\
    (forall m t, lookup lang m = Some t -> bilingual m lang = t) /\
    (forall m t,
       lookup lang m = None -> lookup (py "fr") m = Some t ->
       bilingual m lang = t) /\
    (forall m,
       lookup lang m = None -> lookup (py "fr") m = None ->
       bilingual m lang = VStr []).
Proof.
  intros H. apply build_context_spec in H as (cfg & -> & W & ->).
  exists cfg. split; [reflexivity|].
  assert (F : forall sec key out,
            In (sec, key, out) text_fields ->
            lookup out (expected_context repr cfg lang)
            = Some (text_of repr (part cfg sec) key lang)).
  { intros sec key out Hin. cbn [text_fields In] in Hin.
    repeat (destruct Hin as [Hin|Hin];
            [injection Hin as <- <- <-; reflexivity|]).
    contradiction. }
  split.
  { intros key m Hm. unfold get_text. cbn [vget bind]. rewrite Hm.
    now rewrite bilingual_get. }
  split.
  { intros sec key out m Hin Hm. rewrite (F _ _ _ Hin).
    now rewrite (text_of_mapping _ _ _ _ Hm). }
  split.
  { intros sec key out Hin Hl. rewrite (F _ _ _ Hin).
    now rewrite (text_of_mapping _ key lang [] (get_absent _ _ _ Hl)). }
  split.
  { intros m Hm. unfold well_formed in W. cbv zeta in W.
    rewrite !andb_true_iff in W.
    assert (S : is_str (text_of repr cfg (py "intro") lang) = true)
      by tauto.
    rewrite (text_of_mapping _ _ _ _ Hm) in S.
    destruct (bilingual m lang) as [| | |s| |] eqn:B; try discriminate.
    exists s. split; [reflexivity|].
    change (lookup (py "intro") (expected_context repr cfg lang))
      with (Some (strip_of (text_of repr cfg (py "intro") lang))).
    now rewrite (text_of_mapping _ _ _ _ Hm), B. }
  split.
  { intros sec out m s Hin Hm B. cbn [contenu_fields In] in Hin.
    destruct Hin as [Hin|[Hin|[]]]; injection Hin as <- <-.
    - change (lookup (py "recherche_contenu") (expected_context repr cfg lang))
        with (Some (markdown_of
                      (text_of repr (section cfg (py "recherche"))
                         (py "contenu") lang))).
      now rewrite (text_of_mapping _ _ _ _ Hm), B.
    - change (lookup (py "oiseaux_contenu") (expected_context repr cfg lang))
        with (Some (markdown_of
                      (text_of repr (section cfg (py "oiseaux"))
                         (py "contenu") lang))).
      now rewrite (text_of_mapping _ _ _ _ Hm), B. }
  split.
  { exists (videos_of repr lang
              (elements (section cfg (py "medias")) (py "videos"))).
    split; [reflexivity|]. intros d m Hin Hid Hm.
    rewrite <- (text_of_mapping _ _ lang _ Hm).
    now apply (videos_of_In lang _ d). }
  split.
  { exists (map (decouverte_entry repr lang)
              (elements (section cfg (py "medias")) (py "decouvertes"))).
    split; [reflexivity|]. intros i d m Hd Hm.
    rewrite nth_error_map, Hd. cbn [option_map decouverte_entry].
    now rewrite (text_of_mapping _ _ _ _ Hm). }
  split; [reflexivity|].
  unfold bilingual. repeat split.
  - now intros m t ->.
  - now intros m t -> ->.
  - now intros m -> ->.
Qed.

(** X11: every context that is built has the same 29 entries, in the same
    order, whatever the document and the language; its [lang] entry is the
    language. *)
Theorem context_keys_fixed (config : value) (lang : str) (ctx : pydict) :
  build_context repr config lang = Ok ctx ->
  map fst ctx = context_keys /\ NoDup (map fst ctx) /\
  lookup (py "lang") ctx = Some (VStr lang).
Proof.
  intros H. apply build_context_is_expected in H as (cfg & _ & ->).
  split; [reflexivity|]. split; [|reflexivity].
  change (map fst (expected_context repr cfg lang)) with context_keys.
  unfold context_keys.
  repeat (constructor; [vm_compute; intuition discriminate|]).
  constructor.
Qed.

(** X12: the navigation labels of a context are the English ones when the
    language is [en] and the French ones for every other language,
    supported or not. *)
Theorem labels_default_to_french (config : value) (lang : str) (ctx : pydict) :
  build_context repr config lang = Ok ctx ->
  forall key label,
    In (key, label) (labels_of lang) -> lookup key ctx = Some (VStr label).
Proof.
  intros H key label Hin.
  apply build_context_is_expected in H as (cfg & _ & ->).
  unfold labels_of in Hin.
  assert (T : nav_table lang
              = if str_eqb lang (py "en") then nav_en else nav_fr).
  { unfold nav_table. destruct (str_eqb lang (py "fr")) eqn:F; [|reflexivity].
    apply str_eqb_eq in F. subst lang. reflexivity. }
  destruct (str_eqb lang (py "en")); simpl in Hin;
    repeat (destruct Hin as [Hin|Hin]; [injection Hin as <- <-|]);
    try contradiction; cbn [lookup expected_context str_eqb N.eqb Pos.eqb andb];
    rewrite T; reflexivity.
Qed.

Lemma videos_of_ok (lang : str) (l : list value) :
  Forall video_entry_ok (videos_of repr lang l).
Proof.
  induction l as [|v l IH]; [constructor|].
  change (videos_of repr lang (v :: l))
    with ((match v with
           | VDict d => if has_video_id d then [video_entry repr lang d] else []
           | _ => []
           end) ++ videos_of repr lang l).
  apply Forall_app. split; [|assumption].
  destruct v as [| | | | |d]; try constructor.
  unfold has_video_id.
  destruct (nonempty (extract_youtube_id (str_of d (py "url")))) eqn:E;
    constructor; [|constructor].
  unfold video_entry, video_entry_ok.
  exists (extract_youtube_id (str_of d (py "url"))),
         (text_of repr d (py "titre") lang).
  split; [reflexivity|].
  assert (F : extract_youtube_id (str_of d (py "url"))
              = first_video_id (str_of d (py "url"))) by apply youtube_search.
  rewrite F in *.
  destruct (first_video_id_shape (str_of d (py "url"))) as [Z|S]; [|exact S].
  rewrite Z in E. discriminate.
Qed.

Lemma videos_of_length (lang : str) (l : list value) :
  length (videos_of repr lang l) <= length l.
Proof.
  induction l as [|v l IH]; [simpl; lia|].
  change (videos_of repr lang (v :: l))
    with ((match v with
           | VDict d => if has_video_id d then [video_entry repr lang d] else []
           | _ => []
           end) ++ videos_of repr lang l).
  rewrite length_app. cbn [length].
  destruct v as [| | | | |d]; cbn [length]; try lia.
  destruct (has_video_id d); cbn [length]; lia.
Qed.

(** X13: the [videos] of a built context are mappings that each hold an
    identifier of 11 characters (letters, digits, [_], [-]) and a title,
    and there are at most as many as in the document: a video whose URL
    gives no identifier is not in the context. *)
Theorem context_videos_have_ids (config : value) (lang : str) (ctx : pydict) :
  build_context repr config lang = Ok ctx ->
  exists cfg videos,
    config = VDict cfg /\
    lookup (py "videos") ctx = Some (VList videos) /\
    Forall video_entry_ok videos /\
    length videos
    <= length (elements (section cfg (py "medias")) (py "videos")).
Proof.
  intros H. apply build_context_is_expected in H as (cfg & -> & ->).
  exists cfg,
    (videos_of repr lang (elements (section cfg (py "medias")) (py "videos"))).
  split; [reflexivity|]. split; [reflexivity|].
  split; [apply videos_of_ok | apply videos_of_length].
Qed.

(** X14: the loop over the videos keeps the entries whose URL holds an
    identifier, in their order, and turns each into its identifier and its
    title in the language; the other entries are dropped without error,
    whatever their title.  The entries are mappings with a string [url],
    and the title of an entry that is kept is a mapping or has a string
    form. *)
Theorem videos_filtered_in_order (lang : str) (ds : list pydict) :
  Forall (fun d => is_str (get d (py "url") (VStr [])) = true) ds ->
  Forall (fun d => has_video_id d = true ->
                   text_ok repr d (py "titre") = true) ds ->
  process_videos repr lang (map VDict ds)
  = Ok (map (video_entry repr lang) (filter has_video_id ds)).
Proof.
  intros H T. rewrite process_videos_ok.
  - f_equal. clear T. induction ds as [|d ds IH]; [reflexivity|].
    inversion H; subst. cbn [map filter].
    change (videos_of repr lang (VDict d :: map VDict ds))
      with ((if has_video_id d then [video_entry repr lang d] else [])
              ++ videos_of repr lang (map VDict ds)).
    rewrite IH by assumption. now destruct (has_video_id d).
  - induction ds as [|d ds IH]; [reflexivity|].
    inversion H as [|? ? Hu Hds]; subst.
    inversion T as [|? ? Ht Tds]; subst.
    cbn [map forallb video_ok].
    rewrite IH by assumption. rewrite andb_true_r, Hu. cbn [andb].
    destruct (has_video_id d); [now rewrite Ht|reflexivity].
Qed.

(** X15: the [decouvertes] of a built context are the discoveries of the
    document one for one and in order: each keeps its [annee] and [url] as
    they are given (the empty string when absent) and gets its title in
    the language. *)
Theorem context_decouvertes_one_for_one (config : value) (lang : str)
    (ctx : pydict) :
  build_context repr config lang = Ok ctx ->
  exists cfg out,
    config = VDict cfg /\
    lookup (py "decouvertes") ctx = Some (VList out) /\
    length out
    = length (elements (section cfg (py "medias")) (py "decouvertes")) /\
    forall i d,
      nth_error (elements (section cfg (py "medias")) (py "decouvertes")) i
      = Some (VDict d) ->
      nth_error out i
      = Some (VDict [(py "titre", text_of repr d (py "titre") lang);
                     (py "annee", get d (py "annee") (VStr []));
                     (py "url", get d (py "url") (VStr []))]).
Proof.
  intros H. apply build_context_is_expected in H as (cfg & -> & ->).
  exists cfg,
    (map (decouverte_entry repr lang)
       (elements (section cfg (py "medias")) (py "decouvertes"))).
  split; [reflexivity|]. split; [reflexivity|].
  split; [apply length_map|].
  intros i d Hd. rewrite nth_error_map, Hd. reflexivity.
Qed.

End BuilderInvariants.

(** C7 as stated fails for the fields that are not stored as they are:
    with French entries only, the English context holds the introduction
    without the whitespace around it and the content as HTML, not the
    [fr] values themselves. *)
Lemma contenu_not_returned_counterexample :
  build_context no_repr french_only_doc (py "en")
  = Ok (expected_context no_repr french_only_cfg (py "en")) /\
  lookup (py "recherche_contenu")
    (expected_context no_repr french_only_cfg (py "en"))
  = Some (VStr (py "<p>x</p>")) /\
  lookup (py "recherche_contenu")
    (expected_context no_repr french_only_cfg (py "en"))
  <> Some (VStr (py "x")) /\
  lookup (py "intro") (expected_context no_repr french_only_cfg (py "en"))
  = Some (VStr (py "Bonjour")) /\
  lookup (py "intro") (expected_context no_repr french_only_cfg (py "en"))
  <> Some (VStr (py " Bonjour ")).
Proof.
  split; [vm_compute; reflexivity|]. split; [vm_compute; reflexivity|].
  split; [vm_compute; discriminate|]. split; [vm_compute; reflexivity|].
  vm_compute. discriminate.
Qed.

Lemma bilingual_fields_fall_back_to_fr_witness :
  lookup (py "titre") (expected_context no_repr french_only_cfg (py "en"))
  = Some (VStr (py "Chercheur")) /\
  lookup (py "recherche_contenu")
    (expected_context no_repr french_only_cfg (py "en"))
  = Some (VStr (markdown_to_html_str (py "x"))).
Proof.
  destruct (bilingual_fields_fall_back_to_fr no_repr french_only_doc (py "en")
              (expected_context no_repr french_only_cfg (py "en")))
    as (cfg & E & _ & T & _ & _ & C & _).
  - vm_compute. reflexivity.
  - injection E as <-. split.
    + apply (T [] (py "titre") (py "titre") [(py "fr", VStr (py "Chercheur"))]);
        [now left|reflexivity].
    + apply (C (py "recherche") (py "recherche_contenu")
               [(py "fr", VStr (py "x"))] (py "x"));
        [now left|reflexivity|reflexivity].
Defined.

Lemma context_keys_fixed_witness :
  map fst (expected_context no_repr media_cfg (py "en")) = context_keys /\
  NoDup (map fst (expected_context no_repr media_cfg (py "en"))) /\
  lookup (py "lang") (expected_context no_repr media_cfg (py "en"))
  = Some (VStr (py "en")).
Proof.
  apply (context_keys_fixed no_repr media_doc (py "en")).
  vm_compute. reflexivity.
Defined.

Lemma labels_default_to_french_witness :
  lookup (py "scroll_hint") (expected_context no_repr media_cfg (py "de"))
  = Some (VStr (py "D" ++ [233%N] ++ py "filer")).
Proof.
  apply (labels_default_to_french no_repr media_doc (py "de")).
  - vm_compute. reflexivity.
  - vm_compute. intuition.
Defined.

Lemma context_videos_have_ids_witness :
  exists cfg videos,
    media_doc = VDict cfg /\
    lookup (py "videos") (expected_context no_repr media_cfg (py "en"))
    = Some (VList videos) /\
    Forall video_entry_ok videos /\
    length videos
    <= length (elements (section cfg (py "medias")) (py "videos")).
Proof.
  apply (context_videos_have_ids no_repr media_doc (py "en")).
  vm_compute. reflexivity.
Defined.

Lemma videos_filtered_in_order_witness :
  process_videos no_repr (py "en")
    (map VDict [[(py "url", VStr (py "https://youtu.be/dQw4w9WgXcQ"))];
                [(py "url", VStr (py "https://example.com/video"))];
                [(py "titre", VStr (py "no url"))]])
  = Ok (map (video_entry no_repr (py "en"))
          (filter has_video_id
             [[(py "url", VStr (py "https://youtu.be/dQw4w9WgXcQ"))];
              [(py "url", VStr (py "https://example.com/video"))];
              [(py "titre", VStr (py "no url"))]])).
Proof.
  apply videos_filtered_in_order.
  - repeat constructor.
  - repeat constructor.
Defined.

Lemma context_decouvertes_one_for_one_witness :
  exists cfg out,
    media_doc = VDict cfg /\
    lookup (py "decouvertes") (expected_context no_repr media_cfg (py "fr"))
    = Some (VList out) /\
    length out
    = length (elements (section cfg (py "medias")) (py "decouvertes")) /\
    forall i d,
      nth_error (elements (section cfg (py "medias")) (py "decouvertes")) i
      = Some (VDict d) ->
      nth_error out i
      = Some (VDict [(py "titre", text_of no_repr d (py "titre") (py "fr"));
                     (py "annee", get d (py "annee") (VStr []));
                     (py "url", get d (py "url") (VStr []))]).
Proof.
  apply (context_decouvertes_one_for_one no_repr media_doc (py "fr")).
  vm_compute. reflexivity.
Defined.

(* ================================================================== *)
(** * More on the identifiers and the raw fields *)
(* ================================================================== *)

Lemma shape_at_needs_y (c : char) (s : str) :
  c <> 121%N -> shape_at (c :: s) = None.
Proof.
  intros H. assert (N : 121%N <> c) by congruence.
  unfold shape_at, token_after.
  rewrite (startswith_diff 121%N c s (py "outube.com/watch?v=") N
           : startswith (c :: s) (py "youtube.com/watch?v=") = false).
  rewrite (startswith_diff 121%N c s (py "outu.be/") N
           : startswith (c :: s) (py "youtu.be/") = false).
  rewrite (startswith_diff 121%N c s (py "outube.com/embed/") N
           : startswith (c :: s) (py "youtube.com/embed/") = false).
  reflexivity.
Qed.

Lemma first_video_id_skip (pre s : str) :
  ~ In 121%N pre -> first_video_id (pre ++ s) = first_video_id s.
Proof.
  induction pre as [|c pre IH]; intros H; [reflexivity|].
  cbn [app]. rewrite first_video_id_eq, shape_at_needs_y.
  - apply IH. intros F. apply H. now right.
  - intros ->. apply H. now left.
Qed.

Lemma token_after_hit (shape id rest : str) :
  length id = 11 -> forallb id_char id = true ->
  token_after shape (shape ++ id ++ rest) = Some id.
Proof.
  intros L F. unfold token_after. rewrite startswith_app.
  rewrite skipn_app, skipn_all, Nat.sub_diag. cbn [skipn app].
  assert (T : firstn 11 (id ++ rest) = id).
  { rewrite firstn_app. replace (11 - length id) with 0 by lia.
    rewrite firstn_all2 by lia. cbn [firstn]. apply app_nil_r. }
  rewrite T, L, F. reflexivity.
Qed.

(** X16: a URL made of any text without the letter [y], one of the three
    shapes, an identifier of 11 characters and anything after it gives
    back that identifier: so do [https://www.youtube.com/watch?v=ID],
    [https://youtu.be/ID] and [https://www.youtube.com/embed/ID], with or
    without parameters after the identifier. *)
Theorem shaped_url_gives_identifier (pre shape id rest : str) :
  ~ In 121%N pre -> In shape url_shapes ->
  length id = 11 -> forallb id_char id = true ->
  extract_youtube_id (pre ++ shape ++ id ++ rest) = id.
Proof.
  intros Hpre Hin L F.
  assert (E : extract_youtube_id (pre ++ shape ++ id ++ rest)
              = first_video_id (pre ++ shape ++ id ++ rest))
    by apply youtube_search.
  rewrite E, first_video_id_skip by assumption.
  rewrite first_video_id_eq. unfold shape_at.
  simpl in Hin. destruct Hin as [<-|[<-|[<-|[]]]].
  - now rewrite token_after_hit.
  - rewrite (token_after_hit (py "youtu.be/")) by assumption.
    reflexivity.
  - rewrite (token_after_hit (py "youtube.com/embed/")) by assumption.
    reflexivity.
Qed.

Lemma shaped_url_gives_identifier_witness :
  extract_youtube_id
    (py "https://www." ++ py "youtube.com/embed/" ++ py "a1B2-c3_D4e"
       ++ py "?start=10")
  = py "a1B2-c3_D4e".
Proof.
  apply shaped_url_gives_identifier.
  - apply lacks_In. reflexivity.
  - vm_compute. intuition.
  - reflexivity.
  - reflexivity.
Defined.

Section RawFields.

Variable repr : value -> res str.

(** X17: the entries [nom], [photo], [css_path], [affiliation_inst],
    [email], [orcid], [recherche_photo], [ads_url] and [oiseaux_photo] of a
    built context are the values of the document as they are, of any type
    and in every language, and the empty string when the document does not
    have them. *)
Theorem raw_fields_copied (config : value) (lang : str) (ctx : pydict) :
  build_context repr config lang = Ok ctx ->
  exists cfg,
    config = VDict cfg /\
    forall sec key out,
      In (sec, key, out) raw_fields ->
      lookup out ctx = Some (raw_value cfg sec key).
Proof.
  intros H. apply build_context_is_expected in H as (cfg & -> & ->).
  exists cfg. split; [reflexivity|].
  intros sec key out Hin. simpl in Hin.
  repeat (destruct Hin as [Hin|Hin]; [injection Hin as <- <- <-; reflexivity|]).
  contradiction.
Qed.

End RawFields.

Lemma raw_fields_copied_witness :
  lookup (py "nom") (expected_context no_repr media_cfg (py "en"))
  = Some (VStr (py "E. A.")).
Proof.
  destruct (raw_fields_copied no_repr media_doc (py "en")
              (expected_context no_repr media_cfg (py "en")))
    as (cfg & E & R).
  - vm_compute. reflexivity.
  - injection E as <-. apply (R [] (py "nom") (py "nom")). now left.
Defined.

(* ================================================================== *)
(** * Markdown: blocks are converted one by one *)
(* ================================================================== *)

Lemma lstrip_keeps_last (y : str) (c : char) :
  isspace c = false -> exists z, lstrip (y ++ [c]) = z ++ [c].
Proof.
  intros H. induction y as [|d y IH].
  - exists []. cbn [app lstrip]. now rewrite H.
  - cbn [app lstrip]. destruct (isspace d); [assumption|].
    now exists (d :: y).
Qed.

Lemma trimmed_strip (s : str) : trimmed s = true -> strip s = s.
Proof.
  destruct s as [|c t]; [discriminate|]. cbn [trimmed].
  intros H. apply andb_true_iff in H as [Hc Hd].
  apply negb_true_iff in Hc. apply negb_true_iff in Hd.
  unfold strip. rewrite lstrip_fixed by assumption. unfold rstrip.
  assert (D : c :: t = removelast (c :: t) ++ [last (c :: t) 32%N])
    by (apply app_removelast_last; discriminate).
  set (r := removelast (c :: t)) in *. set (l := last (c :: t) 32%N) in *.
  rewrite D, rev_app_distr. cbn [rev app].
  rewrite lstrip_fixed by assumption. cbn [rev].
  now rewrite rev_involutive.
Qed.

Lemma strip_nonempty (c : char) (x : str) :
  isspace c = false -> strip (c :: x) <> [].
Proof.
  intros H. unfold strip. rewrite lstrip_fixed by assumption.
  unfold rstrip. cbn [rev].
  destruct (lstrip_keeps_last (rev x) c H) as [z ->].
  rewrite rev_app_distr. discriminate.
Qed.

Lemma split_go_first (sep : str) (n : nat) :
  forall cur s, exists p rest,
    split_go n sep cur s = (rev cur ++ p) :: rest.
Proof.
  induction n as [|n IH]; intros cur s.
  - exists s, []. reflexivity.
  - destruct s as [|c s].
    + exists [], []. cbn [split_go]. now rewrite app_nil_r.
    + rewrite split_go_cons. destruct (startswith (c :: s) sep).
      * exists [], (split_go n sep [] (skipn (length sep) (c :: s))).
        now rewrite app_nil_r.
      * destruct (IH (c :: cur) s) as (p & rest & ->).
        exists (c :: p), rest. cbn [rev]. now rewrite <- app_assoc.
Qed.

Lemma last_cons_cons (c d : char) (s : str) (x : char) :
  last (c :: d :: s) x = last (d :: s) x.
Proof. reflexivity. Qed.

(** A blank line after a text that does not end with a newline ends its
    last part. *)
Lemma split_go_blank_line (b : str) (n : nat) :
  forall a cur,
    length (a ++ 10%N :: 10%N :: b) < n -> a <> [] -> last a 0%N <> 10%N ->
    split_go n [10%N; 10%N] cur (a ++ 10%N :: 10%N :: b)
    = split_go n [10%N; 10%N] cur a ++ split_go n [10%N; 10%N] [] b.
Proof.
  unfold str, char in *.
  induction n as [|n IH]; intros a cur Hn Ha Hl; [lia|].
  destruct a as [|c a]; [contradiction|].
  destruct a as [|d a].
  - (* the last character of the text *)
    cbn [last] in Hl. cbn [app].
    destruct n as [|n]; [simpl in Hn; lia|].
    assert (L : split_go (S (S n)) [10%N; 10%N] cur (c :: 10%N :: 10%N :: b)
                = rev (c :: cur) :: split_go n [10%N; 10%N] [] b).
    { rewrite split_go_cons, (startswith_diff 10%N c) by congruence.
      rewrite split_go_cons. reflexivity. }
    assert (R : split_go (S (S n)) [10%N; 10%N] cur [c] = [rev (c :: cur)]).
    { rewrite split_go_cons, (startswith_diff 10%N c) by congruence.
      reflexivity. }
    rewrite L, R. cbn [app]. f_equal.
    apply split_go_fuel; [discriminate| |]; unfold char, str in *; simpl in Hn |- *; lia.
  - rewrite last_cons_cons in Hl.
    change ((c :: d :: a) ++ 10%N :: 10%N :: b)
      with (c :: d :: (a ++ 10%N :: 10%N :: b)).
    rewrite !split_go_cons.
    change (startswith (c :: d :: a ++ 10%N :: 10%N :: b) [10%N; 10%N])
      with (N.eqb 10 c && (N.eqb 10 d && true)).
    change (startswith (c :: d :: a) [10%N; 10%N])
      with (N.eqb 10 c && (N.eqb 10 d && true)).
    destruct (N.eqb 10 c && (N.eqb 10 d && true)) eqn:E.
    + change (skipn (length [10%N; 10%N]) (c :: d :: a ++ 10%N :: 10%N :: b))
        with (a ++ 10%N :: 10%N :: b).
      change (skipn (length [10%N; 10%N]) (c :: d :: a)) with a.
      assert (Na : a <> []).
      { intros ->. cbn [last] in Hl.
        apply andb_true_iff in E as [_ E]. apply andb_true_iff in E as [E _].
        apply N.eqb_eq in E. congruence. }
      assert (La : last a 0%N <> 10%N).
      { destruct a as [|x a]; [contradiction|]. exact Hl. }
      cbn [app]. f_equal.
      etransitivity;
        [apply IH;
         [rewrite ?length_app in *; unfold char, str in *; simpl in Hn |- *; lia
         |auto|auto]|].
      f_equal. apply split_go_fuel; [discriminate| |];
        rewrite ?length_app in Hn; unfold char, str in *; simpl in Hn |- *; lia.
    + etransitivity;
        [apply (IH (d :: a) (c :: cur));
         [rewrite ?length_app in *; unfold char, str in *; simpl in Hn |- *; lia
         |discriminate|exact Hl]|].
      f_equal. apply split_go_fuel; [discriminate| |];
        rewrite ?length_app in Hn; unfold char, str in *; simpl in Hn |- *; lia.
Qed.

Lemma py_split_blank_line (a b : str) :
  a <> [] -> last a 0%N <> 10%N ->
  py_split (a ++ nl ++ nl ++ b) (nl ++ nl)
  = py_split a (nl ++ nl) ++ py_split b (nl ++ nl).
Proof.
  intros Ha Hl. unfold py_split.
  change (nl ++ nl ++ b) with (10%N :: 10%N :: b).
  change (nl ++ nl) with [10%N; 10%N].
  rewrite split_go_blank_line by (auto; lia). f_equal.
  - apply split_go_fuel; [discriminate| |]; unfold char, str in *;
      rewrite ?length_app; simpl; lia.
  - apply split_go_fuel; [discriminate| |]; unfold char, str in *;
      rewrite ?length_app; simpl; lia.
Qed.

Lemma last_default (s : str) (x y : char) : s <> [] -> last s x = last s y.
Proof.
  induction s as [|c s IH]; [contradiction|]. intros _.
  destruct s as [|d s]; [reflexivity|].
  rewrite !last_cons_cons. apply IH. discriminate.
Qed.

Lemma trimmed_inv (s : str) :
  trimmed s = true ->
  exists c t, s = c :: t /\ isspace c = false /\
              isspace (last s 0%N) = false.
Proof.
  destruct s as [|c t]; [discriminate|]. cbn [trimmed]. intros H.
  apply andb_true_iff in H as [Hc Hd].
  apply negb_true_iff in Hc. apply negb_true_iff in Hd.
  exists c, t. split; [reflexivity|]. split; [assumption|].
  now rewrite (last_default (c :: t) 0%N 32%N) by discriminate.
Qed.

Lemma blocks_nonempty (s : str) : trimmed s = true -> blocks s <> [].
Proof.
  intros H. apply trimmed_inv in H as (c & t & -> & Hc & _).
  unfold blocks, py_split. change (nl ++ nl) with (10%N :: nl).
  rewrite split_go_cons.
  rewrite (startswith_diff 10%N c) by (intros <-; discriminate).
  destruct (split_go_first (10%N :: nl) (length (c :: t)) [c] t)
    as (p & rest & ->).
  cbn [map rev app filter].
  destruct (strip (c :: p)) eqn:E; [|discriminate].
  now apply strip_nonempty in E.
Qed.

Lemma join_app (sep : str) (xs ys : list str) :
  xs <> [] -> ys <> [] ->
  join sep (xs ++ ys) = join sep xs ++ sep ++ join sep ys.
Proof.
  intros Hx Hy. induction xs as [|x xs IH]; [contradiction|].
  destruct xs as [|x' xs].
  - destruct ys as [|y ys]; [contradiction|]. reflexivity.
  - change (join sep ((x :: x' :: xs) ++ ys))
      with (x ++ sep ++ join sep ((x' :: xs) ++ ys)).
    rewrite IH by discriminate.
    change (join sep (x :: x' :: xs)) with (x ++ sep ++ join sep (x' :: xs)).
    now rewrite <- !app_assoc.
Qed.

Lemma markdown_text_blocks (text : str) :
  trimmed text = true -> ~ In 91%N text ->
  markdown_text text = join nl (map paragraph_html (blocks text)).
Proof.
  intros Ht Hl. unfold markdown_text.
  fold (rewrite_links text). rewrite rewrite_links_absent by assumption.
  now rewrite trimmed_strip.
Qed.

Lemma last_app_r (x y : str) (d : char) :
  y <> [] -> last (x ++ y) d = last y d.
Proof.
  intros Hy. induction x as [|c x IH]; [reflexivity|].
  cbn [app]. destruct (x ++ y) as [|e z] eqn:E.
  - apply app_eq_nil in E as [_ E]. contradiction.
  - rewrite last_cons_cons. exact IH.
Qed.

Lemma trimmed_blank_line (a b : str) :
  trimmed a = true -> trimmed b = true -> trimmed (a ++ nl ++ nl ++ b) = true.
Proof.
  intros Ha Hb.
  apply trimmed_inv in Ha as (c & t & -> & Hc & _).
  apply trimmed_inv in Hb as (d & u & -> & _ & Hd).
  assert (L : last ((c :: t) ++ nl ++ nl ++ d :: u) 32%N = last (d :: u) 0%N).
  { rewrite last_app_r by discriminate.
    change (nl ++ nl ++ d :: u) with (10%N :: 10%N :: d :: u).
    rewrite !last_cons_cons. apply last_default. discriminate. }
  change ((c :: t) ++ nl ++ nl ++ d :: u)
    with (c :: (t ++ nl ++ nl ++ d :: u)) in *.
  cbn [trimmed]. now rewrite L, Hc, Hd.
Qed.

(** X18: two texts separated by a blank line are converted one by one:
    the HTML of the whole is the HTML of the first, a newline, and the
    HTML of the second (for texts without surrounding whitespace and
    without opening bracket, so that no link runs across the blank
    line). *)
Theorem blocks_convert_one_by_one (a b : str) :
  trimmed a = true -> trimmed b = true ->
  ~ In 91%N a -> ~ In 91%N b ->
  markdown_to_html_str (a ++ nl ++ nl ++ b)
  = markdown_to_html_str a ++ nl ++ markdown_to_html_str b.
Proof.
  intros Ta Tb La Lb.
  assert (Tab := trimmed_blank_line a b Ta Tb).
  unfold markdown_to_html_str.
  destruct (trimmed_inv a Ta) as (c & t & Ea & Hc & Hla).
  destruct (trimmed_inv b Tb) as (d & u & Eb & _ & _).
  replace (nonempty (a ++ nl ++ nl ++ b)) with true
    by (rewrite Ea; reflexivity).
  replace (nonempty a) with true by (rewrite Ea; reflexivity).
  replace (nonempty b) with true by (rewrite Eb; reflexivity).
  rewrite !markdown_text_blocks; auto.
  - unfold blocks. rewrite py_split_blank_line.
    + rewrite map_app, filter_app, map_app.
      apply join_app.
      * intros F. apply map_eq_nil in F. now apply (blocks_nonempty a Ta).
      * intros F. apply map_eq_nil in F. now apply (blocks_nonempty b Tb).
    + rewrite Ea. discriminate.
    + intros F. rewrite F in Hla. discriminate.
  - rewrite !in_app_iff. intros [F|[F|[F|F]]]; auto;
      simpl in F; intuition discriminate.
Qed.

Lemma blocks_convert_one_by_one_witness :
  markdown_to_html_str
    (py "intro line" ++ nl ++ py "second line" ++ nl ++ nl
       ++ py "- a" ++ nl ++ py "- b")
  = markdown_to_html_str (py "intro line" ++ nl ++ py "second line") ++ nl
      ++ markdown_to_html_str (py "- a" ++ nl ++ py "- b").
Proof.
  pose proof (blocks_convert_one_by_one
                (py "intro line" ++ nl ++ py "second line")
                (py "- a" ++ nl ++ py "- b")) as H.
  rewrite <- !app_assoc in H. apply H.
  - reflexivity.
  - reflexivity.
  - apply lacks_In. reflexivity.
  - apply lacks_In. reflexivity.
Defined.

